(** * A file-backed document store: model of [main.go] and its properties

    The program keeps JSON records as files [<dir>/<collection>/<name>.json].
    Its [Driver] methods are written against Go's [os], [path/filepath] and
    [encoding/json] packages.  The development below has three layers:

    - [filepath]: [Clean] and [Join] on strings (Unix rules);
    - [os]: a file system as a finite map from absolute locations to nodes,
      with the calls the driver makes ([Stat], [MkdirAll], [WriteFile],
      [Rename], [ReadFile], [ReadDir], [RemoveAll]), each recorded in a
      trace of calls;
    - the driver itself ([New], [Write], [Read], [ReadAll], [Delete],
      [getOrCreateMutex], [stat]), a state-passing transcription of the Go
      methods over a JSON codec given as a type class. *)

From Stdlib Require Import Ascii String.
From stdpp Require Import base option list strings gmap sorting.

Local Open Scope string_scope.
Local Open Scope list_scope.

(** ** Strings as paths *)

(** Go's [string] and [[]byte] are both byte sequences; Rocq's [string] is a
    sequence of 8-bit characters, so it stands for both. *)
Abbreviation bytes := string (only parsing).

Definition Separator : ascii := "/"%char.

(** [strings.Split(s, "/")]: the fields between separators; never empty. *)
Fixpoint split (s : string) : list string :=
  match s with
  | EmptyString => [""]
  | String c s' =>
      if decide (c = Separator) then "" :: split s'
      else match split s' with
           | x :: xs => String c x :: xs
           | [] => [String c ""]
           end
  end.

(** [strings.Join(elems, "/")]. *)
Fixpoint join (elems : list string) : string :=
  match elems with
  | [] => ""
  | [x] => x
  | x :: rest => x +:+ "/" +:+ join rest
  end.

(** The last element of a path as written. *)
Definition last_elem (p : string) : string := default "" (last (split p)).

(** A path element that names an entry: no separator in it, not empty,
    not [.] and not [..]. *)
Definition plain (x : string) : Prop :=
  split x = [x] ∧ x ≠ "" ∧ x ≠ "." ∧ x ≠ "..".

#[global] Instance plain_dec x : Decision (plain x).
Proof. unfold plain. apply _. Defined.

(** A relative path made of plain elements, such as [users] or
    [users/admins]. *)
Definition plain_path (p : string) : Prop := Forall plain (split p).

#[global] Instance plain_path_dec p : Decision (plain_path p).
Proof. unfold plain_path. apply _. Defined.

(** A path is rooted when it starts with the separator. *)
Definition rooted (p : string) : bool :=
  match p with
  | String c _ => bool_decide (c = Separator)
  | EmptyString => false
  end.

Module filepath.

(** One pass of [Clean] over the path elements.  [out] is the output so
    far, last element first.  An empty element (doubled or trailing
    separator) and [.] are dropped; [..] removes the element before it,
    is dropped at the start of a rooted path and is kept at the start of
    a relative one. *)
Fixpoint clean_elems (rt : bool) (out : list string) (elems : list string)
  : list string :=
  match elems with
  | [] => out
  | e :: rest =>
      if decide (e = "") then clean_elems rt out rest
      else if decide (e = ".") then clean_elems rt out rest
      else if decide (e = "..") then
        match out with
        | x :: out' =>
            if decide (x = "..") then clean_elems rt (".." :: out) rest
            else clean_elems rt out' rest
        | [] =>
            if rt then clean_elems rt [] rest
            else clean_elems rt [".."] rest
        end
      else clean_elems rt (e :: out) rest
  end.

(** The string for a cleaned element stack. *)
Definition render (rt : bool) (out : list string) : string :=
  if rt then "/" +:+ join (rev out)
  else match out with
       | [] => "."
       | _ => join (rev out)
       end.

(** [filepath.Clean]: the shortest equivalent path by lexical rules. *)
Definition Clean (path : string) : string :=
  if decide (path = "") then "."
  else render (rooted path) (clean_elems (rooted path) [] (split path)).

(** [filepath.Join]: leading empty elements are skipped, the rest is
    joined with separators and cleaned; all empty gives the empty string. *)
Fixpoint Join (elem : list string) : string :=
  match elem with
  | [] => ""
  | e :: rest => if decide (e = "") then Join rest else Clean (join elem)
  end.

End filepath.

(** ** Errors *)

(** The system error numbers the model can produce. *)
Inductive Errno := ENOENT | ENOTDIR | EISDIR | EEXIST | EINVAL | EBUSY | ENOTEMPTY.

(** Go's [error] values: [fmt.Errorf] strings, [*fs.PathError],
    [*os.LinkError], and the errors of [encoding/json]. *)
Inductive error :=
  | ErrorString (msg : string)
  | PathError (op path : string) (errno : Errno)
  | LinkError (op old new : string) (errno : Errno)
  | JsonError (msg : string).

#[global] Instance Errno_eq_dec : EqDecision Errno.
Proof. solve_decision. Defined.
#[global] Instance error_eq_dec : EqDecision error.
Proof. solve_decision. Defined.

(** ** The file system *)

(** A location names an entry absolutely: its own name first, then the
    names of its ancestors up to the root, which is [[]].  There are no
    links, so every entry has one location. *)
Abbreviation loc := (list string) (only parsing).

Inductive node :=
  | File (data : bytes)
  | Dir.

#[global] Instance node_eq_dec : EqDecision node.
Proof. solve_decision. Defined.

(** The calls of package [os] the driver makes, as recorded in the trace.
    Permissions are the numbers passed ([0755] is 493, [0644] is 420). *)
Inductive Call :=
  | CallStat (name : string)
  | CallMkdirAll (path : string) (perm : N)
  | CallWriteFile (name : string) (data : bytes) (perm : N)
  | CallRename (oldpath newpath : string)
  | CallReadFile (name : string)
  | CallReadDir (name : string)
  | CallRemoveAll (path : string).

(** What a driver call runs in: the file system, the working directory of
    the process, the trace of [os] calls made so far, and the number of
    [sync.Mutex] objects allocated so far (the next fresh address). *)
Record World := mkWorld {
  fs : gmap (list string) node;
  cwd : list string;
  calls : list Call;
  allocated : nat
}.

Definition set_fs (w : World) (m : gmap (list string) node) : World :=
  mkWorld m (cwd w) (calls w) (allocated w).

Definition log (c : Call) (w : World) : World :=
  mkWorld (fs w) (cwd w) (calls w ++ [c]) (allocated w).

Module os.

(** [fs.FileMode], as far as the driver looks at it. *)
Record FileMode := mkMode { IsDir : bool; IsRegular : bool }.

(** [fs.FileInfo]; only [Mode()] is used. *)
Record FileInfo := mkInfo { Mode : FileMode }.

(** [fs.DirEntry]; only [Name()] is used. *)
Record DirEntry := mkEntry { Name : string; EntryIsDir : bool }.

Definition info_of (n : node) : FileInfo :=
  match n with
  | File _ => mkInfo (mkMode false true)
  | Dir => mkInfo (mkMode true false)
  end.

(** [os.IsNotExist]. *)
Definition IsNotExist (err : option error) : bool :=
  match err with
  | Some (PathError _ _ ENOENT) | Some (LinkError _ _ _ ENOENT) => true
  | _ => false
  end.

(** *** Path resolution *)

(** Where one path element leads from [cur]. *)
Definition move (cur : list string) (e : string) : list string :=
  if decide (e = "") then cur
  else if decide (e = ".") then cur
  else if decide (e = "..") then tail cur
  else e :: cur.

(** One step of the walk: an element can only be followed from a
    directory. *)
Definition step (m : gmap (list string) node) (cur : list string) (e : string)
  : Errno + list string :=
  match m !! cur with
  | None => inl ENOENT
  | Some (File _) => inl ENOTDIR
  | Some Dir => inr (move cur e)
  end.

Fixpoint walk (m : gmap (list string) node) (cur : list string)
    (elems : list string) : Errno + list string :=
  match elems with
  | [] => inr cur
  | e :: rest =>
      match step m cur e with
      | inl err => inl err
      | inr cur' => walk m cur' rest
      end
  end.

Definition start (w : World) (p : string) : list string :=
  if rooted p then [] else cwd w.

(** The location a path names; its entry need not exist, but every
    directory on the way does. *)
Definition resolve (w : World) (p : string) : Errno + list string :=
  if decide (p = "") then inl ENOENT
  else walk (fs w) (start w p) (split p).

(** The entry a path names. *)
Definition lookup_path (w : World) (p : string) : Errno + (list string * node) :=
  match resolve w p with
  | inl e => inl e
  | inr l =>
      match fs w !! l with
      | None => inl ENOENT
      | Some n => inr (l, n)
      end
  end.

(** *** The calls *)

(** Every call is added to the trace first.  [Stat] describes the entry
    the name resolves to. *)
Definition Stat (name : string) (w : World)
  : (option FileInfo * option error) * World :=
  let w := log (CallStat name) w in
  match lookup_path w name with
  | inl e => ((None, Some (PathError "stat" name e)), w)
  | inr (_, n) => ((Some (info_of n), None), w)
  end.

(** [ReadFile]: the whole content of a file; a directory cannot be
    read. *)
Definition ReadFile (name : string) (w : World)
  : (bytes * option error) * World :=
  let w := log (CallReadFile name) w in
  match lookup_path w name with
  | inl e => (("", Some (PathError "open" name e)), w)
  | inr (_, Dir) => (("", Some (PathError "read" name EISDIR)), w)
  | inr (_, File data) => ((data, None), w)
  end.

(** [WriteFile]: the file is created in the directory the walk has
    reached, or its content is replaced. *)
Definition WriteFile (name : string) (data : bytes) (perm : N) (w : World)
  : option error * World :=
  let w := log (CallWriteFile name data perm) w in
  match resolve w name with
  | inl e => (Some (PathError "open" name e), w)
  | inr l =>
      match fs w !! l with
      | Some Dir => (Some (PathError "open" name EISDIR), w)
      | _ => (None, set_fs w (<[l := File data]> (fs w)))
      end
  end.

(** [MkdirAll] follows the path and creates each directory that is
    missing; it stops at a file.  [cur] is a directory of [m].  An error
    is reported for the whole path. *)
Fixpoint mkdir_walk (m : gmap (list string) node) (cur : list string)
    (elems : list string) : gmap (list string) node * option Errno :=
  match elems with
  | [] => (m, None)
  | e :: rest =>
      let cur' := move cur e in
      match m !! cur' with
      | Some Dir => mkdir_walk m cur' rest
      | Some (File _) => (m, Some ENOTDIR)
      | None =>
          if decide (cur' = e :: cur)
          then mkdir_walk (<[cur' := Dir]> m) cur' rest
          else (m, Some ENOENT)
      end
  end.

Definition MkdirAll (path : string) (perm : N) (w : World)
  : option error * World :=
  let w := log (CallMkdirAll path perm) w in
  if decide (path = "") then (Some (PathError "mkdir" path ENOENT), w)
  else
    match fs w !! start w path with
    | None => (Some (PathError "mkdir" path ENOENT), w)
    | Some (File _) => (Some (PathError "mkdir" path ENOTDIR), w)
    | Some Dir =>
        match mkdir_walk (fs w) (start w path) (split path) with
        | (m, None) => (None, set_fs w m)
        | (m, Some e) => (Some (PathError "mkdir" path e), set_fs w m)
        end
    end.

(** The entries at or below [l]. *)
Definition below (l k : list string) : Prop := l `suffix_of` k.

(** Moving the tree at [lo] to [ln]. *)
Definition rekey (lo ln k : list string) : list string :=
  take (length k - length lo) k ++ ln.

Definition move_tree (lo ln : list string) (m : gmap (list string) node)
  : gmap (list string) node :=
  list_to_map (prod_map (rekey lo ln) id <$>
                 map_to_list (filter (λ kn, below lo kn.1) m))
  ∪ filter (λ kn, ¬ below lo kn.1) m.

(** [Rename]: a file takes a free name or replaces a file; a directory
    moves with everything below it to a free name outside itself; a
    directory is never replaced. *)
Definition Rename (oldpath newpath : string) (w : World)
  : option error * World :=
  let w := log (CallRename oldpath newpath) w in
  let fail e := (Some (LinkError "rename" oldpath newpath e), w) in
  match lookup_path w oldpath, resolve w newpath with
  | inl e, _ => fail e
  | _, inl e => fail e
  | inr (lo, File data), inr ln =>
      match fs w !! ln with
      | Some Dir => fail EEXIST
      | _ => (None, set_fs w (<[ln := File data]> (delete lo (fs w))))
      end
  | inr (lo, Dir), inr ln =>
      match fs w !! ln with
      | Some Dir => fail EEXIST
      | Some (File _) => fail ENOTDIR
      | None =>
          if decide (lo = []) then fail EBUSY
          else if decide (below lo ln) then fail EINVAL
          else (None, set_fs w (move_tree lo ln (fs w)))
      end
  end.

(** File names are listed in byte order. *)
Definition name_le (a b : string) : Prop := String.leb a b = true.

#[global] Instance name_le_dec a b : Decision (name_le a b).
Proof. unfold name_le. apply _. Defined.

(** The entry of [m] that is a child of [l], if [kn] is one. *)
Definition child_of (l : list string) (kn : list string * node)
  : option DirEntry :=
  match kn with
  | (c :: l', n) =>
      if decide (l' = l) then Some (mkEntry c (IsDir (Mode (info_of n))))
      else None
  | ([], _) => None
  end.

Definition entry_le (a b : DirEntry) : Prop := name_le (Name a) (Name b).

#[global] Instance entry_le_dec a b : Decision (entry_le a b).
Proof. unfold entry_le. apply _. Defined.

Definition children (m : gmap (list string) node) (l : list string)
  : list DirEntry :=
  merge_sort entry_le (omap (child_of l) (map_to_list m)).

(** [ReadDir]: the entries of a directory, sorted by name. *)
Definition ReadDir (name : string) (w : World)
  : (list DirEntry * option error) * World :=
  let w := log (CallReadDir name) w in
  match lookup_path w name with
  | inl e => (([], Some (PathError "open" name e)), w)
  | inr (_, File _) => (([], Some (PathError "readdirent" name ENOTDIR)), w)
  | inr (l, Dir) => ((children (fs w) l, None), w)
  end.

(** [RemoveAll] is silent on the empty path and on a path that does not
    exist, refuses a path ending in [.], removes a file, and removes a
    directory with everything below it.  The directory itself stays when
    the path ends in [..] or names the root: its removal is refused after
    the contents are gone. *)
Definition RemoveAll (path : string) (w : World) : option error * World :=
  let w := log (CallRemoveAll path) w in
  if decide (path = "") then (None, w)
  else if decide (last_elem path = ".")
  then (Some (PathError "RemoveAll" path EINVAL), w)
  else
    match lookup_path w path with
    | inl ENOENT => (None, w)
    | inl e => (Some (PathError "unlinkat" path e), w)
    | inr (l, File _) => (None, set_fs w (delete l (fs w)))
    | inr (l, Dir) =>
        if decide (last_elem path = "..")
        then (Some (PathError "unlinkat" path ENOTEMPTY),
              set_fs w (filter (λ kn, ¬ below l kn.1 ∨ kn.1 = l) (fs w)))
        else if decide (l = [])
        then (Some (PathError "unlinkat" path EBUSY),
              set_fs w (filter (λ kn, ¬ below l kn.1 ∨ kn.1 = l) (fs w)))
        else (None, set_fs w (filter (λ kn, ¬ below l kn.1) (fs w)))
    end.

End os.

(** ** The JSON codec *)

(** [encoding/json] is outside the program.  [MarshalIndent v prefix indent]
    gives the bytes or an error; [Unmarshal data dst] stores into the
    destination [dst] and gives its new state and an error. *)
Class Codec (V : Type) := {
  MarshalIndent : V → string → string → bytes * option error;
  Unmarshal : bytes → V → V * option error
}.

Definition tab : string := String "009"%char "".
Definition newline : string := String "010"%char "".

(** ** The driver *)

(** The address of a [sync.Mutex]. *)
Abbreviation Mutex := nat (only parsing).

(** [Driver]: the lock registry and the root directory.  The guard
    [mutex] and the logger have no effect on what the methods return or
    store: calls are taken one at a time, so a lock is always free when it
    is asked for and is released on return. *)
Record Driver := mkDriver {
  mutexes : gmap string Mutex;
  dir : string
}.

(** The path names [Write] computes: the collection directory, the final
    path of a record and its temporary sibling. *)
Definition collection_dir (d : Driver) (collection : string) : string :=
  filepath.Join [dir d; collection].
Definition fnlPath (d : Driver) (collection resources : string) : string :=
  filepath.Join [collection_dir d collection; resources +:+ ".json"].
Definition tmpPath (d : Driver) (collection resources : string) : string :=
  fnlPath d collection resources +:+ ".tmp".

(** What [Delete] computes: the name it reports, and its target. *)
Definition delete_name (collection resources : string) : string :=
  filepath.Join [collection; resources].
Definition delete_path (d : Driver) (collection resources : string) : string :=
  filepath.Join [dir d; delete_name collection resources].

(** The path [Read] computes for a record, before the suffix. *)
Definition record_path (d : Driver) (collection resources : string) : string :=
  filepath.Join [dir d; collection; resources].

(** A path names an entry; a path names nothing, which is when [os.Stat]
    answers with an error that [os.IsNotExist] accepts. *)
Definition exists_at (w : World) (p : string) : Prop :=
  ∃ l n, os.lookup_path w p = inr (l, n).
Definition absent_at (w : World) (p : string) : Prop :=
  os.lookup_path w p = inl ENOENT.

(** Every entry of the file system has a location made of plain names. *)
Definition valid_fs (m : gmap (list string) node) : Prop :=
  map_Forall (λ k _, Forall plain k) m.

(** A world whose names are plain, those of the working directory
    included. *)
Definition valid_world (w : World) : Prop :=
  valid_fs (fs w) ∧ Forall plain (cwd w).

#[global] Instance valid_fs_dec m : Decision (valid_fs m).
Proof. unfold valid_fs. apply _. Defined.

#[global] Instance valid_world_dec w : Decision (valid_world w).
Proof. unfold valid_world. apply _. Defined.

(** The raw content of the entry [e] of the directory at [l]. *)
Definition content (m : gmap (list string) node) (l : list string)
    (e : os.DirEntry) : bytes :=
  match m !! (os.Name e :: l) with
  | Some (File data) => data
  | _ => ""
  end.

(** Go's [nil] slice of records. *)
Definition nil_records : list string := [].

Section driver.
Context {V : Type} `{Codec V}.

(** [New], without the choice of a logger and its debug messages. *)
Definition New (dir : string) (w : World) : (Driver * option error) * World :=
  let dir := filepath.Clean dir in
  let driver := {| dir := dir; mutexes := ∅ |} in
  let '((_, err), w) := os.Stat dir w in
  match err with
  | None => ((driver, None), w)
  | Some _ =>
      let '(err, w) := os.MkdirAll dir 493 w in
      ((driver, err), w)
  end.

(** [getOrCreateMutex]: the handle registered for the name, or a newly
    allocated one, which is registered. *)
Definition getOrCreateMutex (d : Driver) (collection : string) (w : World)
  : (Mutex * Driver) * World :=
  match mutexes d !! collection with
  | Some m => ((m, d), w)
  | None =>
      let m := allocated w in
      ((m, {| dir := dir d; mutexes := <[collection := m]> (mutexes d) |}),
       mkWorld (fs w) (cwd w) (calls w) (S (allocated w)))
  end.

(** [stat]: the path as given, and with [.json] when that does not
    exist. *)
Definition stat (path : string) (w : World)
  : (option os.FileInfo * option error) * World :=
  let '((fi, err), w) := os.Stat path w in
  if os.IsNotExist err then os.Stat (path +:+ ".json") w
  else ((fi, err), w).

(** [Write] gives its error and the driver, whose registry it may have
    extended. *)
Definition Write (d : Driver) (collection resources : string) (v : V)
    (w : World) : (option error * Driver) * World :=
  if decide (collection = "")
  then ((Some (ErrorString "missing collection - no place to save records"), d), w)
  else if decide (resources = "")
  then ((Some (ErrorString "missing resources - unable to save record (no name)"), d), w)
  else
    let '((mutex, d), w) := getOrCreateMutex d collection w in
    (* mutex.Lock(); defer mutex.Unlock() *)
    let dir := filepath.Join [dir d; collection] in
    let fnlPath := filepath.Join [dir; resources +:+ ".json"] in
    let tmpPath := fnlPath +:+ ".tmp" in
    let '(err, w) := os.MkdirAll dir 493 w in
    match err with
    | Some _ => ((err, d), w)
    | None =>
        let '(b, err) := MarshalIndent v "" tab in
        match err with
        | Some _ => ((err, d), w)
        | None =>
            let b := b +:+ newline in
            let '(err, w) := os.WriteFile tmpPath b 420 w in
            match err with
            | Some _ => ((err, d), w)
            | None =>
                let '(err, w) := os.Rename tmpPath fnlPath w in
                ((err, d), w)
            end
        end
    end.

(** [Read] gives the destination's new state with the error. *)
Definition Read (d : Driver) (collection resources : string) (v : V)
    (w : World) : (V * option error) * World :=
  if decide (collection = "")
  then ((v, Some (ErrorString "missing collection - no place to read record")), w)
  else if decide (resources = "")
  then ((v, Some (ErrorString "missing resources - no place to read record")), w)
  else
    let record := filepath.Join [dir d; collection; resources] in
    let '((_, err), w) := stat record w in
    match err with
    | Some _ => ((v, err), w)
    | None =>
        let '((b, err), w) := os.ReadFile (record +:+ ".json") w in
        match err with
        | Some _ => ((v, err), w)
        | None => (Unmarshal b v, w)
        end
    end.

(** What [Read] does once [stat] has found an entry: the last two
    statements of its body. *)
Definition read_json (json : string) (v : V) (w : World)
  : (V * option error) * World :=
  let '((b, err), w) := os.ReadFile json w in
  match err with
  | Some _ => ((v, err), w)
  | None => (Unmarshal b v, w)
  end.

(** The loop of [ReadAll] over the directory entries. *)
Fixpoint read_files (dir : string) (files : list os.DirEntry)
    (records : list string) (w : World)
  : (list string * option error) * World :=
  match files with
  | [] => ((records, None), w)
  | file :: rest =>
      let '((b, err), w) := os.ReadFile (filepath.Join [dir; os.Name file]) w in
      match err with
      | Some _ => ((nil_records, err), w)
      | None => read_files dir rest (records ++ [b]) w
      end
  end.

(** [ReadAll] gives the raw records, or no list and an error. *)
Definition ReadAll (d : Driver) (collection : string) (w : World)
  : (list string * option error) * World :=
  if decide (collection = "")
  then ((nil_records, Some (ErrorString "missing collection - no place to read records")), w)
  else
    let dir := filepath.Join [dir d; collection] in
    let '((_, err), w) := stat dir w in
    match err with
    | Some _ => ((nil_records, err), w)
    | None =>
        let '((files, err), w) := os.ReadDir dir w in
        match err with
        | Some _ => ((nil_records, err), w)
        | None => read_files dir files nil_records w
        end
    end.

(** [Delete]: the switch on the result of [stat]; an entry that is
    neither a directory nor a regular file falls through to [return nil]. *)
Definition Delete (d : Driver) (collection resources : string) (w : World)
  : (option error * Driver) * World :=
  let path := filepath.Join [collection; resources] in
  let '((mutex, d), w) := getOrCreateMutex d collection w in
  (* mutex.Lock(); defer mutex.Unlock() *)
  let dir := filepath.Join [dir d; path] in
  let '((fi, err), w) := stat dir w in
  match fi, err with
  | None, _ | _, Some _ =>
      ((Some (ErrorString ("unable to find file or directory named " +:+ path)), d), w)
  | Some fi, None =>
      if os.IsDir (os.Mode fi) then
        let '(err, w) := os.RemoveAll dir w in ((err, d), w)
      else if os.IsRegular (os.Mode fi) then
        let '(err, w) := os.RemoveAll (dir +:+ ".json") w in ((err, d), w)
      else ((None, d), w)
  end.

(** A call of one of the four methods, and a run of calls one after
    another on the same driver. *)
Inductive Op :=
  | OpWrite (collection resources : string) (v : V)
  | OpRead (collection resources : string) (v : V)
  | OpReadAll (collection : string)
  | OpDelete (collection resources : string).

Definition run_op (o : Op) (d : Driver) (w : World) : Driver * World :=
  match o with
  | OpWrite c r v => let '((_, d), w) := Write d c r v w in (d, w)
  | OpRead c r v => let '(_, w) := Read d c r v w in (d, w)
  | OpReadAll c => let '(_, w) := ReadAll d c w in (d, w)
  | OpDelete c r => let '((_, d), w) := Delete d c r w in (d, w)
  end.

Fixpoint run (ops : list Op) (d : Driver) (w : World) : Driver * World :=
  match ops with
  | [] => (d, w)
  | o :: rest => let '(d, w) := run_op o d w in run rest d w
  end.

End driver.

Arguments Op V : clear implicits.

(** ** A small codec and a small world, for concrete runs *)

(** Values: a string, or a channel, which [encoding/json] cannot encode. *)
Inductive value :=
  | Str (s : string)
  | Chan.

Definition quote : ascii := "034"%char.

(** The text up to the next quote, and what follows the quote. *)
Fixpoint until_quote (s : string) : option (string * string) :=
  match s with
  | EmptyString => None
  | String c s' =>
      if decide (c = quote) then Some ("", s')
      else match until_quote s' with
           | Some (x, r) => Some (String c x, r)
           | None => None
           end
  end.

Definition value_marshal (v : value) (prefix indent : string)
  : bytes * option error :=
  match v with
  | Str s => (String quote s +:+ String quote "", None)
  | Chan => ("", Some (JsonError "json: unsupported type: chan int"))
  end.

Definition value_unmarshal (data : bytes) (dst : value) : value * option error :=
  match data with
  | String c rest =>
      if decide (c = quote) then
        match until_quote rest with
        | Some (s, r) =>
            if decide (r = "" ∨ r = newline) then (Str s, None)
            else (dst, Some (JsonError "invalid character after top-level value"))
        | None => (dst, Some (JsonError "unexpected end of JSON input"))
        end
      else (dst, Some (JsonError "invalid character looking for beginning of value"))
  | EmptyString => (dst, Some (JsonError "unexpected end of JSON input"))
  end.

#[global] Instance value_codec : Codec value :=
  {| MarshalIndent := value_marshal; Unmarshal := value_unmarshal |}.

(** A process whose working directory [/home] is empty. *)
Definition w0 : World :=
  {| fs := <[ ["home"] := Dir ]> {[ [] := Dir ]};
     cwd := ["home"]; calls := []; allocated := 0 |}.

(** The same process after [New "db"]: the store directory [/home/db]
    exists, and [db] is the driver for it. *)
Definition w_db : World :=
  {| fs := <[ ["db"; "home"] := Dir ]> (fs w0);
     cwd := ["home"]; calls := []; allocated := 0 |}.

Definition db : Driver := {| mutexes := ∅; dir := "db" |}.

(** The bytes the small codec stores for a string. *)
Definition encoded (s : string) : bytes :=
  String quote s +:+ String quote "" +:+ newline.

(** The store after the records [John] and [Paul] were written to the
    collection [users]. *)
Definition w_users : World :=
  {| fs := <[ ["Paul.json"; "users"; "db"; "home"] := File (encoded "Paul") ]>
           (<[ ["John.json"; "users"; "db"; "home"] := File (encoded "John") ]>
           (<[ ["users"; "db"; "home"] := Dir ]> (fs w_db)));
     cwd := ["home"]; calls := []; allocated := 0 |}.

(** The store after a [Write] of the record [Paul] got as far as the
    temporary file and its [Rename] failed. *)
Definition w_stray : World :=
  {| fs := <[ ["Paul.json.tmp"; "users"; "db"; "home"] := File (encoded "Paul") ]>
           (<[ ["John.json"; "users"; "db"; "home"] := File (encoded "John") ]>
           (<[ ["users"; "db"; "home"] := Dir ]> (fs w_db)));
     cwd := ["home"]; calls := []; allocated := 0 |}.

(** The store where [db/users] is a regular file. *)
Definition w_file : World :=
  {| fs := <[ ["users"; "db"; "home"] := File "x" ]> (fs w_db);
     cwd := ["home"]; calls := []; allocated := 0 |}.

(** The store with the collections [users] and [users/admins]: the first
    holds the records [admins] and [John], the second the record [root]. *)
Definition w_nested : World :=
  {| fs := <[ ["root.json"; "admins"; "users"; "db"; "home"] := File (encoded "root") ]>
           (<[ ["admins"; "users"; "db"; "home"] := Dir ]>
           (<[ ["admins.json"; "users"; "db"; "home"] := File (encoded "admins") ]>
           (<[ ["John.json"; "users"; "db"; "home"] := File (encoded "John") ]>
           (<[ ["users"; "db"; "home"] := Dir ]> (fs w_db)))));
     cwd := ["home"]; calls := []; allocated := 0 |}.

(** A cleaned element stack: names on top of the [..] elements that a
    relative path starts with. *)
Fixpoint normal (rt : bool) (out : list string) : Prop :=
  match out with
  | [] => True
  | x :: out' =>
      if decide (x = "..") then rt = false ∧ Forall (λ y, y = "..") out'
      else plain x ∧ normal rt out'
  end.

(** The cleaned element stack of a path. *)
Definition elems_of (p : string) : list string :=
  filepath.clean_elems (rooted p) [] (split p).

(** The elements leading to the parent of the last element of a cleaned
    path. *)
Definition parent_elems (rt : bool) (out : list string) : list string :=
  (if rt then [""] else []) ++ rev out.

(** ** More worlds and notions, for the further properties *)

(** The store with the collection [users] holding a file [John] that has
    no [.json] suffix, and nothing else. *)
Definition w_bare : World :=
  {| fs := <[ ["John"; "users"; "db"; "home"] := File "x" ]>
           (<[ ["users"; "db"; "home"] := Dir ]> (fs w_db));
     cwd := ["home"]; calls := []; allocated := 0 |}.

(** The store with the collection [users] and no record in it. *)
Definition w_empty : World :=
  {| fs := <[ ["users"; "db"; "home"] := Dir ]> (fs w_db);
     cwd := ["home"]; calls := []; allocated := 0 |}.


(** The [os] calls that only look. *)
Definition reads (c : Call) : Prop :=
  match c with
  | CallStat _ | CallReadFile _ | CallReadDir _ => True
  | _ => False
  end.

(** A step from [w] to [w'] that only looks: the file system, the working
    directory and the allocated locks are the same, and the calls added to
    the trace only look. *)
Definition read_only_step (w w' : World) : Prop :=
  fs w' = fs w ∧ cwd w' = cwd w ∧ allocated w' = allocated w ∧
  ∃ cs, calls w' = calls w ++ cs ∧ Forall reads cs.

(** A lock registry in good order: every handle in it has been allocated,
    and no two names share a handle. *)
Definition registry_ok (d : Driver) (w : World) : Prop :=
  (∀ c m, mutexes d !! c = Some m → m < allocated w) ∧
  (∀ c1 c2 m, mutexes d !! c1 = Some m → mutexes d !! c2 = Some m → c1 = c2).

(** The file [Write] stores for a record: its name in the collection
    directory, and its content. *)
Definition stored {V : Type} `{Codec V} (rv : string * V) : string * bytes :=
  (rv.1 +:+ ".json", (MarshalIndent rv.2 "" tab).1 +:+ newline).

(** One [Write] to the collection for every record of a list, in order. *)
Definition writes {V : Type} (collection : string) (records : list (string * V))
  : list (Op V) :=
  (λ rv, OpWrite collection rv.1 rv.2) <$> records.

(** A collection while records are written to it, in a run that started
    in the world [wi]: the working directory is the same, every directory
    of [wi] is still one, the collection at [lc] is no file and is a
    directory once it holds something, and its entries are the files
    [files], which are names with contents. *)
Definition holds (wi : World) (lc : list string) (files : list (string * bytes))
    (w : World) : Prop :=
  cwd w = cwd wi ∧
  (∀ k, fs wi !! k = Some Dir → fs w !! k = Some Dir) ∧
  (∀ data, fs w !! lc ≠ Some (File data)) ∧
  (files ≠ [] → fs w !! lc = Some Dir) ∧
  (∀ name n, fs w !! (name :: lc) = Some n ↔
     ∃ data, (name, data) ∈ files ∧ n = File data).

(** ** The demonstration program *)

(** The records of [main].  [json.Number] is a string type.  The field
    [Addr] is the field [Address] of the source, which has the name of its
    type. *)
Record Address := mkAddress {
  City : string;
  State : string;
  Country : string;
  Pincode : string
}.

Record User := mkUser {
  Name : string;
  Age : string;
  Contact : string;
  Company : string;
  Addr : Address
}.

(** [User{}]. *)
Definition zero_user : User := mkUser "" "" "" "" (mkAddress "" "" "" "").

(** What [main] prints: a line for an error, the line of the raw records,
    and the line of the decoded users. *)
Inductive Output :=
  | PrintError (err : error)
  | PrintRecords (records : list string)
  | PrintUsers (users : list User).

Definition employees : list User :=
  [ mkUser "John" "23" "2324243424" "Murl Tech"
      (mkAddress "Banglore" "Karnataka" "India" "274372");
    mkUser "Paul" "23" "2324243424" "Murl Tech"
      (mkAddress "Banglore" "Karnataka" "India" "274372");
    mkUser "Mohan" "23" "2324243424" "Murl Tech"
      (mkAddress "Banglore" "Karnataka" "India" "274372");
    mkUser "James" "23" "2324243424" "Murl Tech"
      (mkAddress "Banglore" "Karnataka" "India" "274372");
    mkUser "Jerry" "23" "2324243424" "Murl Tech"
      (mkAddress "Banglore" "Karnataka" "India" "274372") ].

Section demo.
Context `{Codec User}.

(** The first loop of [main]: one [Write] for every employee; its result
    is not looked at. *)
Fixpoint write_all (db : Driver) (values : list User) (w : World)
  : Driver * World :=
  match values with
  | [] => (db, w)
  | value :: rest =>
      let '((_, db), w) :=
        Write db "users" (Name value)
          {| Name := Name value; Contact := Contact value; Age := Age value;
             Company := Company value; Addr := Addr value |} w in
      write_all db rest w
  end.

(** The second loop of [main]: every record is decoded into a new [User],
    which is appended whether or not decoding failed. *)
Fixpoint decode_all (records : list string) (allUsers : list User)
    (out : list Output) : list User * list Output :=
  match records with
  | [] => (allUsers, out)
  | f :: rest =>
      let '(employeesFound, err) := Unmarshal f zero_user in
      let out := match err with
                 | Some e => out ++ [PrintError e]
                 | None => out
                 end in
      decode_all rest (allUsers ++ [employeesFound]) out
  end.

(** [main], from the world it starts in to what it prints and the world
    it leaves. *)
Definition main (w : World) : list Output * World :=
  let dir := "./" in
  let '((db, err), w) := New dir w in
  let out := match err with
             | Some e => [PrintError e]
             | None => []
             end in
  let '(db, w) := write_all db employees w in
  let '((records, err), w) := ReadAll db "users" w in
  let out := match err with
             | Some e => out ++ [PrintError e]
             | None => out
             end in
  let out := out ++ [PrintRecords records] in
  let '(allUsers, out) := decode_all records [] out in
  (out ++ [PrintUsers allUsers], w).

End demo.

(** A codec for users, for concrete runs: the nine fields, each followed
    by a tab. *)
Fixpoint fields (s : string) : list string :=
  match s with
  | EmptyString => [""]
  | String c s' =>
      if decide (c = "009"%char) then "" :: fields s'
      else match fields s' with
           | x :: xs => String c x :: xs
           | [] => [String c ""]
           end
  end.

Definition user_marshal (u : User) (prefix indent : string) : bytes * option error :=
  (Name u +:+ tab +:+ Age u +:+ tab +:+ Contact u +:+ tab +:+ Company u +:+ tab +:+
   City (Addr u) +:+ tab +:+ State (Addr u) +:+ tab +:+ Country (Addr u) +:+ tab +:+
   Pincode (Addr u) +:+ tab, None).

Definition user_unmarshal (data : bytes) (dst : User) : User * option error :=
  match fields data with
  | [name; age; contact; company; city; state; country; pincode; _] =>
      (mkUser name age contact company (mkAddress city state country pincode), None)
  | _ => (dst, Some (JsonError "invalid character looking for beginning of value"))
  end.

Definition user_codec : Codec User :=
  {| MarshalIndent := user_marshal; Unmarshal := user_unmarshal |}.

(** * Properties *)

(** ** Splitting and joining *)

Lemma split_not_nil s : split s ≠ [].
Proof.
  destruct s as [|c s]; simpl; [done|].
  case_decide; [done|]. by destruct (split s).
Qed.

Lemma split_cons_sep s : split (String Separator s) = "" :: split s.
Proof. done. Qed.

Lemma split_app s t : split (s +:+ "/" +:+ t) = split s ++ split t.
Proof.
  induction s as [|c s IH]; simpl.
  - done.
  - rewrite IH. case_decide; [done|].
    pose proof (split_not_nil s). by destruct (split s).
Qed.

(** Appending text without separator extends the last element. *)
Lemma split_suffix s t :
  split t = [t] →
  split (s +:+ t) = removelast (split s) ++ [default "" (last (split s)) +:+ t].
Proof.
  intros Ht. induction s as [|c s IH]; simpl; [done|].
  rewrite IH. pose proof (split_not_nil s) as Hs.
  case_decide.
  - destruct (split s) as [|x xs]; [done|]. simpl.
    destruct xs; simpl; done.
  - destruct (split s) as [|x xs]; [done|]. simpl.
    destruct xs as [|x' xs]; simpl; [done|]. done.
Qed.

Lemma split_no_sep s : Forall (λ e, split e = [e]) (split s).
Proof.
  induction s as [|c s IH]; simpl; [by constructor|].
  case_decide.
  - by constructor.
  - destruct (split s) as [|x xs]; simpl.
    + constructor; [|done]. simpl. by rewrite decide_False.
    + inversion IH as [|?? Hx Hxs]; subst. constructor; [|done].
      simpl. rewrite decide_False by done. by rewrite Hx.
Qed.

Lemma string_app_cons c (a b : string) : String c a +:+ b = String c (a +:+ b).
Proof. done. Qed.

Lemma string_app_assoc (a b c : string) : (a +:+ b) +:+ c = a +:+ b +:+ c.
Proof.
  induction a as [|x a IH]; [done|]. by rewrite !string_app_cons, IH.
Qed.

Lemma string_app_nil_r (a : string) : a +:+ "" = a.
Proof. induction a as [|x a IH]; [done|]. by rewrite string_app_cons, IH. Qed.

Lemma join_cons x l : l ≠ [] → join (x :: l) = x +:+ "/" +:+ join l.
Proof. by destruct l. Qed.

Lemma join_snoc l x : l ≠ [] → join (l ++ [x]) = join l +:+ "/" +:+ x.
Proof.
  induction l as [|y l IH]; [done|]. intros _.
  destruct l as [|z l]; [done|].
  change ((y :: z :: l) ++ [x]) with (y :: ((z :: l) ++ [x])).
  rewrite join_cons by (by destruct l). rewrite IH by done.
  rewrite (join_cons y (z :: l)) by done.
  by rewrite !string_app_assoc.
Qed.

(** Text appended to a joined path lands in its last element. *)
Lemma join_snoc_suffix l x s : join (l ++ [x]) +:+ s = join (l ++ [x +:+ s]).
Proof.
  destruct l as [|y l]; [done|].
  rewrite !join_snoc by done. by rewrite !string_app_assoc.
Qed.

Lemma split_join l :
  Forall (λ e, split e = [e]) l → l ≠ [] → split (join l) = l.
Proof.
  induction 1 as [|x l Hx Hl IH]; [done|]. intros _.
  destruct l as [|y l]; [done|].
  rewrite join_cons by done. rewrite split_app, Hx, IH by done. done.
Qed.

Lemma plain_no_sep x : plain x → split x = [x].
Proof. by intros [? _]. Qed.

Lemma no_sep_not_rooted x s : split x = [x] → x ≠ "" → rooted (x +:+ s) = false.
Proof.
  destruct x as [|c x]; [done|]. intros Hx _. simpl in *.
  case_decide; [|by rewrite bool_decide_eq_false_2].
  discriminate.
Qed.

Lemma rooted_app p s : p ≠ "" → rooted (p +:+ s) = rooted p.
Proof. by destruct p. Qed.

(** Text appended to a plain element gives a plain element, if it has no
    separator. *)
Lemma plain_suffix x s : plain x → split s = [s] → s ≠ "" → s ≠ "." → plain (x +:+ s).
Proof.
  intros (Hx & Hne & Hd & Hdd) Hs Hs0 Hs1. split_and!.
  - rewrite split_suffix, Hx by done. done.
  - by destruct x.
  - destruct x as [|c [|c' x]]; [done| |by destruct s].
    simpl. destruct s; naive_solver.
  - destruct x as [|c [|c' [|c'' x]]]; simpl; [done| | |by destruct s].
    + destruct s as [|a [|b s]]; simpl; [done| |done]. intros [= -> ->]. done.
    + destruct s; [done|]. done.
Qed.

(** ** [Clean] and [Join] *)

Section clean.
Import filepath.

Lemma clean_elems_app rt out xs ys :
  clean_elems rt out (xs ++ ys) = clean_elems rt (clean_elems rt out xs) ys.
Proof.
  revert out. induction xs as [|x xs IH]; intros out; simpl; [done|].
  repeat case_decide; try done; destruct out; try destruct rt; try done;
    repeat case_decide; done.
Qed.

Lemma clean_elems_plain rt out x :
  plain x → clean_elems rt out [x] = x :: out.
Proof.
  intros (_ & ? & ? & ?). simpl. by rewrite !decide_False.
Qed.

Lemma normal_cons_plain rt out x : plain x → normal rt out → normal rt (x :: out).
Proof. intros Hx Hn. simpl. destruct Hx as (?&?&?&?). by rewrite decide_False. Qed.

Lemma normal_ups rt out : normal rt (".." :: out) → rt = false ∧ Forall (λ y, y = "..") out.
Proof. done. Qed.

Lemma normal_tail rt x out : normal rt (x :: out) → normal rt out.
Proof.
  simpl. case_decide; [|by intros [_ ?]]. intros [-> Hall].
  by destruct Hall as [|y l -> Hl].
Qed.

Lemma clean_elems_normal rt out elems :
  Forall (λ e, split e = [e]) elems → normal rt out →
  normal rt (clean_elems rt out elems).
Proof.
  intros Hel. revert out. induction Hel as [|e elems He _ IH]; intros out Hn; [done|].
  simpl. repeat case_decide; try by apply IH.
  - destruct out as [|x out]; [destruct rt|]; try (by apply IH).
    case_decide; subst.
    + apply IH. apply normal_ups in Hn as [-> Hall].
      split; [done|]. by constructor.
    + apply IH. by eapply normal_tail.
  - apply IH. by apply normal_cons_plain.
Qed.

Lemma normal_no_sep rt out : normal rt out → Forall (λ e, split e = [e]) out.
Proof.
  induction out as [|x out IH]; [by constructor|]. simpl.
  case_decide; subst.
  - intros [_ Hall]. constructor; [done|].
    eapply Forall_impl; [done|]. by intros ? ->.
  - intros [Hx Hn]. constructor; [by apply plain_no_sep | by apply IH].
Qed.

Lemma normal_not_empty rt out : normal rt out → Forall (λ e, e ≠ "") out.
Proof.
  induction out as [|x out IH]; [by constructor|]. simpl.
  case_decide; subst.
  - intros [_ Hall]. constructor; [done|].
    eapply Forall_impl; [done|]. by intros ? ->.
  - intros [Hx Hn]. constructor; [by destruct Hx as (?&?&?) | by apply IH].
Qed.

(** Cleaning the elements of a cleaned stack gives the stack back. *)
Lemma clean_elems_rev rt xs acc :
  normal rt (xs ++ acc) → clean_elems rt acc (rev xs) = xs ++ acc.
Proof.
  revert acc. induction xs as [|x xs IH] using rev_ind; intros acc Hn; [done|].
  rewrite rev_unit. rewrite <- app_assoc in Hn |- *. simpl in Hn |- *.
  assert (Hx : normal rt (x :: acc)).
  { clear -Hn. induction xs as [|y xs IH]; [done|].
    apply IH. by eapply normal_tail. }
  pose proof (normal_not_empty _ _ Hx) as Hne. inversion Hne; subst.
  rewrite decide_False by done.
  simpl in Hx. case_decide as Hdd.
  - subst. destruct Hx as [-> Hall]. simpl.
    destruct acc as [|a acc].
    + by apply IH.
    + inversion Hall; subst. simpl. by apply IH.
  - destruct Hx as [(?&?&?&?) _]. rewrite !decide_False by done. by apply IH.
Qed.

Lemma join_hd y l : ∃ s, join (y :: l) = y +:+ s.
Proof.
  destruct l as [|z l]; [exists ""; by rewrite string_app_nil_r|].
  eexists. by rewrite join_cons.
Qed.

Lemma rev_cons_not_nil {A} (x : A) l : rev (x :: l) ≠ [].
Proof. simpl. by destruct (rev l). Qed.

Lemma render_not_empty rt out : normal rt out → render rt out ≠ "".
Proof.
  intros Hn. unfold render. destruct rt; [done|].
  destruct out as [|x out]; [done|].
  apply normal_not_empty in Hn. apply Forall_rev in Hn.
  pose proof (rev_cons_not_nil x out).
  destruct (rev (x :: out)) as [|y l]; [done|].
  inversion Hn; subst. destruct (join_hd y l) as [s ->]. by destruct y.
Qed.

Lemma rooted_render rt out : normal rt out → rooted (render rt out) = rt.
Proof.
  intros Hn. unfold render. destruct rt; [done|].
  destruct out as [|x out]; [done|].
  pose proof (normal_not_empty _ _ Hn) as Hne. apply Forall_rev in Hne.
  pose proof (normal_no_sep _ _ Hn) as Hns. apply Forall_rev in Hns.
  pose proof (rev_cons_not_nil x out).
  destruct (rev (x :: out)) as [|y l]; [done|].
  inversion Hne; inversion Hns; subst. destruct (join_hd y l) as [s ->].
  by apply no_sep_not_rooted.
Qed.

(** The elements of a rendered stack, as [Clean] and the walk see them. *)
Lemma split_render rt out :
  normal rt out →
  split (render rt out) =
    if rt then "" :: (if out is [] then [""] else rev out)
    else if out is [] then ["."] else rev out.
Proof.
  intros Hn. unfold render.
  pose proof (normal_no_sep _ _ Hn) as Hns. apply Forall_rev in Hns.
  destruct rt.
  - change ("/" +:+ join (rev out)) with (String Separator (join (rev out))).
    rewrite split_cons_sep. destruct out as [|x out]; [done|].
    rewrite split_join; [done..|]. simpl. by destruct (rev out).
  - destruct out as [|x out]; [done|].
    rewrite split_join; [done..|]. simpl. by destruct (rev out).
Qed.

Lemma clean_elems_render rt out :
  normal rt out → clean_elems rt [] (split (render rt out)) = out.
Proof.
  intros Hn. rewrite split_render by done.
  pose proof (clean_elems_rev rt out []) as Hrev.
  rewrite app_nil_r in Hrev.
  destruct rt; destruct out as [|x out]; try done; by apply Hrev.
Qed.

Lemma elems_of_normal p : normal (rooted p) (elems_of p).
Proof. apply clean_elems_normal; [apply split_no_sep | done]. Qed.

Lemma Clean_render p : p ≠ "" → Clean p = render (rooted p) (elems_of p).
Proof. intros. unfold Clean. by rewrite decide_False. Qed.

Lemma Clean_not_empty p : Clean p ≠ "".
Proof.
  unfold Clean. case_decide; [done|].
  apply render_not_empty, elems_of_normal.
Qed.

Lemma rooted_Clean p : p ≠ "" → rooted (Clean p) = rooted p.
Proof.
  intros. rewrite Clean_render by done. apply rooted_render, elems_of_normal.
Qed.

Lemma elems_of_Clean p : p ≠ "" → elems_of (Clean p) = elems_of p.
Proof.
  intros. unfold elems_of at 1. rewrite rooted_Clean by done.
  rewrite Clean_render by done. apply clean_elems_render, elems_of_normal.
Qed.

(** [Clean] is idempotent. *)
Lemma Clean_idemp p : Clean (Clean p) = Clean p.
Proof.
  destruct (decide (p = "")) as [->|Hp]; [done|].
  rewrite (Clean_render (Clean p)) by apply Clean_not_empty.
  by rewrite rooted_Clean, elems_of_Clean, <- Clean_render.
Qed.

(** A plain element after a path is pushed on its cleaned stack. *)
Lemma elems_of_snoc p x :
  p ≠ "" → plain x → elems_of (p +:+ "/" +:+ x) = x :: elems_of p.
Proof.
  intros Hp Hx. unfold elems_of.
  rewrite rooted_app, split_app, clean_elems_app by done.
  rewrite (plain_no_sep x) by done. by apply clean_elems_plain.
Qed.

Lemma Clean_snoc p x :
  p ≠ "" → plain x →
  Clean (p +:+ "/" +:+ x) = render (rooted p) (x :: elems_of p).
Proof.
  intros Hp Hx. rewrite Clean_render by (by destruct p).
  by rewrite rooted_app, elems_of_snoc.
Qed.

Lemma plain_not_rooted x : plain x → rooted x = false.
Proof.
  intros (Hs & Hne & _). rewrite <- (string_app_nil_r x).
  by apply no_sep_not_rooted.
Qed.

Lemma elems_of_plain x : plain x → elems_of x = [x].
Proof.
  intros Hx. unfold elems_of.
  rewrite plain_not_rooted, (plain_no_sep x) by done.
  by apply clean_elems_plain.
Qed.

Lemma Clean_plain x : plain x → Clean x = x.
Proof.
  intros Hx. rewrite Clean_render by (by destruct Hx as (?&?&?)).
  by rewrite plain_not_rooted, elems_of_plain.
Qed.

Lemma Join_one_plain d x :
  d ≠ "" → plain x → Join [d; x] = render (rooted d) (x :: elems_of d).
Proof.
  intros Hd Hx. simpl. rewrite decide_False by done. by apply Clean_snoc.
Qed.

Lemma render_suffix rt out x s :
  render rt (x :: out) +:+ s = render rt ((x +:+ s) :: out).
Proof.
  unfold render. simpl rev. destruct rt.
  - by rewrite string_app_assoc, join_snoc_suffix.
  - by rewrite join_snoc_suffix.
Qed.

(** Text appended to a joined path whose last element is plain. *)
Lemma Join_suffix d x s :
  plain x → plain (x +:+ s) → Join [d; x] +:+ s = Join [d; x +:+ s].
Proof.
  intros Hx Hxs. destruct (decide (d = "")) as [->|Hd].
  - simpl. rewrite !decide_False by (by destruct Hx as (?&?&?), Hxs as (?&?&?)).
    by rewrite !Clean_plain.
  - rewrite !Join_one_plain by done. apply render_suffix.
Qed.

Lemma Join_cons_ne e rest : e ≠ "" → Join (e :: rest) = Clean (join (e :: rest)).
Proof. intros. simpl. by rewrite decide_False. Qed.

Lemma Join_cons_empty rest : Join ("" :: rest) = Join rest.
Proof. done. Qed.

Lemma app_not_empty (a b : string) : a ≠ "" → a +:+ b ≠ "".
Proof. by destruct a. Qed.

(** Joining in two steps. *)
Lemma Join_assoc_plain r c x :
  plain x → Join [r; c; x] = Join [Join [r; c]; x].
Proof.
  intros Hx. pose proof Hx as (_ & Hne & _).
  assert (Hstep : ∀ p, p ≠ "" →
    Clean (p +:+ "/" +:+ x) = Clean (Clean p +:+ "/" +:+ x)).
  { intros p Hp. rewrite !Clean_snoc by (done || apply Clean_not_empty).
    by rewrite rooted_Clean, elems_of_Clean. }
  destruct (decide (r = "")) as [->|Hr].
  - rewrite !Join_cons_empty.
    destruct (decide (c = "")) as [->|Hc]; [done|].
    rewrite (Join_cons_ne c [x]), (Join_cons_ne c []) by done.
    rewrite Join_cons_ne by apply Clean_not_empty.
    by apply Hstep.
  - rewrite (Join_cons_ne r [c; x]), (Join_cons_ne r [c]) by done.
    rewrite Join_cons_ne by apply Clean_not_empty.
    change (join [r; c; x]) with (r +:+ "/" +:+ c +:+ "/" +:+ x).
    change (join [r; c]) with (r +:+ "/" +:+ c).
    change (join [Clean (r +:+ "/" +:+ c); x])
      with (Clean (r +:+ "/" +:+ c) +:+ "/" +:+ x).
    rewrite <- Hstep by (by apply app_not_empty).
    by rewrite !string_app_assoc.
Qed.

Lemma Join_two_plain a b : plain a → plain b → Join [a; b] = a +:+ "/" +:+ b.
Proof.
  intros Ha Hb. rewrite Join_one_plain by (done || by destruct Ha as (?&?&?)).
  by rewrite plain_not_rooted, elems_of_plain.
Qed.

Lemma Join_plain_empty a : plain a → Join [a; ""] = a.
Proof.
  intros Ha. pose proof Ha as (Hs & Hne & ? & ?). simpl.
  rewrite decide_False by done. rewrite Clean_render by (by destruct a).
  unfold elems_of. rewrite rooted_app by done.
  rewrite split_app, Hs, plain_not_rooted by done.
  simpl. by rewrite !decide_False.
Qed.

(** Every path the driver makes for a record file has a plain last
    element under a cleaned directory. *)
Lemma split_last_elem p : split p = removelast (split p) ++ [last_elem p].
Proof.
  unfold last_elem. pose proof (split_not_nil p) as Hp.
  destruct (split p) as [|x l] using rev_ind; [done|].
  by rewrite removelast_last, last_snoc.
Qed.

Lemma last_elem_no_sep p : split (last_elem p) = [last_elem p].
Proof.
  pose proof (split_no_sep p) as Hall. rewrite split_last_elem in Hall.
  apply Forall_app in Hall as [_ Hl]. by inversion Hl.
Qed.

Lemma Clean_last p ys y :
  split p = ys ++ [y] → plain y →
  Clean p = render (rooted p) (y :: clean_elems (rooted p) [] ys)
  ∧ normal (rooted p) (clean_elems (rooted p) [] ys).
Proof.
  intros Hsp Hy. split.
  - rewrite Clean_render
      by (intros ->; destruct ys as [|?[|??]]; simplify_eq/=;
          by destruct Hy as (?&?&?)).
    unfold elems_of. rewrite Hsp, clean_elems_app. by rewrite clean_elems_plain.
  - apply clean_elems_normal; [|done].
    pose proof (split_no_sep p) as Hall. rewrite Hsp in Hall.
    by apply Forall_app in Hall as [? _].
Qed.

Lemma Join_record_shape d q s :
  split s = [s] → String.length s ≥ 3 →
  ∃ rt out, normal rt out ∧ plain (last_elem q +:+ s) ∧
    Join [d; q +:+ s] = render rt ((last_elem q +:+ s) :: out).
Proof.
  intros Hs Hlen.
  assert (Hy : plain (last_elem q +:+ s)).
  { split_and!.
    - rewrite split_suffix, last_elem_no_sep by done. done.
    - destruct s; [simpl in *; lia|]. by destruct (last_elem q).
    - destruct s as [|?[|?[|??]]]; simpl in *; try lia.
      by destruct (last_elem q) as [|?[|??]].
    - destruct s as [|?[|?[|??]]]; simpl in *; try lia.
      by destruct (last_elem q) as [|?[|?[|??]]]. }
  assert (Hq : split (q +:+ s) = removelast (split q) ++ [last_elem q +:+ s]).
  { by rewrite split_suffix. }
  destruct (decide (d = "")) as [->|Hd].
  - simpl. rewrite decide_False by (destruct s; [simpl in *; lia|by destruct q]).
    destruct (Clean_last _ _ _ Hq Hy) as [-> Hn]. eauto.
  - simpl. rewrite decide_False by done.
    assert (Hdq : split (d +:+ "/" +:+ q +:+ s) =
              (split d ++ removelast (split q)) ++ [last_elem q +:+ s]).
    { by rewrite split_app, Hq, app_assoc. }
    destruct (Clean_last _ _ _ Hdq Hy) as [-> Hn]. eauto.
Qed.

Lemma join_split s : join (split s) = s.
Proof.
  induction s as [|c s IH]; [done|]. simpl. case_decide as Hc.
  - rewrite join_cons by apply split_not_nil. rewrite IH. by subst.
  - pose proof (split_not_nil s) as Hs.
    destruct (split s) as [|x [|y xs]]; [done| |].
    + simpl in *. by rewrite IH.
    + rewrite join_cons in IH |- * by done. rewrite <- IH.
      by rewrite string_app_cons.
Qed.

Lemma clean_elems_plains rt out xs :
  Forall plain xs → clean_elems rt out xs = rev xs ++ out.
Proof.
  intros Hxs. revert out. induction Hxs as [|x xs Hx _ IH]; intros out; [done|].
  change (x :: xs) with ([x] ++ xs).
  rewrite clean_elems_app, clean_elems_plain, IH by done.
  simpl. by rewrite <- app_assoc.
Qed.

Lemma elems_of_app p x :
  p ≠ "" →
  elems_of (p +:+ "/" +:+ x) = clean_elems (rooted p) (elems_of p) (split x).
Proof.
  intros Hp. unfold elems_of. by rewrite rooted_app, split_app, clean_elems_app.
Qed.

Lemma Clean_app p x :
  p ≠ "" →
  Clean (p +:+ "/" +:+ x)
    = render (rooted p) (clean_elems (rooted p) (elems_of p) (split x)).
Proof.
  intros Hp. rewrite Clean_render by (by apply app_not_empty).
  by rewrite rooted_app, elems_of_app.
Qed.

(** Joining in two steps, whatever the last element. *)
Lemma Join_assoc r c x : Join [r; c; x] = Join [Join [r; c]; x].
Proof.
  assert (Hstep : ∀ p, p ≠ "" →
    Clean (p +:+ "/" +:+ x) = Clean (Clean p +:+ "/" +:+ x)).
  { intros p Hp. rewrite !Clean_app by (done || apply Clean_not_empty).
    by rewrite rooted_Clean, elems_of_Clean. }
  destruct (decide (r = "")) as [->|Hr].
  - rewrite !Join_cons_empty.
    destruct (decide (c = "")) as [->|Hc]; [done|].
    rewrite (Join_cons_ne c [x]), (Join_cons_ne c []) by done.
    rewrite Join_cons_ne by apply Clean_not_empty.
    by apply Hstep.
  - rewrite (Join_cons_ne r [c; x]), (Join_cons_ne r [c]) by done.
    rewrite Join_cons_ne by apply Clean_not_empty.
    change (join [r; c; x]) with (r +:+ "/" +:+ c +:+ "/" +:+ x).
    change (join [r; c]) with (r +:+ "/" +:+ c).
    change (join [Clean (r +:+ "/" +:+ c); x])
      with (Clean (r +:+ "/" +:+ c) +:+ "/" +:+ x).
    rewrite <- Hstep by (by apply app_not_empty).
    by rewrite !string_app_assoc.
Qed.

Lemma last_elem_not_empty q : last_elem q ≠ "" → q ≠ "".
Proof. by intros Hq ->. Qed.

(** A path joined to a directory, when its last element is plain: the
    shape of the result, also with text appended to the path. *)
Lemma Join_last_shape d q :
  plain (last_elem q) →
  ∃ rt out, normal rt out ∧
    ∀ s, split s = [s] → plain (last_elem q +:+ s) →
      Join [d; q +:+ s] = render rt ((last_elem q +:+ s) :: out).
Proof.
  intros Hy. pose proof Hy as (_ & Hy0 & _).
  pose proof (last_elem_not_empty q Hy0) as Hq.
  assert (Hqs : ∀ s, split s = [s] →
            split (q +:+ s) = removelast (split q) ++ [last_elem q +:+ s]).
  { intros s Hs. by rewrite split_suffix. }
  destruct (decide (d = "")) as [->|Hd].
  - exists (rooted q), (clean_elems (rooted q) [] (removelast (split q))).
    split.
    + apply clean_elems_normal; [|done].
      pose proof (split_no_sep q) as Hall. rewrite split_last_elem in Hall.
      by apply Forall_app in Hall as [? _].
    + intros s Hs Hys. rewrite Join_cons_empty.
      rewrite Join_cons_ne by (by apply app_not_empty).
      destruct (Clean_last _ _ _ (Hqs s Hs) Hys) as [Hcl _].
      change (join [q +:+ s]) with (q +:+ s). rewrite Hcl.
      by rewrite rooted_app.
  - exists (rooted d),
      (clean_elems (rooted d) [] (split d ++ removelast (split q))).
    split.
    + apply clean_elems_normal; [|done]. apply Forall_app. split.
      * apply split_no_sep.
      * pose proof (split_no_sep q) as Hall. rewrite split_last_elem in Hall.
        by apply Forall_app in Hall as [? _].
    + intros s Hs Hys. rewrite Join_cons_ne by done.
      change (join [d; q +:+ s]) with (d +:+ "/" +:+ q +:+ s).
      assert (Hdq : split (d +:+ "/" +:+ q +:+ s) =
                (split d ++ removelast (split q)) ++ [last_elem q +:+ s]).
      { by rewrite split_app, Hqs, app_assoc. }
      destruct (Clean_last _ _ _ Hdq Hys) as [Hcl _]. rewrite Hcl.
      by rewrite rooted_app.
Qed.

Lemma no_sep_empty : split "" = [""].
Proof. done. Qed.

(** Text appended to a joined path lands in the path that was joined. *)
Lemma Join_suffix_last d q s :
  plain (last_elem q) → split s = [s] → plain (last_elem q +:+ s) →
  Join [d; q] +:+ s = Join [d; q +:+ s].
Proof.
  intros Hy Hs Hys.
  destruct (Join_last_shape d q Hy) as (rt & out & _ & Hshape).
  rewrite (Hshape s) by done.
  pose proof (Hshape "" no_sep_empty) as H0.
  rewrite !string_app_nil_r in H0. rewrite H0 by done.
  apply render_suffix.
Qed.


Lemma plain_plain_path x : plain x → plain_path x.
Proof.
  intros Hx. unfold plain_path. rewrite (plain_no_sep x) by done.
  by constructor.
Qed.

Lemma plain_path_last c : plain_path c → plain (last_elem c).
Proof.
  unfold plain_path. rewrite split_last_elem. intros Hall.
  apply Forall_app in Hall as [_ Hl]. by inversion Hl.
Qed.

Lemma plain_path_not_rooted c : plain_path c → rooted c = false.
Proof.
  unfold plain_path. intros Hall. pose proof (split_not_nil c) as Hc.
  destruct (split c) as [|x xs] eqn:Hsp; [done|].
  inversion Hall as [|?? (Hx & Hx0 & _) _]; subst.
  rewrite <- (join_split c), Hsp. destruct (join_hd x xs) as [t ->].
  by apply no_sep_not_rooted.
Qed.

Lemma Clean_plain_path c : plain_path c → Clean c = c.
Proof.
  intros Hc. pose proof (plain_path_last c Hc) as (_ & Hy & _).
  rewrite Clean_render by (by apply last_elem_not_empty).
  unfold elems_of. rewrite plain_path_not_rooted by done.
  rewrite clean_elems_plains, app_nil_r by done.
  unfold render. pose proof (split_not_nil c) as Hne.
  destruct (rev (split c)) as [|x xs] eqn:Hrev.
  - apply (f_equal (@rev string)) in Hrev. rewrite rev_involutive in Hrev. done.
  - rewrite <- Hrev, rev_involutive. apply join_split.
Qed.


Lemma plain_path_join a b :
  plain_path a → plain_path b → plain_path (a +:+ "/" +:+ b).
Proof.
  unfold plain_path. intros Ha Hb. rewrite split_app. by apply Forall_app.
Qed.

Lemma Join_two_plain_path a b :
  plain_path a → plain_path b → Join [a; b] = a +:+ "/" +:+ b.
Proof.
  intros Ha Hb. pose proof (plain_path_last a Ha) as (_ & Hy & _).
  rewrite Join_cons_ne by (by apply last_elem_not_empty).
  change (join [a; b]) with (a +:+ "/" +:+ b).
  apply Clean_plain_path. by apply plain_path_join.
Qed.

End clean.

(** From here on [Join] and [Clean] are used through the lemmas above. *)
Arguments filepath.Clean : simpl never.
Arguments filepath.Join : simpl never.

(** ** Path resolution *)

Section resolution.
Import filepath.

Lemma walk_app m cur xs ys :
  os.walk m cur (xs ++ ys) =
    match os.walk m cur xs with
    | inl e => inl e
    | inr c => os.walk m c ys
    end.
Proof.
  revert cur. induction xs as [|x xs IH]; intros cur; simpl; [done|].
  destruct (os.step m cur x); [done|]. apply IH.
Qed.

(** A walk through directories that stay directories gives the same
    location. *)
Lemma walk_mono m m' cur elems l :
  (∀ k, m !! k = Some Dir → m' !! k = Some Dir) →
  os.walk m cur elems = inr l → os.walk m' cur elems = inr l.
Proof.
  intros Hdir. revert cur. induction elems as [|e elems IH]; intros cur; simpl; [done|].
  unfold os.step. destruct (m !! cur) as [[|]|] eqn:Hcur; try done.
  rewrite (Hdir _ Hcur). apply IH.
Qed.

Lemma move_plain cur y : plain y → os.move cur y = y :: cur.
Proof. intros (_&?&?&?). unfold os.move. by rewrite !decide_False. Qed.

Lemma split_render_child rt out y :
  normal rt out → plain y →
  split (render rt (y :: out)) = parent_elems rt out ++ [y].
Proof.
  intros Hn Hy. rewrite split_render by (by apply normal_cons_plain).
  unfold parent_elems. by destruct rt.
Qed.

Lemma start_render w rt out :
  normal rt out → os.start w (render rt out) = if rt then [] else cwd w.
Proof. intros. unfold os.start. by rewrite rooted_render. Qed.

(** Resolving a cleaned path with a plain last element: walk to the
    parent, which must be a directory, and name the child. *)
Lemma resolve_child w rt out y :
  normal rt out → plain y →
  os.resolve w (render rt (y :: out)) =
    match os.walk (fs w) (if rt then [] else cwd w) (parent_elems rt out) with
    | inl e => inl e
    | inr cur =>
        match fs w !! cur with
        | Some Dir => inr (y :: cur)
        | Some (File _) => inl ENOTDIR
        | None => inl ENOENT
        end
    end.
Proof.
  intros Hn Hy. unfold os.resolve.
  rewrite decide_False by (by apply render_not_empty, normal_cons_plain).
  rewrite start_render by (by apply normal_cons_plain).
  rewrite split_render_child, walk_app by done.
  destruct (os.walk _ _ (parent_elems rt out)) as [|cur]; [done|].
  simpl. unfold os.step. destruct (fs w !! cur) as [[|]|]; try done.
  by rewrite move_plain.
Qed.

Lemma resolve_child_inv w rt out y l :
  normal rt out → plain y →
  os.resolve w (render rt (y :: out)) = inr l →
  ∃ cur, l = y :: cur ∧ fs w !! cur = Some Dir ∧
    os.walk (fs w) (if rt then [] else cwd w) (parent_elems rt out) = inr cur.
Proof.
  intros Hn Hy. rewrite resolve_child by done.
  destruct (os.walk _ _ _) as [|cur]; [done|].
  destruct (fs w !! cur) as [[|]|] eqn:?; try done.
  intros [= <-]. eauto.
Qed.

(** Two children of one directory resolve together. *)
Lemma resolve_sibling w rt out y z l :
  normal rt out → plain y → plain z →
  os.resolve w (render rt (y :: out)) = inr l →
  os.resolve w (render rt (z :: out)) = inr (z :: tail l).
Proof.
  intros Hn Hy Hz Hres.
  apply resolve_child_inv in Hres as (cur & -> & Hcur & Hwalk); [|done..].
  rewrite resolve_child by done. by rewrite Hwalk, Hcur.
Qed.

Lemma resolve_mono w w' p l :
  cwd w' = cwd w →
  (∀ k, fs w !! k = Some Dir → fs w' !! k = Some Dir) →
  os.resolve w p = inr l → os.resolve w' p = inr l.
Proof.
  intros Hcwd Hdir. unfold os.resolve, os.start. rewrite Hcwd.
  case_decide; [done|]. by apply walk_mono.
Qed.

End resolution.

(** ** The [os] calls *)

(** Logging a call changes neither the file system nor the working
    directory. *)
Ltac unlog :=
  repeat match goal with
    | |- context [fs (log ?c ?w)] => change (fs (log c w)) with (fs w)
    | |- context [cwd (log ?c ?w)] => change (cwd (log c w)) with (cwd w)
    | |- context [os.start (log ?c ?w) ?p] =>
        change (os.start (log c w) p) with (os.start w p)
    | |- context [os.resolve (log ?c ?w) ?p] =>
        change (os.resolve (log c w) p) with (os.resolve w p)
    | |- context [os.lookup_path (log ?c ?w) ?p] =>
        change (os.lookup_path (log c w) p) with (os.lookup_path w p)
    end.

Section os_calls.

Lemma lookup_path_log c w p : os.lookup_path (log c w) p = os.lookup_path w p.
Proof. done. Qed.

Lemma lookup_path_inv w p l n :
  os.lookup_path w p = inr (l, n) ↔ os.resolve w p = inr l ∧ fs w !! l = Some n.
Proof.
  unfold os.lookup_path. destruct (os.resolve w p) as [e|l'].
  - split; [done|]. by intros [[=] _].
  - destruct (fs w !! l') as [n'|] eqn:Hl.
    + split; [by intros [= <- <-]|]. intros [[= <-] Hn]. rewrite Hl in Hn.
      by injection Hn as ->.
    + split; [done|]. intros [[= <-] Hn]. by rewrite Hl in Hn.
Qed.

Lemma Stat_world name w : (os.Stat name w).2 = log (CallStat name) w.
Proof.
  unfold os.Stat. rewrite lookup_path_log.
  by destruct (os.lookup_path w name) as [|[??]].
Qed.

Lemma Stat_ok name w l n :
  os.lookup_path w name = inr (l, n) →
  os.Stat name w = ((Some (os.info_of n), None), log (CallStat name) w).
Proof. intros Hl. unfold os.Stat. by rewrite lookup_path_log, Hl. Qed.

Lemma Stat_err name w e :
  os.lookup_path w name = inl e →
  os.Stat name w = ((None, Some (PathError "stat" name e)), log (CallStat name) w).
Proof. intros Hl. unfold os.Stat. by rewrite lookup_path_log, Hl. Qed.

Lemma ReadFile_world name w : (os.ReadFile name w).2 = log (CallReadFile name) w.
Proof.
  unfold os.ReadFile. rewrite lookup_path_log.
  by destruct (os.lookup_path w name) as [|[?[|]]].
Qed.

Lemma ReadFile_ok name w l data :
  os.lookup_path w name = inr (l, File data) →
  os.ReadFile name w = ((data, None), log (CallReadFile name) w).
Proof. intros Hl. unfold os.ReadFile. by rewrite lookup_path_log, Hl. Qed.

(** A successful [WriteFile] stores the data at the location the name
    resolves to, which was not a directory. *)
Lemma WriteFile_ok name data perm w w' :
  os.WriteFile name data perm w = (None, w') →
  ∃ l, os.resolve w name = inr l ∧ fs w !! l ≠ Some Dir ∧
    w' = set_fs (log (CallWriteFile name data perm) w) (<[l := File data]> (fs w)).
Proof.
  unfold os.WriteFile.
  change (os.resolve (log _ w) name) with (os.resolve w name).
  destruct (os.resolve w name) as [e|l]; [done|].
  change (fs (log (CallWriteFile name data perm) w)) with (fs w).
  destruct (fs w !! l) as [[|]|] eqn:Hl; intros [= <-]; exists l; by rewrite ?Hl.
Qed.

(** A successful [Rename] of a file stores it at the new location, which
    was not a directory, and removes the old entry. *)
Lemma Rename_file_ok old new w w' lo data :
  os.lookup_path w old = inr (lo, File data) →
  os.Rename old new w = (None, w') →
  ∃ ln, os.resolve w new = inr ln ∧ fs w !! ln ≠ Some Dir ∧
    w' = set_fs (log (CallRename old new) w)
           (<[ln := File data]> (delete lo (fs w))).
Proof.
  intros Hold. unfold os.Rename. rewrite lookup_path_log, Hold.
  change (os.resolve (log _ w) new) with (os.resolve w new).
  destruct (os.resolve w new) as [e|ln]; [done|].
  change (fs (log (CallRename old new) w)) with (fs w).
  destruct (fs w !! ln) as [[|]|] eqn:Hl; intros [= <-]; exists ln; by rewrite ?Hl.
Qed.

(** [mkdir_walk] only adds directories. *)
Lemma mkdir_walk_adds m cur elems m' r k :
  os.mkdir_walk m cur elems = (m', r) →
  m' !! k = m !! k ∨ (m !! k = None ∧ m' !! k = Some Dir).
Proof.
  revert m cur. induction elems as [|e elems IH]; intros m cur; simpl.
  - intros [= <- <-]. by left.
  - destruct (m !! os.move cur e) as [[|]|] eqn:Hm.
    + intros [= <- <-]. by left.
    + apply IH.
    + case_decide as Hc; [|intros [= <- <-]; by left].
      intros Hw. apply IH in Hw as [Hw|[Hw1 Hw2]].
      * destruct (decide (os.move cur e = k)) as [<-|Hne].
        -- right. by rewrite Hw, lookup_insert_eq.
        -- left. by rewrite Hw, lookup_insert_ne.
      * destruct (decide (os.move cur e = k)) as [<-|Hne].
        -- by rewrite lookup_insert_eq in Hw1.
        -- right. by rewrite lookup_insert_ne in Hw1.
Qed.

Lemma MkdirAll_world path perm w :
  cwd (os.MkdirAll path perm w).2 = cwd w ∧
  calls (os.MkdirAll path perm w).2 = calls w ++ [CallMkdirAll path perm] ∧
  allocated (os.MkdirAll path perm w).2 = allocated w.
Proof.
  unfold os.MkdirAll. case_decide; [done|]. unlog.
  destruct (fs w !! os.start w path) as [[|]|]; try done.
  by destruct (os.mkdir_walk (fs w) (os.start w path) (split path)) as [? [|]].
Qed.

(** [MkdirAll] creates directories and touches nothing else. *)
Lemma MkdirAll_adds path perm w k :
  fs (os.MkdirAll path perm w).2 !! k = fs w !! k
  ∨ (fs w !! k = None ∧ fs (os.MkdirAll path perm w).2 !! k = Some Dir).
Proof.
  unfold os.MkdirAll. case_decide; [by left|]. unlog.
  destruct (fs w !! os.start w path) as [[|]|]; try (by left).
  destruct (os.mkdir_walk (fs w) (os.start w path) (split path)) as [m' r] eqn:Hw.
  apply (mkdir_walk_adds _ _ _ _ _ k) in Hw. by destruct r.
Qed.

End os_calls.

(** ** The driver *)

Lemma getOrCreateMutex_world d c w :
  fs (getOrCreateMutex d c w).2 = fs w ∧
  cwd (getOrCreateMutex d c w).2 = cwd w ∧
  calls (getOrCreateMutex d c w).2 = calls w ∧
  dir (getOrCreateMutex d c w).1.2 = dir d.
Proof. unfold getOrCreateMutex. by destruct (mutexes d !! c). Qed.

Lemma resolve_ext w w' p :
  fs w = fs w' → cwd w = cwd w' → os.resolve w p = os.resolve w' p.
Proof. intros Hfs Hcwd. unfold os.resolve, os.start. by rewrite Hfs, Hcwd. Qed.

Lemma lookup_path_ext w w' p :
  fs w = fs w' → cwd w = cwd w' → os.lookup_path w p = os.lookup_path w' p.
Proof.
  intros Hfs Hcwd. unfold os.lookup_path.
  by rewrite (resolve_ext w w'), Hfs.
Qed.

Section write.
Context {V : Type} `{Codec V}.

(** The steps of a [Write] that returns [nil]. *)
Lemma Write_ok_inv d collection resources v w d' w' :
  Write d collection resources v w = ((None, d'), w') →
  collection ≠ "" ∧ resources ≠ "" ∧
  ∃ w1 w2 b w3,
    (getOrCreateMutex d collection w).2 = w1 ∧
    (getOrCreateMutex d collection w).1.2 = d' ∧
    os.MkdirAll (collection_dir d collection) 493 w1 = (None, w2) ∧
    MarshalIndent v "" tab = (b, None) ∧
    os.WriteFile (tmpPath d collection resources) (b +:+ newline) 420 w2
      = (None, w3) ∧
    os.Rename (tmpPath d collection resources) (fnlPath d collection resources) w3
      = (None, w').
Proof.
  unfold Write, tmpPath, fnlPath, collection_dir.
  case_decide; [done|]. case_decide; [done|].
  pose proof (getOrCreateMutex_world d collection w) as (_ & _ & _ & Hdir).
  destruct (getOrCreateMutex d collection w) as [[m d1] w1]. simpl in Hdir.
  rewrite Hdir.
  destruct (os.MkdirAll _ 493 w1) as [[e|] w2] eqn:Hmk; [done|].
  destruct (MarshalIndent v "" tab) as [b [e|]] eqn:Hjs; [done|].
  destruct (os.WriteFile _ (b +:+ newline) 420 w2) as [[e|] w3] eqn:Hwr; [done|].
  destruct (os.Rename _ _ w3) as [e w4] eqn:Hren.
  intros ?; simplify_eq. split_and!; [done..|].
  by exists w1, w2, b, w3.
Qed.

Lemma string_app_ne (y s : string) : s ≠ "" → y +:+ s ≠ y.
Proof.
  intros Hs. induction y as [|c y IH]; [done|].
  rewrite string_app_cons. by intros [= ?].
Qed.

(** The final and the temporary path name two different children of one
    directory. *)
Lemma record_paths_shape d collection resources :
  ∃ rt out y, normal rt out ∧ plain y ∧ plain (y +:+ ".tmp") ∧
    fnlPath d collection resources = filepath.render rt (y :: out) ∧
    tmpPath d collection resources = filepath.render rt ((y +:+ ".tmp") :: out).
Proof.
  unfold tmpPath, fnlPath.
  destruct (Join_record_shape (collection_dir d collection) resources ".json")
    as (rt & out & Hn & Hy & ->); [done|simpl; lia|].
  exists rt, out, (last_elem resources +:+ ".json").
  split_and!; [done|done| |done|by rewrite render_suffix].
  by apply plain_suffix.
Qed.

(** What a [Write] that returns [nil] has done, in terms of the entries
    its paths name. *)
Lemma Write_ok_effect d collection resources v w d' w' :
  Write d collection resources v w = ((None, d'), w') →
  ∃ b lf,
    MarshalIndent v "" tab = (b, None) ∧
    calls w' = calls w ++
      [CallMkdirAll (collection_dir d collection) 493;
       CallWriteFile (tmpPath d collection resources) (b +:+ newline) 420;
       CallRename (tmpPath d collection resources) (fnlPath d collection resources)] ∧
    os.lookup_path w' (fnlPath d collection resources)
      = inr (lf, File (b +:+ newline)) ∧
    absent_at w' (tmpPath d collection resources).
Proof.
  intros Hw. apply Write_ok_inv in Hw
    as (_ & _ & w1 & w2 & b & w3 & Hw1 & _ & Hmk & Hjs & Hwr & Hren).
  destruct (record_paths_shape d collection resources)
    as (rt & out & y & Hn & Hy & Hyt & Hfnl & Htmp).
  pose proof (getOrCreateMutex_world d collection w) as (_ & _ & Hc1 & _).
  rewrite Hw1 in Hc1.
  pose proof (MkdirAll_world (collection_dir d collection) 493 w1) as (_ & Hc2 & _).
  rewrite Hmk in Hc2. simpl in Hc2.
  apply WriteFile_ok in Hwr as (lt & Hrt & Hlt & ->).
  set (data := b +:+ newline) in *.
  set (w3 := set_fs _ _) in Hren.
  assert (Hrt3 : os.resolve w3 (tmpPath d collection resources) = inr lt).
  { apply (resolve_mono w2); [done| |done]. intros k Hk. subst w3. simpl.
    rewrite lookup_insert_ne; [done|]. by intros ->. }
  assert (Hlt3 : fs w3 !! lt = Some (File data)).
  { subst w3. simpl. by rewrite lookup_insert_eq. }
  eapply Rename_file_ok in Hren as (lf & Hrf & Hlf & ->);
    [|by apply lookup_path_inv].
  set (w4 := set_fs _ _).
  assert (Hdirs : ∀ k, fs w3 !! k = Some Dir → fs w4 !! k = Some Dir).
  { intros k Hk. subst w4. simpl.
    rewrite lookup_insert_ne by (by intros ->).
    rewrite lookup_delete_ne; [done|]. intros ->. by rewrite Hlt3 in Hk. }
  assert (Hne : lt ≠ lf).
  { rewrite Htmp in Hrt3. rewrite Hfnl in Hrf.
    apply resolve_child_inv in Hrt3 as (c1 & -> & _); [|done..].
    apply resolve_child_inv in Hrf as (c2 & -> & _); [|done..].
    intros [= Hy' _]. by apply string_app_ne in Hy'. }
  exists b, lf. split_and!.
  - done.
  - subst w4 w3. simpl. rewrite Hc2, Hc1. by rewrite <- !app_assoc.
  - apply lookup_path_inv. split.
    + by apply (resolve_mono w3).
    + subst w4. simpl. by rewrite lookup_insert_eq.
  - unfold absent_at, os.lookup_path.
    rewrite (resolve_mono w3 w4 _ lt) by done.
    subst w4. simpl. rewrite lookup_insert_ne by done.
    by rewrite lookup_delete_eq.
Qed.

(** ** C3: the write path *)

(** C3.  A [Write] that returns [nil] has serialized the value, made
    exactly three [os] calls in this order: [MkdirAll] on the collection
    directory, [WriteFile] of the serialization followed by a newline to
    the temporary path [<final>.tmp], and one [Rename] of the temporary
    path onto the final path.  Afterwards the final path reads back as
    exactly those bytes and nothing exists at the temporary path. *)
Theorem Write_ok_file d collection resources v w d' w' :
  Write d collection resources v w = ((None, d'), w') →
  ∃ b,
    MarshalIndent v "" tab = (b, None) ∧
    calls w' = calls w ++
      [CallMkdirAll (collection_dir d collection) 493;
       CallWriteFile (tmpPath d collection resources) (b +:+ newline) 420;
       CallRename (tmpPath d collection resources) (fnlPath d collection resources)] ∧
    (os.ReadFile (fnlPath d collection resources) w').1 = (b +:+ newline, None) ∧
    (os.Stat (tmpPath d collection resources) w').1
      = (None, Some (PathError "stat" (tmpPath d collection resources) ENOENT)).
Proof.
  intros Hw.
  destruct (Write_ok_effect _ _ _ _ _ _ _ Hw) as (b & lf & Hjs & Hcalls & Hfnl & Htmp).
  exists b. split_and!; [done..| |].
  - by erewrite ReadFile_ok.
  - by erewrite Stat_err.
Qed.

End write.

(** ** [stat]: the bare path, then the path with [.json] *)

Lemma stat_spec path w :
  stat path w =
    match os.lookup_path w path with
    | inr (_, n) => ((Some (os.info_of n), None), log (CallStat path) w)
    | inl ENOENT =>
        let w1 := log (CallStat (path +:+ ".json")) (log (CallStat path) w) in
        match os.lookup_path w (path +:+ ".json") with
        | inr (_, n) => ((Some (os.info_of n), None), w1)
        | inl e => ((None, Some (PathError "stat" (path +:+ ".json") e)), w1)
        end
    | inl e => ((None, Some (PathError "stat" path e)), log (CallStat path) w)
    end.
Proof.
  unfold stat, os.Stat. unlog.
  destruct (os.lookup_path w path) as [e|[l n]]; [|done].
  by destruct e.
Qed.

Lemma stat_world path w :
  fs (stat path w).2 = fs w ∧ cwd (stat path w).2 = cwd w.
Proof.
  rewrite stat_spec.
  destruct (os.lookup_path w path) as [e|[l n]]; [|done].
  destruct e; try done.
  by destruct (os.lookup_path w (path +:+ ".json")) as [e|[l n]].
Qed.

(** [stat] answers with an entry or with an error, never with both or
    neither. *)
Lemma stat_result path w :
  (∃ fi, (stat path w).1 = (Some fi, None)) ∨
  (∃ e, (stat path w).1 = (None, Some e)).
Proof.
  rewrite stat_spec.
  destruct (os.lookup_path w path) as [e|[l n]]; [|by eauto].
  destruct e; try (by eauto).
  destruct (os.lookup_path w (path +:+ ".json")) as [e|[l n]]; by eauto.
Qed.

Lemma ReadFile_ext name w w' :
  fs w = fs w' → cwd w = cwd w' → (os.ReadFile name w).1 = (os.ReadFile name w').1.
Proof.
  intros Hfs Hcwd. unfold os.ReadFile. unlog.
  rewrite (lookup_path_ext w w') by done.
  by destruct (os.lookup_path w' name) as [|[?[|]]].
Qed.

Section read.
Context {V : Type} `{Codec V}.



Lemma read_json_result json v w w0 :
  fs w = fs w0 → cwd w = cwd w0 →
  match (os.ReadFile json w0).1 with
  | (data, None) => (read_json json v w).1 = Unmarshal data v
  | (_, Some e) => (read_json json v w).1 = (v, Some e)
  end.
Proof.
  intros Hfs Hcwd. rewrite <- (ReadFile_ext json w w0) by done.
  unfold read_json. by destruct (os.ReadFile json w) as [[b [e|]] w1].
Qed.

Lemma Read_spec d collection resources v w :
  collection ≠ "" → resources ≠ "" →
  let record := record_path d collection resources in
  let json := record +:+ ".json" in
  Read d collection resources v w =
    match os.lookup_path w record with
    | inr _ => read_json json v (log (CallStat record) w)
    | inl ENOENT =>
        let w1 := log (CallStat json) (log (CallStat record) w) in
        match os.lookup_path w json with
        | inr _ => read_json json v w1
        | inl e => ((v, Some (PathError "stat" json e)), w1)
        end
    | inl e => ((v, Some (PathError "stat" record e)), log (CallStat record) w)
    end.
Proof.
  intros Hc Hr record json. unfold Read.
  rewrite !decide_False by done. fold (record_path d collection resources).
  fold record. rewrite stat_spec. fold json. unfold read_json.
  destruct (os.lookup_path w record) as [e|[l n]]; [|done].
  destruct e; try done.
  by destruct (os.lookup_path w json) as [e|[l n]].
Qed.

(** ** C5: how [Read] finds and decodes a record *)


End read.

Lemma ReadFile_ok_inv name w data :
  (os.ReadFile name w).1 = (data, None) →
  ∃ l, os.lookup_path w name = inr (l, File data).
Proof.
  unfold os.ReadFile. unlog.
  destruct (os.lookup_path w name) as [|[l [b|]]]; try done.
  simpl. intros [= ->]. by exists l.
Qed.

Lemma collection_dir_not_empty d collection :
  collection ≠ "" → collection_dir d collection ≠ "".
Proof.
  intros Hc. unfold collection_dir.
  destruct (decide (dir d = "")) as [->|Hd].
  - rewrite Join_cons_empty, Join_cons_ne by done. apply Clean_not_empty.
  - rewrite Join_cons_ne by done. apply Clean_not_empty.
Qed.

(** For a plain record name [Read] and [Write] agree on the file. *)
Lemma record_path_json d collection resources :
  plain (last_elem resources) →
  record_path d collection resources +:+ ".json" = fnlPath d collection resources.
Proof.
  intros Hr. unfold record_path, fnlPath, collection_dir.
  rewrite Join_assoc. apply Join_suffix_last; [done..|].
  by apply plain_suffix.
Qed.

(** The bare path and the file of a record are two children of one
    directory, when the last element of the record name is plain. *)
Lemma record_shape d collection resources :
  plain (last_elem resources) →
  ∃ rt out y, normal rt out ∧ plain y ∧ plain (y +:+ ".json") ∧
    record_path d collection resources = filepath.render rt (y :: out) ∧
    fnlPath d collection resources = filepath.render rt ((y +:+ ".json") :: out).
Proof.
  intros Hr.
  destruct (Join_last_shape (collection_dir d collection) resources Hr)
    as (rt & out & Hn & Hshape).
  assert (Hj : plain (last_elem resources +:+ ".json")) by (by apply plain_suffix).
  exists rt, out, (last_elem resources). split_and!; [done..| |].
  - unfold record_path. rewrite Join_assoc. fold (collection_dir d collection).
    pose proof (Hshape "" no_sep_empty) as H0.
    rewrite !string_app_nil_r in H0. by apply H0.
  - unfold fnlPath. by apply Hshape.
Qed.

(** Next to an entry that resolves, a plain name either exists or does
    not; its lookup fails in no other way. *)
Lemma lookup_sibling w rt out y z l :
  normal rt out → plain y → plain z →
  os.resolve w (filepath.render rt (y :: out)) = inr l →
  absent_at w (filepath.render rt (z :: out)) ∨
  exists_at w (filepath.render rt (z :: out)).
Proof.
  intros Hn Hy Hz Hres. unfold absent_at, exists_at, os.lookup_path.
  rewrite (resolve_sibling w rt out y z l) by done.
  destruct (fs w !! (z :: tail l)); eauto.
Qed.

Section roundtrip.
Context {V : Type} `{Codec V}.

Lemma Write_dir d collection resources v w e d' w' :
  Write d collection resources v w = ((e, d'), w') → dir d' = dir d.
Proof.
  unfold Write. repeat case_decide; try (by intros [= _ <- _]).
  pose proof (getOrCreateMutex_world d collection w) as (_ & _ & _ & Hdir).
  destruct (getOrCreateMutex d collection w) as [[m d1] w1]. simpl in Hdir.
  destruct (os.MkdirAll _ 493 w1) as [[?|] w2]; [by intros [= _ <- _]|].
  destruct (MarshalIndent v "" tab) as [b [?|]]; [by intros [= _ <- _]|].
  destruct (os.WriteFile _ _ 420 w2) as [[?|] w3]; [by intros [= _ <- _]|].
  destruct (os.Rename _ _ w3) as [? w4]. by intros [= _ <- _].
Qed.

(** [Read] of a name whose file exists decodes that file, when the last
    element of the name is plain. *)
Lemma Read_existing d collection resources dst w l data :
  collection ≠ "" → plain (last_elem resources) →
  os.lookup_path w (fnlPath d collection resources) = inr (l, File data) →
  (Read d collection resources dst w).1 = Unmarshal data dst.
Proof.
  intros Hc Hr Hl.
  assert (Hr0 : resources ≠ "").
  { apply last_elem_not_empty. by destruct Hr as (_ & ? & _). }
  rewrite Read_spec by done. cbv zeta. rewrite record_path_json by done.
  assert (Hfound : ∀ w1, fs w1 = fs w → cwd w1 = cwd w →
    (read_json (fnlPath d collection resources) dst w1).1 = Unmarshal data dst).
  { intros w1 Hfs Hcwd.
    pose proof (read_json_result (fnlPath d collection resources) dst w1 w Hfs Hcwd) as Hrj.
    by rewrite (ReadFile_ok _ _ _ _ Hl) in Hrj. }
  assert (Hsib : absent_at w (record_path d collection resources) ∨
                 exists_at w (record_path d collection resources)).
  { destruct (record_shape d collection resources Hr)
      as (rt & out & y & Hn & Hy & Hyj & -> & Hfnl).
    apply lookup_path_inv in Hl as [Hres _]. rewrite Hfnl in Hres.
    by eapply lookup_sibling. }
  destruct Hsib as [Habs|(l' & n' & Hex)].
  - rewrite Habs, Hl. by apply Hfound.
  - rewrite Hex. by apply Hfound.
Qed.


(** ** C1: write then read *)


End roundtrip.

(** ** Concrete runs *)

(** Closed goals about concrete runs are settled by evaluation. *)
Ltac by_compute :=
  first
    [ solve [vm_compute; split_and?; first [reflexivity | discriminate | done]]
    | apply (bool_decide_unpack _); vm_compute; exact I ].

Example New_db :
  (New "db" w0).1.2 = None ∧ dir (New "db" w0).1.1 = dir db ∧
  map_to_list (fs (New "db" w0).2) = map_to_list (fs w_db).
Proof. by_compute. Qed.



Lemma Write_ok_file_witness :
  ∃ b,
    MarshalIndent (Str "John") "" tab = (b, None) ∧
    calls (Write db "users" "John" (Str "John") w_db).2 = calls w_db ++
      [CallMkdirAll (collection_dir db "users") 493;
       CallWriteFile (tmpPath db "users" "John") (b +:+ newline) 420;
       CallRename (tmpPath db "users" "John") (fnlPath db "users" "John")] ∧
    (os.ReadFile (fnlPath db "users" "John")
       (Write db "users" "John" (Str "John") w_db).2).1 = (b +:+ newline, None) ∧
    (os.Stat (tmpPath db "users" "John")
       (Write db "users" "John" (Str "John") w_db).2).1
      = (None, Some (PathError "stat" (tmpPath db "users" "John") ENOENT)).
Proof.
  apply (Write_ok_file db "users" "John" (Str "John") w_db
           (Write db "users" "John" (Str "John") w_db).1.2).
  vm_compute. reflexivity.
Defined.


Example Read_John : (Read db "users" "John" Chan w_users).1 = (Str "John", None).
Proof. by_compute. Qed.

Example writes_make_w_users :
  map_to_list
    (fs (Write (Write db "users" "John" (Str "John") w_db).1.2 "users" "Paul" (Str "Paul")
           (Write db "users" "John" (Str "John") w_db).2).2)
  = map_to_list (fs w_users).
Proof. by_compute. Qed.

Example writes_make_w_nested :
  let o1 := Write db "users/admins" "root" (Str "root") w_db in
  let o2 := Write o1.1.2 "users" "admins" (Str "admins") o1.2 in
  let o3 := Write o2.1.2 "users" "John" (Str "John") o2.2 in
  o1.1.1 = None ∧ o2.1.1 = None ∧ o3.1.1 = None ∧
  map_to_list (fs o3.2) = map_to_list (fs w_nested).
Proof. by_compute. Qed.

(** ** C2: validation of the names *)

Section validation.
Context {V : Type} `{Codec V}.

(** [Write] with an empty collection or record name returns its
    validation error and leaves the driver and the world, trace of [os]
    calls included, as they were. *)
Lemma Write_validation d collection resources v w :
  collection = "" ∨ resources = "" →
  ∃ msg, Write d collection resources v w = ((Some (ErrorString msg), d), w).
Proof.
  intros Hempty. unfold Write. case_decide; [by eexists|].
  case_decide; [by eexists|]. by destruct Hempty.
Qed.

Lemma Read_validation d collection resources v w :
  collection = "" ∨ resources = "" →
  ∃ msg, Read d collection resources v w = ((v, Some (ErrorString msg)), w).
Proof.
  intros Hempty. unfold Read. case_decide; [by eexists|].
  case_decide; [by eexists|]. by destruct Hempty.
Qed.

Lemma ReadAll_validation d w :
  ReadAll d "" w =
    ((nil_records, Some (ErrorString "missing collection - no place to read records")), w).
Proof. done. Qed.

End validation.

(** C2, the failing input.  [Delete] does not look at its arguments before
    it acts: with an empty collection and an empty record name it
    registers a lock for the empty name, stats the store directory itself,
    and removes it with every collection in it. *)
Theorem Delete_empty_collection :
  let out := Delete db "" "" w_users in
  out.1.1 = None ∧
  calls out.2 = [CallStat "db"; CallRemoveAll "db"] ∧
  mutexes out.1.2 !! "" = Some 0 ∧
  (os.Stat "db/users/John.json" w_users).1.2 = None ∧
  (os.Stat "db" out.2).1 = (None, Some (PathError "stat" "db" ENOENT)).
Proof. by_compute. Qed.

(** With an empty collection and a record name [Delete] looks the name up
    in the store directory: two [os] calls, and the not-found error
    instead of a validation error. *)
Example Delete_empty_collection_name :
  let out := Delete db "" "John" w_users in
  out.1.1 = Some (ErrorString "unable to find file or directory named John") ∧
  calls out.2 = [CallStat "db/John"; CallStat "db/John.json"].
Proof. by_compute. Qed.

(** ** C4: a value that cannot be serialized *)

Section marshal_error.
Context {V : Type} `{Codec V}.

(** C4, amended.  For non-empty names, when the serialization of the value
    fails, [Write] returns an error: the one of [MkdirAll] when creating
    the collection directory fails, the serialization error otherwise.
    Its only [os] call is that [MkdirAll], so no file is created or
    modified, and the file system differs from before at most by
    directories that [MkdirAll] created. *)
Theorem Write_marshal_error d collection resources v w b e :
  collection ≠ "" → resources ≠ "" →
  MarshalIndent v "" tab = (b, Some e) →
  let out := Write d collection resources v w in
  let mk := os.MkdirAll (collection_dir d collection) 493 (getOrCreateMutex d collection w).2 in
  out.1.1 = (if mk.1 is Some _ then mk.1 else Some e) ∧
  calls out.2 = calls w ++ [CallMkdirAll (collection_dir d collection) 493] ∧
  (∀ k data, fs out.2 !! k = Some (File data) ↔ fs w !! k = Some (File data)) ∧
  (∀ k, fs out.2 !! k = fs w !! k ∨ (fs w !! k = None ∧ fs out.2 !! k = Some Dir)).
Proof.
  intros Hc Hr Hjs out mk. subst out mk. unfold Write.
  rewrite !decide_False by done.
  pose proof (getOrCreateMutex_world d collection w) as (Hfs & _ & Hcalls & Hdir).
  destruct (getOrCreateMutex d collection w) as [[m d1] w1].
  cbn [fst snd] in *. rewrite Hdir. fold (collection_dir d collection).
  set (cdir := collection_dir d collection).
  pose proof (MkdirAll_world cdir 493 w1) as (_ & Hc2 & _).
  assert (Hadds : ∀ k, fs (os.MkdirAll cdir 493 w1).2 !! k = fs w !! k
                       ∨ (fs w !! k = None ∧
                          fs (os.MkdirAll cdir 493 w1).2 !! k = Some Dir)).
  { intros k. rewrite <- Hfs. apply MkdirAll_adds. }
  destruct (os.MkdirAll cdir 493 w1) as [err w2].
  cbn [fst snd] in *. rewrite Hjs.
  assert (Hfiles : ∀ k data, fs w2 !! k = Some (File data) ↔ fs w !! k = Some (File data)).
  { intros k data. destruct (Hadds k) as [->|[Hn Hd]]; [done|].
    rewrite Hn, Hd. naive_solver. }
  destruct err; simpl; by rewrite Hc2, Hcalls.
Qed.

End marshal_error.

Lemma Write_marshal_error_witness :
  let out := Write db "users" "John" Chan w_db in
  let mk := os.MkdirAll (collection_dir db "users") 493 (getOrCreateMutex db "users" w_db).2 in
  out.1.1 = (if mk.1 is Some _ then mk.1
             else Some (JsonError "json: unsupported type: chan int")) ∧
  calls out.2 = calls w_db ++ [CallMkdirAll (collection_dir db "users") 493] ∧
  (∀ k data, fs out.2 !! k = Some (File data) ↔ fs w_db !! k = Some (File data)) ∧
  (∀ k, fs out.2 !! k = fs w_db !! k ∨ (fs w_db !! k = None ∧ fs out.2 !! k = Some Dir)).
Proof.
  apply (Write_marshal_error db "users" "John" Chan w_db ""); done.
Defined.

(** C4 as stated fails: when the collection is new, a [Write] whose value
    cannot be serialized has already created the collection directory. *)
Lemma Write_marshal_error_creates_dir :
  let out := Write db "users" "John" Chan w_db in
  out.1.1 = Some (JsonError "json: unsupported type: chan int") ∧
  (os.Stat "db/users" w_db).1 = (None, Some (PathError "stat" "db/users" ENOENT)) ∧
  (os.Stat "db/users" out.2).1 = (Some (os.info_of Dir), None) ∧
  fs w_db !! ["users"; "db"; "home"] = None ∧
  fs out.2 !! ["users"; "db"; "home"] = Some Dir.
Proof. by_compute. Qed.

(** ** C8: the not-found error of [Delete] *)

(** The target of [Delete], as it joins it. *)
Lemma Delete_spec d collection resources w :
  let path := delete_name collection resources in
  let target := delete_path d collection resources in
  let g := getOrCreateMutex d collection w in
  Delete d collection resources w =
    match (stat target g.2).1 with
    | (None, _) | (_, Some _) =>
        ((Some (ErrorString ("unable to find file or directory named " +:+ path)),
          g.1.2), (stat target g.2).2)
    | (Some fi, None) =>
        if os.IsDir (os.Mode fi) then
          (((os.RemoveAll target (stat target g.2).2).1, g.1.2),
           (os.RemoveAll target (stat target g.2).2).2)
        else if os.IsRegular (os.Mode fi) then
          (((os.RemoveAll (target +:+ ".json") (stat target g.2).2).1, g.1.2),
           (os.RemoveAll (target +:+ ".json") (stat target g.2).2).2)
        else ((None, g.1.2), (stat target g.2).2)
    end.
Proof.
  intros path target g. subst path target g.
  unfold Delete, delete_path, delete_name.
  pose proof (getOrCreateMutex_world d collection w) as (_ & _ & _ & Hdir).
  destruct (getOrCreateMutex d collection w) as [[m d1] w1]. simpl in *.
  rewrite Hdir.
  destruct (stat _ w1) as [[[fi|] [e|]] w2]; simpl; try done.
  destruct (os.IsDir (os.Mode fi)).
  - by destruct (os.RemoveAll _ w2).
  - destruct (os.IsRegular (os.Mode fi)); [|done].
    by destruct (os.RemoveAll _ w2).
Qed.

(** [RemoveAll] never answers with an [fmt.Errorf] error. *)
Lemma RemoveAll_error path w msg :
  (os.RemoveAll path w).1 ≠ Some (ErrorString msg).
Proof.
  unfold os.RemoveAll. cbv zeta. unlog.
  destruct (decide (path = "")); [done|].
  destruct (decide (last_elem path = ".")); [done|].
  destruct (os.lookup_path w path) as [[]|[l [|]]]; try done.
  destruct (decide (last_elem path = "..")); [done|].
  by destruct (decide (l = [])).
Qed.

(** C8, amended.  [Delete] returns its not-found error exactly when the
    stat of the target, bare path first and [.json] path second, gives
    no entry.  That is the case when the target exists under neither form,
    and it is also the case when the stat fails for any other reason: the
    error of the file system is then dropped, not passed through. *)
Theorem Delete_not_found d collection resources w :
  let path := delete_name collection resources in
  let target := delete_path d collection resources in
  let not_found := Some (ErrorString ("unable to find file or directory named " +:+ path)) in
  ((Delete d collection resources w).1.1 = not_found
     ↔ ∃ e, (stat target (getOrCreateMutex d collection w).2).1 = (None, Some e)) ∧
  (absent_at w target → absent_at w (target +:+ ".json") →
     (Delete d collection resources w).1.1 = not_found) ∧
  (∀ e, os.lookup_path w target = inl e → e ≠ ENOENT →
     (stat target (getOrCreateMutex d collection w).2).1
       = (None, Some (PathError "stat" target e)) ∧
     (Delete d collection resources w).1.1 = not_found).
Proof.
  intros path target not_found.
  pose proof (getOrCreateMutex_world d collection w) as (Hfs & Hcwd & _ & _).
  assert (Hlk : ∀ p, os.lookup_path (getOrCreateMutex d collection w).2 p
                     = os.lookup_path w p).
  { intros p. by apply lookup_path_ext. }
  assert (Hiff : (Delete d collection resources w).1.1 = not_found
     ↔ ∃ e, (stat target (getOrCreateMutex d collection w).2).1 = (None, Some e)).
  { rewrite Delete_spec. cbv zeta. fold target path.
    destruct (stat_result target (getOrCreateMutex d collection w).2)
      as [[fi Hst]|[e Hst]]; rewrite Hst.
    - split; [|by intros [? [=]]].
      destruct (os.IsDir (os.Mode fi)); simpl.
      { intros Hrm. by apply RemoveAll_error in Hrm. }
      destruct (os.IsRegular (os.Mode fi)); simpl; [|done].
      intros Hrm. by apply RemoveAll_error in Hrm.
    - split; [by eauto|done]. }
  split_and!; [done| |].
  - intros Ha Hj. apply Hiff. rewrite stat_spec, !Hlk.
    unfold absent_at in *. rewrite Ha, Hj. by eexists.
  - intros e He Hne.
    assert (Hst : (stat target (getOrCreateMutex d collection w).2).1
                  = (None, Some (PathError "stat" target e))).
    { rewrite stat_spec, !Hlk, He. by destruct e. }
    split; [done|]. apply Hiff. by eexists.
Qed.

(** C8 as stated fails: when [db/users] is a regular file, the stat of
    [db/users/John] fails with [ENOTDIR], which [os.IsNotExist] does not
    accept, and [Delete] still answers with its not-found error instead of
    that error. *)
Lemma Delete_stat_error_dropped :
  let out := Delete db "users" "John" w_file in
  (stat "db/users/John" w_file).1
    = (None, Some (PathError "stat" "db/users/John" ENOTDIR)) ∧
  os.IsNotExist (Some (PathError "stat" "db/users/John" ENOTDIR)) = false ∧
  calls out.2 = [CallStat "db/users/John"] ∧
  out.1.1 = Some (ErrorString "unable to find file or directory named users/John") ∧
  out.1.1 ≠ Some (PathError "stat" "db/users/John" ENOTDIR).
Proof. by_compute. Qed.

(** ** C9: the lock registry *)

Lemma getOrCreateMutex_subseteq d collection w :
  mutexes d ⊆ mutexes (getOrCreateMutex d collection w).1.2.
Proof.
  unfold getOrCreateMutex. destruct (mutexes d !! collection) eqn:Hm; [done|].
  simpl. by apply insert_subseteq.
Qed.

(** A name that has a handle gets that handle, and the driver is left as
    it is. *)
Lemma getOrCreateMutex_registered d collection w m :
  mutexes d !! collection = Some m →
  getOrCreateMutex d collection w = ((m, d), w).
Proof. intros Hm. unfold getOrCreateMutex. by rewrite Hm. Qed.

(** A name without a handle gets a new one, which is then registered. *)
Lemma getOrCreateMutex_fresh d collection w :
  mutexes d !! collection = None →
  (getOrCreateMutex d collection w).1.1 = allocated w ∧
  mutexes (getOrCreateMutex d collection w).1.2 !! collection = Some (allocated w) ∧
  allocated (getOrCreateMutex d collection w).2 = S (allocated w).
Proof.
  intros Hm. unfold getOrCreateMutex. rewrite Hm. simpl.
  by rewrite lookup_insert_eq.
Qed.

Section registry.
Context {V : Type} `{Codec V}.

Lemma Write_registry d collection resources v w :
  mutexes d ⊆ mutexes (Write d collection resources v w).1.2.
Proof.
  unfold Write. repeat case_decide; try done.
  pose proof (getOrCreateMutex_subseteq d collection w) as Hsub.
  destruct (getOrCreateMutex d collection w) as [[m d1] w1]. simpl in Hsub.
  destruct (os.MkdirAll _ 493 w1) as [[?|] w2]; [done|].
  destruct (MarshalIndent v "" tab) as [b [?|]]; [done|].
  destruct (os.WriteFile _ _ 420 w2) as [[?|] w3]; [done|].
  by destruct (os.Rename _ _ w3) as [? w4].
Qed.

Lemma Delete_registry d collection resources w :
  mutexes d ⊆ mutexes (Delete d collection resources w).1.2.
Proof.
  rewrite Delete_spec. cbv zeta.
  pose proof (getOrCreateMutex_subseteq d collection w) as Hsub.
  destruct (stat _ _).1 as [[fi|] [e|]]; try done.
  destruct (os.IsDir (os.Mode fi)); [done|].
  by destruct (os.IsRegular (os.Mode fi)).
Qed.

Lemma run_op_registry (o : Op V) d w : mutexes d ⊆ mutexes (run_op o d w).1.
Proof.
  destruct o as [c r v|c r v|c|c r]; simpl.
  - pose proof (Write_registry d c r v w).
    by destruct (Write d c r v w) as [[? ?] ?].
  - by destruct (Read d c r v w).
  - by destruct (ReadAll d c w).
  - pose proof (Delete_registry d c r w).
    by destruct (Delete d c r w) as [[? ?] ?].
Qed.

(** C9.  Over every run of driver calls, deletions of whole collections
    included, the lock registry only grows: every entry it had is still
    there with the same handle, so a later acquisition for that name
    returns that handle and changes nothing. *)
Theorem registry_only_grows (ops : list (Op V)) d w :
  mutexes d ⊆ mutexes (run ops d w).1 ∧
  ∀ collection m, mutexes d !! collection = Some m →
    mutexes (run ops d w).1 !! collection = Some m ∧
    ∀ w', getOrCreateMutex (run ops d w).1 collection w'
            = ((m, (run ops d w).1), w').
Proof.
  assert (Hsub : mutexes d ⊆ mutexes (run ops d w).1).
  { revert d w. induction ops as [|o ops IH]; intros d w; simpl; [done|].
    pose proof (run_op_registry o d w) as Ho.
    destruct (run_op o d w) as [d1 w1]. simpl in Ho.
    etrans; [done|]. apply IH. }
  split; [done|]. intros c m Hm.
  assert (Hm' : mutexes (run ops d w).1 !! c = Some m).
  { by eapply lookup_weaken. }
  split; [done|]. intros w'. by apply getOrCreateMutex_registered.
Qed.

End registry.

Example registry_after_delete :
  let ops := [OpWrite "users" "John" (Str "John"); OpDelete "users" "";
              OpReadAll "users"; OpWrite "users" "Paul" (Str "Paul")] in
  mutexes (run ops db w_db).1 !! "users" = Some 0 ∧
  mutexes (run (take 2 ops) db w_db).1 !! "users" = Some 0.
Proof. by_compute. Qed.

(** ** C6: deleting a collection *)












(** ** C7: deleting one record *)

Lemma last_elem_suffix p s :
  split s = [s] → last_elem (p +:+ s) = last_elem p +:+ s.
Proof.
  intros Hs. unfold last_elem. by rewrite split_suffix, last_snoc.
Qed.

Lemma json_not_dot (x : string) : x +:+ ".json" ≠ ".".
Proof. by destruct x as [|? [|??]]. Qed.

(** [RemoveAll] of a file removes that entry and nothing else. *)
Lemma RemoveAll_file path w l data :
  os.lookup_path w path = inr (l, File data) →
  path ≠ "" → last_elem path ≠ "." →
  os.RemoveAll path w =
    (None, set_fs (log (CallRemoveAll path) w) (delete l (fs w))).
Proof.
  intros Hl Hne Hd. unfold os.RemoveAll. unlog.
  by rewrite !decide_False, Hl.
Qed.

(** Removing a file changes no lookup of another entry. *)
Lemma lookup_path_delete_file w w' l data q l2 n2 :
  fs w !! l = Some (File data) →
  cwd w' = cwd w → fs w' = delete l (fs w) →
  os.lookup_path w q = inr (l2, n2) → l2 ≠ l →
  os.lookup_path w' q = inr (l2, n2).
Proof.
  intros Hl Hcwd Hfs Hq Hne. apply lookup_path_inv in Hq as [Hres Hl2].
  apply lookup_path_inv. split.
  - apply (resolve_mono w); [done| |done]. intros k Hk. rewrite Hfs.
    rewrite lookup_delete_ne; [done|]. intros ->. by rewrite Hl in Hk.
  - rewrite Hfs. by rewrite lookup_delete_ne.
Qed.

(** For names that are relative paths of plain elements [Delete] aims at
    the file [Write] made. *)
Lemma delete_path_json d collection resources :
  plain_path collection → plain_path resources →
  delete_path d collection resources +:+ ".json" = fnlPath d collection resources.
Proof.
  intros Hc Hr. rewrite <- record_path_json by (by apply plain_path_last).
  f_equal. unfold delete_path, delete_name, record_path.
  rewrite (Join_two_plain_path collection resources) by done.
  assert (Hc0 : collection ≠ "").
  { apply last_elem_not_empty. by destruct (plain_path_last _ Hc) as (_ & ? & _). }
  destruct (decide (dir d = "")) as [->|Hd].
  - rewrite !Join_cons_empty.
    rewrite (Join_cons_ne collection) by done.
    rewrite Join_cons_ne by (by apply app_not_empty). done.
  - by rewrite !Join_cons_ne.
Qed.

Section delete_record.
Context {V : Type} `{Codec V}.

(** C7, amended.  Let the record file [<target>.json] exist, where
    [<target>] is the path [Delete] joins from the store directory, the
    collection and the name, and let no directory exist at the bare path
    [<target>].  Then a [Delete] that returns [nil] has removed that file
    and nothing else: every other entry of the file system is as it was,
    and every other record whose name ends in a plain element, in this
    or another collection, still exists and reads back as before. *)
Theorem Delete_record_only d collection resources w l data :
  let target := delete_path d collection resources in
  let out := Delete d collection resources w in
  os.lookup_path w (target +:+ ".json") = inr (l, File data) →
  (∀ l', os.lookup_path w target ≠ inr (l', Dir)) →
  out.1.1 = None →
  fs out.2 = delete l (fs w) ∧
  ∀ c2 r2 l2 data2 (dst : V),
    c2 ≠ "" → plain (last_elem r2) → l2 ≠ l →
    os.lookup_path w (fnlPath d c2 r2) = inr (l2, File data2) →
    os.lookup_path out.2 (fnlPath d c2 r2) = inr (l2, File data2) ∧
    (Read out.1.2 c2 r2 dst out.2).1 = (Read d c2 r2 dst w).1.
Proof.
  intros target out Hjson Hbare Hok.
  pose proof (getOrCreateMutex_world d collection w) as (Hfs & Hcwd & _ & Hdir).
  assert (Hlk : ∀ p, os.lookup_path (getOrCreateMutex d collection w).2 p
                     = os.lookup_path w p).
  { intros p. by apply lookup_path_ext. }
  assert (Hrm : ∀ w1, fs w1 = fs w → cwd w1 = cwd w →
            os.RemoveAll (target +:+ ".json") w1
              = (None, set_fs (log (CallRemoveAll (target +:+ ".json")) w1)
                         (delete l (fs w)))).
  { intros w1 Hfs1 Hcwd1. rewrite <- Hfs1. eapply RemoveAll_file.
    - by rewrite (lookup_path_ext w1 w).
    - by destruct target.
    - rewrite last_elem_suffix by done. apply json_not_dot. }
  assert (Hout : fs out.2 = delete l (fs w) ∧ cwd out.2 = cwd w ∧
                 dir out.1.2 = dir d).
  { subst out. revert Hok. rewrite Delete_spec. cbv zeta. fold target.
    rewrite stat_spec, !Hlk.
    set (g := getOrCreateMutex d collection w) in *.
    destruct (os.lookup_path w target) as [e|[l' [b|]]] eqn:Htarget.
    - destruct e; try done. rewrite Hjson. simpl.
      rewrite Hrm by done. done.
    - simpl. rewrite Hrm by done. done.
    - by destruct (Hbare l'). }
  destruct Hout as (Hfs' & Hcwd' & Hdir').
  split; [done|]. intros c2 r2 l2 data2 dst Hc2 Hr2 Hne Hl2.
  assert (Hl2' : os.lookup_path out.2 (fnlPath d c2 r2) = inr (l2, File data2)).
  { apply lookup_path_inv in Hjson as [_ Hfile].
    by eapply lookup_path_delete_file. }
  split; [done|].
  rewrite (Read_existing d c2 r2 dst w l2 data2) by done.
  apply (Read_existing _ c2 r2 dst _ l2 data2); [done..|].
  unfold fnlPath, collection_dir in *. by rewrite Hdir'.
Qed.

End delete_record.

Lemma Delete_record_only_witness :
  let out := Delete db "users" "John" w_users in
  fs out.2 = delete ["John.json"; "users"; "db"; "home"] (fs w_users) ∧
  ∀ c2 r2 l2 data2 (dst : value),
    c2 ≠ "" → plain (last_elem r2) → l2 ≠ ["John.json"; "users"; "db"; "home"] →
    os.lookup_path w_users (fnlPath db c2 r2) = inr (l2, File data2) →
    os.lookup_path out.2 (fnlPath db c2 r2) = inr (l2, File data2) ∧
    (Read out.1.2 c2 r2 dst out.2).1 = (Read db c2 r2 dst w_users).1.
Proof.
  apply (Delete_record_only db "users" "John" w_users
           ["John.json"; "users"; "db"; "home"] (encoded "John")).
  - vm_compute. reflexivity.
  - intros l'. vm_compute. discriminate.
  - vm_compute. reflexivity.
Defined.

(** C7 as stated fails when a directory exists at the bare path.  With the
    collections [users] and [users/admins], [Delete] of the record
    [admins] of [users] finds the directory [db/users/admins] first and
    removes it: it returns [nil], the record [admins] is still there, and
    the record [root] of the other collection is gone. *)
Lemma Delete_record_removes_directory :
  let out := Delete db "users" "admins" w_nested in
  (Read db "users" "admins" Chan w_nested).1 = (Str "admins", None) ∧
  (Read db "users/admins" "root" Chan w_nested).1 = (Str "root", None) ∧
  out.1.1 = None ∧
  calls out.2 = [CallStat "db/users/admins"; CallRemoveAll "db/users/admins"] ∧
  (Read out.1.2 "users" "admins" Chan out.2).1 = (Str "admins", None) ∧
  (Read out.1.2 "users/admins" "root" Chan out.2).1
    = (Chan, Some (PathError "stat" "db/users/admins/root.json" ENOENT)).
Proof. by_compute. Qed.

(** ** C10: [ReadAll] reads every entry *)

Lemma children_elem m l e :
  e ∈ os.children m l ↔
  ∃ n, m !! (os.Name e :: l) = Some n ∧
       os.EntryIsDir e = os.IsDir (os.Mode (os.info_of n)).
Proof.
  unfold os.children. rewrite merge_sort_Permutation, list_elem_of_omap. split.
  - intros ([k n] & Hin & Hch). apply elem_of_map_to_list in Hin.
    destruct k as [|c k]; [done|]. simpl in Hch.
    case_decide; [|done]. simplify_eq. simpl. by exists n.
  - intros (n & Hn & Hd). exists (os.Name e :: l, n). split.
    + by apply elem_of_map_to_list.
    + simpl. rewrite decide_True by done. destruct e. simpl in *. by subst.
Qed.

(** Every entry of a directory is listed, whatever its name. *)
Lemma children_complete m l name n :
  m !! (name :: l) = Some n → name ∈ os.Name <$> os.children m l.
Proof.
  intros Hn. apply list_elem_of_fmap.
  exists (os.mkEntry name (os.IsDir (os.Mode (os.info_of n)))). split; [done|].
  apply children_elem. by exists n.
Qed.

Lemma children_valid m l :
  valid_fs m → Forall (λ e, plain (os.Name e)) (os.children m l).
Proof.
  intros Hv. apply Forall_forall. intros e (n & Hn & _)%children_elem.
  apply Hv in Hn. by inversion Hn.
Qed.

(** A cleaned path and the paths [Join] makes below it. *)
Lemma collection_dir_clean d collection :
  collection ≠ "" →
  ∃ rt out, normal rt out ∧
    collection_dir d collection = filepath.render rt out ∧
    ∀ name, plain name →
      filepath.Join [collection_dir d collection; name]
        = filepath.render rt (name :: out).
Proof.
  intros Hc.
  assert (∃ p, p ≠ "" ∧ collection_dir d collection = filepath.Clean p) as (p & Hp & Hcd).
  { unfold collection_dir. destruct (decide (dir d = "")) as [->|Hd].
    - exists collection. split; [done|]. by rewrite Join_cons_empty, Join_cons_ne.
    - exists (join [dir d; collection]). split; [by apply app_not_empty|].
      by rewrite Join_cons_ne. }
  exists (rooted p), (elems_of p). split_and!.
  - apply elems_of_normal.
  - by rewrite Hcd, Clean_render.
  - intros name Hname. rewrite Join_one_plain by (done || by apply collection_dir_not_empty).
    by rewrite Hcd, rooted_Clean, elems_of_Clean.
Qed.

Lemma walk_parent_elems w rt out l :
  normal rt out →
  os.resolve w (filepath.render rt out) = inr l →
  os.walk (fs w) (if rt then [] else cwd w) (parent_elems rt out) = inr l.
Proof.
  intros Hn. unfold os.resolve.
  rewrite decide_False by (by apply render_not_empty).
  rewrite start_render, split_render by done. unfold parent_elems.
  destruct rt, out as [|x out]; simpl; try done.
  - unfold os.step. destruct (fs w !! []) as [[|]|] eqn:Hroot; try done.
    change (os.move [] "") with (@nil string). by rewrite Hroot.
  - unfold os.step. destruct (fs w !! cwd w) as [[|]|]; try done.
Qed.

(** A plain name joined to a directory resolves to its entry of that
    name. *)
Lemma resolve_entry w rt out l name :
  normal rt out → plain name →
  os.resolve w (filepath.render rt out) = inr l →
  fs w !! l = Some Dir →
  os.resolve w (filepath.render rt (name :: out)) = inr (name :: l).
Proof.
  intros Hn Hname Hres Hl. rewrite resolve_child by done.
  by rewrite (walk_parent_elems w rt out l), Hl.
Qed.

Section read_all.

Variables (wd : World) (cdir : string) (l : list string) (rt : bool)
  (out : list string).
Hypothesis Hnormal : normal rt out.
Hypothesis Hcdir : cdir = filepath.render rt out.
Hypothesis Hjoin : ∀ name, plain name →
  filepath.Join [cdir; name] = filepath.render rt (name :: out).
Hypothesis Hres : os.resolve wd cdir = inr l.
Hypothesis Hdir : fs wd !! l = Some Dir.

Lemma lookup_entry w name :
  fs w = fs wd → cwd w = cwd wd → plain name →
  os.lookup_path w (filepath.Join [cdir; name]) =
    match fs wd !! (name :: l) with
    | Some n => inr (name :: l, n)
    | None => inl ENOENT
    end.
Proof.
  intros Hfs Hcwd Hname. rewrite (lookup_path_ext w wd) by done.
  unfold os.lookup_path. rewrite Hjoin by done.
  rewrite (resolve_entry wd rt out l name); [done..| |done].
  by rewrite <- Hcdir.
Qed.

(** The loop over entries that are all files returns their contents, in
    the order of the listing. *)
Lemma read_files_all files acc w :
  fs w = fs wd → cwd w = cwd wd →
  Forall (λ e, plain (os.Name e)) files →
  Forall (λ e, ∃ data, fs wd !! (os.Name e :: l) = Some (File data)) files →
  (read_files cdir files acc w).1 = (acc ++ (content (fs wd) l <$> files), None).
Proof.
  intros Hfs Hcwd Hpl Hall. revert acc w Hfs Hcwd.
  induction files as [|e files IH]; intros acc w Hfs Hcwd; simpl.
  - by rewrite app_nil_r.
  - apply Forall_cons in Hpl as [Hpe Hpl'].
    apply Forall_cons in Hall as [[data He] Hall'].
    rewrite (ReadFile_ok _ _ (os.Name e :: l) data)
      by (by rewrite lookup_entry, He).
    rewrite IH by done. unfold content at 2. rewrite He.
    by rewrite <- app_assoc.
Qed.

(** The loop stops at the first entry that is a directory, with the error
    of reading it and without a list. *)
Lemma read_files_dir files acc w :
  fs w = fs wd → cwd w = cwd wd →
  Forall (λ e, plain (os.Name e)) files →
  Forall (λ e, is_Some (fs wd !! (os.Name e :: l))) files →
  Exists (λ e, fs wd !! (os.Name e :: l) = Some Dir) files →
  ∃ name, fs wd !! (name :: l) = Some Dir ∧
    (read_files cdir files acc w).1
      = (nil_records, Some (PathError "read" (filepath.Join [cdir; name]) EISDIR)).
Proof.
  intros Hfs Hcwd Hpl Hsome Hex. revert acc w Hfs Hcwd.
  induction files as [|e files IH]; intros acc w Hfs Hcwd; [by inversion Hex|].
  apply Forall_cons in Hpl as [Hpe Hpl'].
  apply Forall_cons in Hsome as [[n He] Hsome'].
  simpl. unfold os.ReadFile. unlog. rewrite lookup_entry, He by done.
  destruct n as [data|].
  - apply IH; [done|done| |done..].
    apply Exists_cons in Hex as [Hex|Hex]; [|done]. by rewrite He in Hex.
  - by exists (os.Name e).
Qed.

End read_all.

(** C10.  For a collection whose directory exists, in a file system whose
    names are plain: the listing [ReadAll] works from has every entry of
    the directory, whatever its name; when all entries are files,
    [ReadAll] returns the raw content of each of them, so the content of
    a file without the [.json] suffix is among the records; and when an
    entry is a directory, [ReadAll] returns the error of reading a
    directory and no list. *)
Theorem ReadAll_every_entry d collection w l :
  collection ≠ "" → valid_fs (fs w) →
  os.lookup_path w (collection_dir d collection) = inr (l, Dir) →
  let out := (ReadAll d collection w).1 in
  let entries := os.children (fs w) l in
  (∀ name n, fs w !! (name :: l) = Some n → name ∈ os.Name <$> entries) ∧
  ((∀ name n, fs w !! (name :: l) = Some n → ∃ data, n = File data) →
     out = (content (fs w) l <$> entries, None) ∧
     ∀ name data, fs w !! (name :: l) = Some (File data) → data ∈ out.1) ∧
  (∀ name, fs w !! (name :: l) = Some Dir →
     ∃ name', fs w !! (name' :: l) = Some Dir ∧
       out = (nil_records,
              Some (PathError "read"
                      (filepath.Join [collection_dir d collection; name']) EISDIR))).
Proof.
  intros Hc Hvalid Hl out entries.
  destruct (collection_dir_clean d collection Hc) as (rt & outs & Hn & Hcd & Hjoin).
  pose proof (proj1 (lookup_path_inv _ _ _ _) Hl) as [Hres Hdir].
  pose proof (children_valid _ l Hvalid) as Hplain. fold entries in Hplain.
  assert (Hout : ∃ w2, fs w2 = fs w ∧ cwd w2 = cwd w ∧
            out = (read_files (collection_dir d collection) entries nil_records w2).1).
  { exists (log (CallReadDir (collection_dir d collection))
              (log (CallStat (collection_dir d collection)) w)).
    split_and!; [done..|]. subst out. unfold ReadAll.
    rewrite decide_False by done. fold (collection_dir d collection).
    rewrite stat_spec, Hl. cbv zeta. unfold os.ReadDir. unlog. by rewrite Hl. }
  destruct Hout as (w2 & Hfs2 & Hcwd2 & Hout).
  assert (Hsome : Forall (λ e, is_Some (fs w !! (os.Name e :: l))) entries).
  { apply Forall_forall. intros e (n & Hen & _)%children_elem. by eexists. }
  split_and!.
  - intros name n Hname. by eapply children_complete.
  - intros Hfiles.
    assert (Hall : Forall (λ e, ∃ data, fs w !! (os.Name e :: l) = Some (File data))
                     entries).
    { apply Forall_forall. intros e (n & Hen & _)%children_elem.
      destruct (Hfiles _ _ Hen) as [data ->]. by eexists. }
    assert (Hrec : out = (content (fs w) l <$> entries, None)).
    { rewrite Hout.
      by rewrite (read_files_all w (collection_dir d collection) l rt outs). }
    split; [done|]. intros name data Hname. rewrite Hrec. simpl.
    apply children_complete in Hname as Hin.
    apply list_elem_of_fmap in Hin as (e & -> & Hin).
    apply list_elem_of_fmap. exists e. split; [|done].
    unfold content. by rewrite Hname.
  - intros name Hname. rewrite Hout.
    apply (read_files_dir w (collection_dir d collection) l rt outs); try done.
    apply Exists_exists.
    apply children_complete in Hname as Hin.
    apply list_elem_of_fmap in Hin as (e & -> & Hin). by exists e.
Qed.

Lemma ReadAll_every_entry_witness :
  let l := ["users"; "db"; "home"] in
  let out := (ReadAll db "users" w_stray).1 in
  let entries := os.children (fs w_stray) l in
  (∀ name n, fs w_stray !! (name :: l) = Some n → name ∈ os.Name <$> entries) ∧
  ((∀ name n, fs w_stray !! (name :: l) = Some n → ∃ data, n = File data) →
     out = (content (fs w_stray) l <$> entries, None) ∧
     ∀ name data, fs w_stray !! (name :: l) = Some (File data) → data ∈ out.1) ∧
  (∀ name, fs w_stray !! (name :: l) = Some Dir →
     ∃ name', fs w_stray !! (name' :: l) = Some Dir ∧
       out = (nil_records,
              Some (PathError "read"
                      (filepath.Join [collection_dir db "users"; name']) EISDIR))).
Proof.
  apply (ReadAll_every_entry db "users" w_stray ["users"; "db"; "home"]).
  - done.
  - apply (bool_decide_unpack _). vm_compute. exact I.
  - vm_compute. reflexivity.
Defined.

(** A temporary file left by a failed [Rename] is returned as a record, and
    a collection that holds a directory cannot be read at all. *)
Example ReadAll_stray_tmp :
  (ReadAll db "users" w_stray).1 = ([encoded "John"; encoded "Paul"], None) ∧
  (ReadAll db "users" w_nested).1
    = ([], Some (PathError "read" "db/users/admins" EISDIR)).
Proof. by_compute. Qed.

(** ** Plain names everywhere *)

(** With plain names for the store directory, the collection and the
    record, the paths of [Write] are the ones of the on-disk layout. *)
Lemma fnlPath_plain d collection resources :
  plain (dir d) → plain collection → plain resources →
  fnlPath d collection resources
    = dir d +:+ "/" +:+ collection +:+ "/" +:+ resources +:+ ".json"
  ∧ tmpPath d collection resources
    = dir d +:+ "/" +:+ collection +:+ "/" +:+ resources +:+ ".json" +:+ ".tmp".
Proof.
  intros Hd Hc Hr. pose proof Hd as (_ & Hd0 & _).
  assert (Hrj : plain (resources +:+ ".json")) by (by apply plain_suffix).
  assert (Hfnl : fnlPath d collection resources
            = dir d +:+ "/" +:+ collection +:+ "/" +:+ resources +:+ ".json").
  { unfold fnlPath, collection_dir. rewrite (Join_two_plain (dir d)) by done.
    rewrite Join_one_plain by (done || by apply app_not_empty).
    rewrite rooted_app, plain_not_rooted, elems_of_snoc, elems_of_plain by done.
    unfold filepath.render. by simpl. }
  split; [done|]. unfold tmpPath. rewrite Hfnl. by rewrite !string_app_assoc.
Qed.

Lemma move_valid cur e :
  Forall plain cur → split e = [e] → Forall plain (os.move cur e).
Proof.
  intros Hcur He. unfold os.move. repeat case_decide; try done.
  - destruct cur; [done|]. by inversion Hcur.
  - by constructor.
Qed.

Lemma walk_valid m cur elems l :
  Forall plain cur → Forall (λ e, split e = [e]) elems →
  os.walk m cur elems = inr l → Forall plain l.
Proof.
  intros Hcur Hel. revert cur Hcur.
  induction Hel as [|e elems He _ IH]; intros cur Hcur; simpl.
  - by intros [= <-].
  - unfold os.step. destruct (m !! cur) as [[|]|]; try done.
    apply IH. by apply move_valid.
Qed.

Lemma resolve_valid w p l :
  Forall plain (cwd w) → os.resolve w p = inr l → Forall plain l.
Proof.
  intros Hcwd. unfold os.resolve, os.start. case_decide; [done|].
  apply walk_valid; [by destruct (rooted p)|apply split_no_sep].
Qed.

Lemma valid_fs_insert m k n :
  valid_fs m → Forall plain k → valid_fs (<[k := n]> m).
Proof. intros Hm Hk. by apply map_Forall_insert_2. Qed.

Lemma mkdir_walk_valid m cur elems :
  valid_fs m → Forall plain cur → Forall (λ e, split e = [e]) elems →
  valid_fs (os.mkdir_walk m cur elems).1.
Proof.
  intros Hm Hcur Hel. revert m cur Hm Hcur.
  induction Hel as [|e elems He _ IH]; intros m cur Hm Hcur; simpl; [done|].
  pose proof (move_valid cur e Hcur He) as Hmv.
  destruct (m !! os.move cur e) as [[|]|]; [done|by apply IH|].
  case_decide; [|done]. apply IH; [|done]. by apply valid_fs_insert.
Qed.

Lemma MkdirAll_valid path perm w :
  valid_world w → valid_world (os.MkdirAll path perm w).2.
Proof.
  intros [Hfs Hcwd]. unfold os.MkdirAll. case_decide; [done|]. unlog.
  destruct (fs w !! os.start w path) as [[|]|]; try done.
  pose proof (mkdir_walk_valid (fs w) (os.start w path) (split path) Hfs) as Hmk.
  destruct (os.mkdir_walk (fs w) (os.start w path) (split path)) as [m' [e|]];
    (split; [|done]); simpl; apply Hmk;
    try apply split_no_sep; unfold os.start; by destruct (rooted path).
Qed.

Lemma WriteFile_valid name data perm w :
  valid_world w → valid_world (os.WriteFile name data perm w).2.
Proof.
  intros [Hfs Hcwd]. unfold os.WriteFile. unlog.
  destruct (os.resolve w name) as [e|l] eqn:Hres; [done|].
  apply resolve_valid in Hres; [|done].
  destruct (fs w !! l) as [[|]|]; try done;
    (split; [|done]); by apply valid_fs_insert.
Qed.

Lemma valid_fs_filter (P : list string * node → Prop) `{∀ x, Decision (P x)} m :
  valid_fs m → valid_fs (filter P m).
Proof.
  intros Hm k n Hk. apply map_lookup_filter_Some in Hk as [Hk _].
  by apply (Hm k n).
Qed.

Lemma RemoveAll_valid path w :
  valid_world w → valid_world (os.RemoveAll path w).2.
Proof.
  intros [Hfs Hcwd]. unfold os.RemoveAll. cbv zeta. unlog.
  destruct (decide (path = "")); [done|].
  destruct (decide (last_elem path = ".")); [done|].
  destruct (os.lookup_path w path) as [[]|[l [|]]]; try done.
  - split; [|done]. simpl. by apply map_Forall_delete.
  - destruct (decide (last_elem path = ".."));
      [|destruct (decide (l = []))]; (split; [|done]); simpl;
      by apply valid_fs_filter.
Qed.

Lemma Rename_file_valid old new w lo data :
  os.lookup_path w old = inr (lo, File data) →
  valid_world w → valid_world (os.Rename old new w).2.
Proof.
  intros Hold [Hfs Hcwd]. unfold os.Rename. unlog. rewrite Hold.
  destruct (os.resolve w new) as [?|ln] eqn:Hres; [done|].
  apply resolve_valid in Hres; [|done].
  destruct (fs w !! ln) as [[|]|]; try done; (split; [|done]); simpl;
    (apply valid_fs_insert; [by apply map_Forall_delete|done]).
Qed.

Lemma stat_valid path w : valid_world w → valid_world (stat path w).2.
Proof.
  intros [Hfs Hcwd]. pose proof (stat_world path w) as [Hf Hc].
  split; by rewrite ?Hf, ?Hc.
Qed.

Lemma read_files_world cdir files acc w :
  fs (read_files cdir files acc w).2 = fs w ∧
  cwd (read_files cdir files acc w).2 = cwd w.
Proof.
  revert acc w. induction files as [|e files IH]; intros acc w; simpl; [done|].
  pose proof (ReadFile_world (filepath.Join [cdir; os.Name e]) w) as Hw.
  destruct (os.ReadFile (filepath.Join [cdir; os.Name e]) w) as [[b [err|]] w1];
    simpl in Hw; subst w1; [done|].
  destruct (IH (acc ++ [b]) (log (CallReadFile (filepath.Join [cdir; os.Name e])) w))
    as [-> ->]. done.
Qed.

(** [ReadAll] changes no entry of the file system. *)
Lemma ReadAll_world d collection w :
  fs (ReadAll d collection w).2 = fs w ∧ cwd (ReadAll d collection w).2 = cwd w.
Proof.
  unfold ReadAll. case_decide; [done|].
  pose proof (stat_world (filepath.Join [dir d; collection]) w) as [Hf Hc].
  destruct (stat (filepath.Join [dir d; collection]) w) as [[fi [e|]] w1];
    simpl in *; [done|].
  unfold os.ReadDir. unlog.
  destruct (os.lookup_path w1 (filepath.Join [dir d; collection]))
    as [e|[l [data|]]]; simpl; try done.
  destruct (read_files_world (filepath.Join [dir d; collection])
              (os.children (fs w1) l) nil_records
              (log (CallReadDir (filepath.Join [dir d; collection])) w1))
    as [-> ->]. done.
Qed.

Section valid.
Context {V : Type} `{Codec V}.

(** [Read] changes no entry of the file system. *)
Lemma Read_world d collection resources v w :
  fs (Read d collection resources v w).2 = fs w ∧
  cwd (Read d collection resources v w).2 = cwd w.
Proof.
  unfold Read. repeat case_decide; try done.
  pose proof (stat_world (filepath.Join [dir d; collection; resources]) w) as [Hf Hc].
  destruct (stat (filepath.Join [dir d; collection; resources]) w)
    as [[fi [e|]] w1]; simpl in *; [done|].
  pose proof (ReadFile_world
    (filepath.Join [dir d; collection; resources] +:+ ".json") w1) as Hw.
  destruct (os.ReadFile _ w1) as [[b [e|]] w2]; simpl in *; by subst.
Qed.

Lemma Write_valid d collection resources v w :
  valid_world w → valid_world (Write d collection resources v w).2.
Proof.
  intros Hv. unfold Write. repeat case_decide; try done.
  pose proof (getOrCreateMutex_world d collection w) as (Hfs & Hcwd & _ & _).
  destruct (getOrCreateMutex d collection w) as [[m d1] w1]. simpl in *.
  assert (Hv1 : valid_world w1) by (destruct Hv; split; by rewrite ?Hfs, ?Hcwd).
  pose proof (MkdirAll_valid (filepath.Join [dir d1; collection]) 493 w1 Hv1) as Hv2.
  destruct (os.MkdirAll (filepath.Join [dir d1; collection]) 493 w1)
    as [[e|] w2]; [done|]. simpl in Hv2.
  destruct (MarshalIndent v "" tab) as [b [e|]]; [done|].
  set (fnl := filepath.Join [filepath.Join [dir d1; collection]; resources +:+ ".json"]).
  pose proof (WriteFile_valid (fnl +:+ ".tmp") (b +:+ newline) 420 w2 Hv2) as Hv3.
  destruct (os.WriteFile (fnl +:+ ".tmp") (b +:+ newline) 420 w2)
    as [[e|] w3] eqn:Hwr; [done|]. simpl in Hv3.
  apply WriteFile_ok in Hwr as (lt & Hrt & Hlt & Hw3).
  assert (Hold : os.lookup_path w3 (fnl +:+ ".tmp")
                 = inr (lt, File (b +:+ newline))).
  { apply lookup_path_inv. subst w3. split.
    - apply (resolve_mono w2); [done| |done]. intros k Hk. simpl.
      rewrite lookup_insert_ne; [done|]. by intros ->.
    - simpl. by rewrite lookup_insert_eq. }
  pose proof (Rename_file_valid _ fnl _ _ _ Hold Hv3) as Hv4.
  by destruct (os.Rename (fnl +:+ ".tmp") fnl w3) as [e w4].
Qed.

Lemma Delete_valid d collection resources w :
  valid_world w → valid_world (Delete d collection resources w).2.
Proof.
  intros Hv. rewrite Delete_spec. cbv zeta.
  pose proof (getOrCreateMutex_world d collection w) as (Hfs & Hcwd & _ & _).
  set (g := getOrCreateMutex d collection w) in *.
  assert (Hv1 : valid_world g.2) by (destruct Hv; split; by rewrite ?Hfs, ?Hcwd).
  pose proof (stat_valid (delete_path d collection resources) g.2 Hv1) as Hv2.
  destruct (stat _ g.2).1 as [[fi|] [e|]]; try done.
  destruct (os.IsDir (os.Mode fi)); [by apply RemoveAll_valid|].
  destruct (os.IsRegular (os.Mode fi)); [by apply RemoveAll_valid|done].
Qed.

(** Driver calls keep the names of the file system plain. *)
Lemma run_valid (ops : list (Op V)) d w :
  valid_world w → valid_world (run ops d w).2.
Proof.
  revert d w. induction ops as [|o ops IH]; intros d w Hv; simpl; [done|].
  assert (Ho : valid_world (run_op o d w).2).
  { destruct o as [c r v|c r v|c|c r]; simpl.
    - pose proof (Write_valid d c r v w Hv).
      by destruct (Write d c r v w) as [[? ?] ?].
    - pose proof (Read_world d c r v w) as [Hf Hc].
      destruct (Read d c r v w) as [? w1]. simpl in *.
      destruct Hv. split; by rewrite ?Hf, ?Hc.
    - pose proof (ReadAll_world d c w) as [Hf Hc].
      destruct (ReadAll d c w) as [? w1]. simpl in *.
      destruct Hv. split; by rewrite ?Hf, ?Hc.
    - pose proof (Delete_valid d c r w Hv).
      by destruct (Delete d c r w) as [[? ?] ?]. }
  destruct (run_op o d w) as [d1 w1]. by apply IH.
Qed.

End valid.

(** The worlds of the concrete runs are valid, and so is every world a run
    of driver calls reaches from them. *)
Example valid_worlds :
  valid_world w0 ∧ valid_world w_db ∧ valid_world w_users ∧
  valid_world w_stray ∧ valid_world w_file ∧ valid_world w_nested.
Proof. split_and!; by_compute. Qed.

(** * Further properties of the driver *)

(** ** More on the [os] calls *)

Lemma walk_start_dir m cur elems l :
  os.walk m cur elems = inr l → m !! l = Some Dir → m !! cur = Some Dir.
Proof.
  destruct elems as [|e elems]; simpl.
  - by intros [= ->].
  - unfold os.step. by destruct (m !! cur) as [[|]|].
Qed.

(** Along directories that exist [MkdirAll] walks as path resolution
    does. *)
Lemma mkdir_walk_walk m cur elems rest l :
  os.walk m cur elems = inr l → m !! l = Some Dir →
  os.mkdir_walk m cur (elems ++ rest) = os.mkdir_walk m l rest.
Proof.
  revert cur. induction elems as [|e elems IH]; intros cur; simpl.
  - by intros [= ->].
  - unfold os.step. destruct (m !! cur) as [[|]|] eqn:Hcur; try done.
    intros Hw Hl. rewrite (walk_start_dir _ _ _ _ Hw Hl). by apply IH.
Qed.

(** After a [MkdirAll] without error the path resolves to a directory. *)
Lemma mkdir_walk_ok m cur elems m' :
  m !! cur = Some Dir → os.mkdir_walk m cur elems = (m', None) →
  ∃ l, os.walk m' cur elems = inr l ∧ m' !! l = Some Dir.
Proof.
  revert m cur. induction elems as [|e elems IH]; intros m cur Hcur; simpl.
  - intros [= <-]. by exists cur.
  - unfold os.step.
    destruct (m !! os.move cur e) as [[|]|] eqn:Hmv; [done| |].
    + intros Hw. pose proof (mkdir_walk_adds _ _ _ _ _ cur Hw) as Hadd.
      destruct (IH _ _ Hmv Hw) as (l & Hl & Hd). exists l. split; [|done].
      destruct Hadd as [->|[Hn _]]; [|by rewrite Hcur in Hn]. by rewrite Hcur.
    + case_decide; [|done]. intros Hw.
      pose proof (mkdir_walk_adds _ _ _ _ _ cur Hw) as Hadd.
      assert (Hcur' : <[os.move cur e := Dir]> m !! cur = Some Dir).
      { destruct (decide (os.move cur e = cur)) as [->|Hne].
        - by rewrite lookup_insert_eq.
        - by rewrite lookup_insert_ne. }
      destruct (IH (<[os.move cur e := Dir]> m) (os.move cur e)) as (l & Hl & Hd);
        [by rewrite lookup_insert_eq|done|].
      exists l. split; [|done].
      destruct Hadd as [->|[Hn _]]; [|by rewrite Hcur' in Hn]. by rewrite Hcur'.
Qed.

Lemma MkdirAll_ok path perm w w' :
  os.MkdirAll path perm w = (None, w') →
  ∃ l, os.lookup_path w' path = inr (l, Dir).
Proof.
  unfold os.MkdirAll. case_decide as Hp; [done|]. unlog.
  destruct (fs w !! os.start w path) as [[|]|] eqn:Hst; try done.
  destruct (os.mkdir_walk (fs w) (os.start w path) (split path)) as [m' [e|]] eqn:Hmk;
    [done|].
  intros [= <-]. destruct (mkdir_walk_ok _ _ _ _ Hst Hmk) as (l & Hl & Hd).
  exists l. apply lookup_path_inv. split; [|done].
  unfold os.resolve. by rewrite decide_False.
Qed.

Lemma WriteFile_succeeds name data perm w l :
  os.resolve w name = inr l → fs w !! l ≠ Some Dir →
  os.WriteFile name data perm w =
    (None, set_fs (log (CallWriteFile name data perm) w) (<[l := File data]> (fs w))).
Proof.
  intros Hres Hl. unfold os.WriteFile. unlog. rewrite Hres.
  by destruct (fs w !! l) as [[|]|].
Qed.

Lemma WriteFile_inv name data perm w e w' :
  os.WriteFile name data perm w = (e, w') →
  cwd w' = cwd w ∧
  ((is_Some e ∧ fs w' = fs w) ∨
   (e = None ∧ ∃ l, os.resolve w name = inr l ∧ fs w !! l ≠ Some Dir ∧
      fs w' = <[l := File data]> (fs w))).
Proof.
  unfold os.WriteFile. unlog.
  destruct (os.resolve w name) as [err|l]; [intros [= <- <-]; by eauto|].
  destruct (fs w !! l) as [[|]|] eqn:Hl; intros [= <- <-]; (split; [done|]);
    try (right; split; [done|]; exists l; by rewrite Hl); by eauto.
Qed.

Lemma Rename_file_succeeds old new w lo data ln :
  os.lookup_path w old = inr (lo, File data) →
  os.resolve w new = inr ln → fs w !! ln ≠ Some Dir →
  os.Rename old new w =
    (None, set_fs (log (CallRename old new) w)
             (<[ln := File data]> (delete lo (fs w)))).
Proof.
  intros Hold Hnew Hln. unfold os.Rename. unlog. rewrite Hold, Hnew.
  by destruct (fs w !! ln) as [[|]|].
Qed.

Lemma Rename_file_inv old new w lo data e w' :
  os.lookup_path w old = inr (lo, File data) →
  os.Rename old new w = (e, w') →
  cwd w' = cwd w ∧
  ((is_Some e ∧ fs w' = fs w) ∨
   (e = None ∧ ∃ ln, os.resolve w new = inr ln ∧ fs w !! ln ≠ Some Dir ∧
      fs w' = <[ln := File data]> (delete lo (fs w)))).
Proof.
  intros Hold. unfold os.Rename. unlog. rewrite Hold.
  destruct (os.resolve w new) as [err|ln]; [intros [= <- <-]; by eauto|].
  destruct (fs w !! ln) as [[|]|] eqn:Hl; intros [= <- <-]; (split; [done|]);
    try (right; split; [done|]; exists ln; by rewrite Hl); by eauto.
Qed.

(** ** [New] *)

Lemma New_found dir0 w l n :
  os.lookup_path w (filepath.Clean dir0) = inr (l, n) →
  New dir0 w = (({| mutexes := ∅; dir := filepath.Clean dir0 |}, None),
                log (CallStat (filepath.Clean dir0)) w).
Proof. intros Hl. unfold New. by rewrite (Stat_ok _ _ _ _ Hl). Qed.

Lemma New_missing dir0 w e :
  os.lookup_path w (filepath.Clean dir0) = inl e →
  New dir0 w =
    (({| mutexes := ∅; dir := filepath.Clean dir0 |},
      (os.MkdirAll (filepath.Clean dir0) 493 (log (CallStat (filepath.Clean dir0)) w)).1),
     (os.MkdirAll (filepath.Clean dir0) 493 (log (CallStat (filepath.Clean dir0)) w)).2).
Proof.
  intros Hl. unfold New. rewrite (Stat_err _ _ _ Hl).
  by destruct (os.MkdirAll _ 493 _).
Qed.

Lemma New_driver dir0 w :
  (New dir0 w).1.1 = {| mutexes := ∅; dir := filepath.Clean dir0 |}.
Proof.
  destruct (os.lookup_path w (filepath.Clean dir0)) as [e|[l n]] eqn:Hl.
  - by rewrite (New_missing _ _ _ Hl).
  - by rewrite (New_found _ _ _ _ Hl).
Qed.

(** X1.  Whatever [New] returns as error, it returns a driver for the
    cleaned path with an empty lock registry, and it has changed the file
    system at most by creating directories.  When it returns [nil] the
    store path names an entry afterwards, and a directory if nothing was
    there before: [New] has created it. *)
Theorem New_store_exists dir0 w :
  let out := New dir0 w in
  out.1.1 = {| mutexes := ∅; dir := filepath.Clean dir0 |} ∧
  (∀ k, fs out.2 !! k = fs w !! k ∨ (fs w !! k = None ∧ fs out.2 !! k = Some Dir)) ∧
  (out.1.2 = None →
     exists_at out.2 (dir out.1.1) ∧
     (¬ exists_at w (filepath.Clean dir0) →
        ∃ l, os.lookup_path out.2 (filepath.Clean dir0) = inr (l, Dir))).
Proof.
  intros out. subst out.
  destruct (os.lookup_path w (filepath.Clean dir0)) as [e|[l n]] eqn:Hl.
  - rewrite (New_missing _ _ _ Hl). cbn [fst snd].
    set (w1 := log (CallStat (filepath.Clean dir0)) w).
    split_and!; [done| |].
    + intros k. apply (MkdirAll_adds _ _ w1).
    + intros Hok.
      destruct (os.MkdirAll (filepath.Clean dir0) 493 w1) as [err w2] eqn:Hmk.
      simpl in *. subst err. apply MkdirAll_ok in Hmk as (l & Hd).
      split; [by exists l, Dir|]. intros _. by exists l.
  - rewrite (New_found _ _ _ _ Hl). cbn [fst snd].
    split_and!; [done|by left|]. intros _. split.
    + by exists l, n.
    + intros []. by exists l, n.
Qed.

(** X2.  [New] a second time on the same path, after a [New] that returned
    [nil], finds the store: it returns the same driver and [nil], makes one
    [Stat] call and changes nothing. *)
Theorem New_twice dir0 w :
  (New dir0 w).1.2 = None →
  New dir0 (New dir0 w).2 =
    (((New dir0 w).1.1, None), log (CallStat (filepath.Clean dir0)) (New dir0 w).2).
Proof.
  intros Hok.
  destruct (os.lookup_path w (filepath.Clean dir0)) as [e|[l n]] eqn:Hl.
  - revert Hok. rewrite (New_missing _ _ _ Hl). cbn [fst snd].
    destruct (os.MkdirAll _ 493 _) as [err w2] eqn:Hmk. simpl. intros ->.
    apply MkdirAll_ok in Hmk as (l & Hd). by rewrite (New_found _ _ _ _ Hd).
  - rewrite (New_found _ _ _ _ Hl). cbn [fst snd].
    by rewrite (New_found _ (log _ w) l n).
Qed.

Lemma New_twice_witness :
  New "db" (New "db" w0).2 =
    (((New "db" w0).1.1, None), log (CallStat (filepath.Clean "db")) (New "db" w0).2).
Proof. apply (New_twice "db" w0). vm_compute. reflexivity. Defined.

(** ** The layout of a store *)

Section layout.
Import filepath.

Lemma parent_elems_cons rt out c :
  parent_elems rt (c :: out) = parent_elems rt out ++ [c].
Proof. unfold parent_elems. simpl. by rewrite app_assoc. Qed.

(** The paths the driver makes from a cleaned store path and plain
    names. *)
Lemma layout d collection resources :
  dir d = Clean (dir d) → plain collection → plain resources →
  ∃ rt out, normal rt out ∧
    dir d = render rt out ∧
    collection_dir d collection = render rt (collection :: out) ∧
    fnlPath d collection resources
      = render rt ((resources +:+ ".json") :: collection :: out) ∧
    tmpPath d collection resources
      = render rt ((resources +:+ ".json.tmp") :: collection :: out) ∧
    record_path d collection resources
      = render rt (resources :: collection :: out) ∧
    delete_path d collection resources
      = render rt (resources :: collection :: out).
Proof.
  intros Hd Hc Hr.
  assert (Hd0 : dir d ≠ "") by (rewrite Hd; apply Clean_not_empty).
  pose proof (elems_of_normal (dir d)) as Hn.
  assert (Hcd : collection_dir d collection
                = render (rooted (dir d)) (collection :: elems_of (dir d))).
  { unfold collection_dir. by apply Join_one_plain. }
  assert (Hnc : normal (rooted (dir d)) (collection :: elems_of (dir d))).
  { by apply normal_cons_plain. }
  assert (Hcd0 : collection_dir d collection ≠ "").
  { rewrite Hcd. by apply render_not_empty. }
  assert (Hel : elems_of (collection_dir d collection)
                = collection :: elems_of (dir d)).
  { unfold elems_of at 1. rewrite Hcd, rooted_render by done.
    by apply clean_elems_render. }
  assert (Hrt : rooted (collection_dir d collection) = rooted (dir d)).
  { rewrite Hcd. by apply rooted_render. }
  assert (Hsub : ∀ x, plain x →
    Join [collection_dir d collection; x]
      = render (rooted (dir d)) (x :: collection :: elems_of (dir d))).
  { intros x Hx. rewrite Join_one_plain by done. by rewrite Hrt, Hel. }
  assert (Hrec : record_path d collection resources
                 = render (rooted (dir d)) (resources :: collection :: elems_of (dir d))).
  { unfold record_path. rewrite Join_assoc. by apply Hsub. }
  exists (rooted (dir d)), (elems_of (dir d)). split_and!; try done.
  - by rewrite <- Clean_render.
  - unfold fnlPath. apply Hsub. by apply plain_suffix.
  - unfold tmpPath, fnlPath. rewrite Hsub by (by apply plain_suffix).
    rewrite render_suffix. by rewrite string_app_assoc.
  - rewrite <- Hrec. unfold delete_path, delete_name, record_path.
    rewrite (Join_two_plain collection resources) by done.
    by rewrite !Join_cons_ne.
Qed.

(** A cleaned path resolves along its parent elements. *)
Lemma resolve_render w rt out l :
  normal rt out →
  os.walk (fs w) (if rt then [] else cwd w) (parent_elems rt out) = inr l →
  fs w !! l = Some Dir →
  os.resolve w (render rt out) = inr l.
Proof.
  intros Hn Hwalk Hl. unfold os.resolve.
  rewrite decide_False by (by apply render_not_empty).
  rewrite start_render, split_render by done.
  unfold parent_elems in Hwalk.
  destruct rt, out as [|x out]; simpl in *; try done.
  - unfold os.step in *. destruct (fs w !! []) as [[|]|] eqn:Hroot; try done.
    change (os.move [] "") with (@nil string) in *. by rewrite Hroot.
  - injection Hwalk as <-. unfold os.step. by rewrite Hl.
Qed.

Section below_store.

Variables (w : World) (rt : bool) (out ld : list string).
Hypothesis Hnormal : normal rt out.
Hypothesis Hstore : os.lookup_path w (render rt out) = inr (ld, Dir).

Lemma store_walk :
  os.walk (fs w) (if rt then [] else cwd w) (parent_elems rt out) = inr ld
  ∧ fs w !! ld = Some Dir.
Proof.
  apply lookup_path_inv in Hstore as [Hres Hl]. split; [|done].
  by apply walk_parent_elems.
Qed.

(** A collection of the store. *)
Lemma resolve_collection w' c :
  plain c → cwd w' = cwd w →
  (∀ k, fs w !! k = Some Dir → fs w' !! k = Some Dir) →
  os.resolve w' (render rt (c :: out)) = inr (c :: ld).
Proof.
  intros Hc Hcwd Hdirs. destruct store_walk as [Hwalk Hl].
  rewrite resolve_child by done. rewrite Hcwd.
  rewrite (walk_mono _ _ _ _ _ Hdirs Hwalk). by rewrite (Hdirs _ Hl).
Qed.

(** An entry of a collection of the store. *)
Lemma resolve_record w' c x :
  plain c → plain x → cwd w' = cwd w →
  (∀ k, fs w !! k = Some Dir → fs w' !! k = Some Dir) →
  os.resolve w' (render rt (x :: c :: out)) =
    match fs w' !! (c :: ld) with
    | Some Dir => inr (x :: c :: ld)
    | Some (File _) => inl ENOTDIR
    | None => inl ENOENT
    end.
Proof.
  intros Hc Hx Hcwd Hdirs. destruct store_walk as [Hwalk Hl].
  rewrite resolve_child by (done || by apply normal_cons_plain).
  rewrite Hcwd, parent_elems_cons, walk_app.
  rewrite (walk_mono _ _ _ _ _ Hdirs Hwalk). simpl. unfold os.step.
  rewrite (Hdirs _ Hl), move_plain by done. done.
Qed.

(** [MkdirAll] of a collection of the store creates the one directory, if
    no file is in the way. *)
Lemma MkdirAll_collection w1 c perm :
  plain c → cwd w1 = cwd w → fs w1 = fs w →
  (∀ data, fs w !! (c :: ld) ≠ Some (File data)) →
  os.MkdirAll (render rt (c :: out)) perm w1 =
    (None, set_fs (log (CallMkdirAll (render rt (c :: out)) perm) w1)
             (<[c :: ld := Dir]> (fs w))).
Proof.
  intros Hc Hcwd Hfs Hfile. destruct store_walk as [Hwalk Hl].
  assert (Hnc : normal rt (c :: out)) by (by apply normal_cons_plain).
  unfold os.MkdirAll. rewrite decide_False by (by apply render_not_empty).
  unlog. rewrite start_render, Hcwd, Hfs by done.
  rewrite (walk_start_dir _ _ _ _ Hwalk Hl).
  rewrite split_render_child by done.
  rewrite (mkdir_walk_walk _ _ _ _ _ Hwalk Hl). simpl.
  rewrite move_plain by done.
  destruct (fs w !! (c :: ld)) as [[data|]|] eqn:Hcl.
  - by destruct (Hfile data).
  - by rewrite insert_id.
  - by rewrite decide_True.
Qed.

End below_store.

End layout.

(** ** [Write]: when it succeeds, and what it can change *)

Lemma cons_neq {A} (x : A) (l : list A) : x :: l ≠ l.
Proof. intros Heq. apply (f_equal length) in Heq. simpl in Heq. lia. Qed.


Lemma string_app_inj_l (a s t : string) : a +:+ s = a +:+ t → s = t.
Proof.
  induction a as [|c a IH]; [done|]. rewrite !string_app_cons.
  intros [= Heq]. by apply IH.
Qed.

Lemma string_snoc_inj (a b : string) (c1 c2 : ascii) :
  a +:+ String c1 "" = b +:+ String c2 "" → c1 = c2.
Proof.
  revert b. induction a as [|x a IH]; intros [|y b]; rewrite ?string_app_cons.
  - by intros [= ->].
  - change ("" +:+ String c1 "") with (String c1 "").
    intros [= _ Hb]. by destruct b.
  - change ("" +:+ String c2 "") with (String c2 "").
    intros [= _ Ha]. by destruct a.
  - intros [= _ Hab]. by eapply IH.
Qed.

(** The file of one record is never the temporary file of another. *)
Lemma json_not_tmp (x y : string) : x +:+ ".json" ≠ y +:+ ".json.tmp".
Proof.
  intros Heq.
  assert (Hlast : "n"%char = "p"%char); [|done].
  apply (string_snoc_inj (x +:+ ".jso") (y +:+ ".json.tm")).
  rewrite !string_app_assoc. exact Heq.
Qed.

(** The final and the temporary path, with the name of the file. *)
Lemma record_paths_named d collection resources :
  let y := last_elem resources +:+ ".json" in
  ∃ rt out, normal rt out ∧ plain y ∧ plain (y +:+ ".tmp") ∧
    fnlPath d collection resources = filepath.render rt (y :: out) ∧
    tmpPath d collection resources = filepath.render rt ((y +:+ ".tmp") :: out).
Proof.
  intros y. unfold tmpPath, fnlPath.
  destruct (Join_record_shape (collection_dir d collection) resources ".json")
    as (rt & out & Hn & Hy & ->); [done|simpl; lia|].
  exists rt, out. split_and!; [done|done| |done|by rewrite render_suffix].
  by apply plain_suffix.
Qed.

Section write_more.
Context {V : Type} `{Codec V}.

(** The body of [Write] after the checks of its arguments. *)
Lemma Write_unfold d collection resources v w :
  collection ≠ "" → resources ≠ "" →
  Write d collection resources v w =
    let g := getOrCreateMutex d collection w in
    let mk := os.MkdirAll (collection_dir d collection) 493 g.2 in
    match mk.1 with
    | Some e => ((Some e, g.1.2), mk.2)
    | None =>
        match MarshalIndent v "" tab with
        | (_, Some e) => ((Some e, g.1.2), mk.2)
        | (b, None) =>
            let wf := os.WriteFile (tmpPath d collection resources)
                        (b +:+ newline) 420 mk.2 in
            match wf.1 with
            | Some e => ((Some e, g.1.2), wf.2)
            | None =>
                let rn := os.Rename (tmpPath d collection resources)
                            (fnlPath d collection resources) wf.2 in
                ((rn.1, g.1.2), rn.2)
            end
        end
    end.
Proof.
  intros Hc Hr. cbv zeta. unfold Write, tmpPath, fnlPath, collection_dir.
  rewrite !decide_False by done.
  pose proof (getOrCreateMutex_world d collection w) as (_ & _ & _ & Hdir).
  destruct (getOrCreateMutex d collection w) as [[m d1] w1]. simpl in Hdir.
  rewrite Hdir. cbn [fst snd].
  destruct (os.MkdirAll _ 493 w1) as [[e|] w2]; [done|]. cbn [fst snd].
  destruct (MarshalIndent v "" tab) as [b [e|]]; [done|].
  destruct (os.WriteFile _ _ 420 w2) as [[e|] w3]; [done|]. cbn [fst snd].
  by destruct (os.Rename _ _ w3) as [e w4].
Qed.

(** [Write] in a store that is a directory, with plain names, up to its
    last step: the collection directory is there, the temporary file is
    written, and the result is the one of [Rename]. *)
Lemma Write_plain_steps d collection resources v w ld b :
  dir d = filepath.Clean (dir d) → plain collection → plain resources →
  os.lookup_path w (dir d) = inr (ld, Dir) →
  (∀ data, fs w !! (collection :: ld) ≠ Some (File data)) →
  fs w !! ((resources +:+ ".json.tmp") :: collection :: ld) ≠ Some Dir →
  MarshalIndent v "" tab = (b, None) →
  ∃ w3,
    Write d collection resources v w
      = (((os.Rename (tmpPath d collection resources)
             (fnlPath d collection resources) w3).1,
          (getOrCreateMutex d collection w).1.2),
         (os.Rename (tmpPath d collection resources)
            (fnlPath d collection resources) w3).2) ∧
    cwd w3 = cwd w ∧
    fs w3 = <[(resources +:+ ".json.tmp") :: collection :: ld := File (b +:+ newline)]>
              (<[collection :: ld := Dir]> (fs w)) ∧
    os.lookup_path w3 (tmpPath d collection resources)
      = inr ((resources +:+ ".json.tmp") :: collection :: ld, File (b +:+ newline)) ∧
    os.resolve w3 (fnlPath d collection resources)
      = inr ((resources +:+ ".json") :: collection :: ld).
Proof.
  intros Hd Hc Hr Hstore Hcoll Htmp0 Hjs.
  destruct (layout d collection resources Hd Hc Hr)
    as (rt & out & Hn & HD & Hcd & Hfnl & Htmp & _).
  rewrite HD in Hstore.
  pose proof Hc as (_ & Hc0 & _). pose proof Hr as (_ & Hr0 & _).
  assert (Hrj : plain (resources +:+ ".json")) by (by apply plain_suffix).
  assert (Hrt : plain (resources +:+ ".json.tmp")) by (by apply plain_suffix).
  pose proof (getOrCreateMutex_world d collection w) as (Hfs & Hcwd & _ & _).
  rewrite Write_unfold by done. cbv zeta.
  set (g := getOrCreateMutex d collection w) in *.
  rewrite Hcd, Htmp, Hfnl.
  set (lc := collection :: ld).
  set (lt := (resources +:+ ".json.tmp") :: lc).
  fold lc lt in Hcoll, Htmp0.
  set (data := b +:+ newline).
  rewrite (MkdirAll_collection w rt out ld Hn Hstore g.2 collection 493) by done.
  cbn [fst snd]. rewrite Hjs. fold lc data.
  set (m2 := <[lc := Dir]> (fs w)).
  set (w2 := set_fs _ m2).
  assert (Hlt_lc : lt ≠ lc) by apply cons_neq.
  assert (Hdirs2 : ∀ k, fs w !! k = Some Dir → m2 !! k = Some Dir).
  { intros k Hk. subst m2. destruct (decide (k = lc)) as [->|Hne].
    - by rewrite lookup_insert_eq.
    - by rewrite lookup_insert_ne. }
  assert (Hres2 : os.resolve w2 (filepath.render rt ((resources +:+ ".json.tmp")
                                   :: collection :: out)) = inr lt).
  { rewrite (resolve_record w rt out ld Hn Hstore w2) by done.
    fold lc. subst w2 m2. simpl. by rewrite lookup_insert_eq. }
  rewrite (WriteFile_succeeds _ _ _ w2 lt); [|done|].
  2:{ subst w2 m2. simpl. by rewrite lookup_insert_ne. }
  cbn [fst snd].
  set (m3 := <[lt := File data]> (fs w2)).
  set (w3 := set_fs _ m3).
  assert (Hdirs3 : ∀ k, fs w !! k = Some Dir → fs w3 !! k = Some Dir).
  { intros k Hk. subst w3 m3. simpl. rewrite lookup_insert_ne.
    - by apply Hdirs2.
    - intros <-. by rewrite Hk in Htmp0. }
  assert (Hlc3 : fs w3 !! lc = Some Dir).
  { subst w3 m3 w2 m2. simpl. rewrite lookup_insert_ne by done.
    by rewrite lookup_insert_eq. }
  exists w3. split_and!; [done|done|done| |].
  - apply lookup_path_inv. split.
    + rewrite (resolve_record w rt out ld Hn Hstore w3) by done.
      fold lc. by rewrite Hlc3.
    + subst w3 m3. simpl. by rewrite lookup_insert_eq.
  - rewrite (resolve_record w rt out ld Hn Hstore w3) by done.
    fold lc. by rewrite Hlc3.
Qed.

(** [Write] in a store that is a directory, with plain names: the whole
    call. *)
Lemma Write_plain d collection resources v w ld b :
  dir d = filepath.Clean (dir d) → plain collection → plain resources →
  os.lookup_path w (dir d) = inr (ld, Dir) →
  (∀ data, fs w !! (collection :: ld) ≠ Some (File data)) →
  fs w !! ((resources +:+ ".json") :: collection :: ld) ≠ Some Dir →
  fs w !! ((resources +:+ ".json.tmp") :: collection :: ld) ≠ Some Dir →
  MarshalIndent v "" tab = (b, None) →
  ∃ w', Write d collection resources v w
          = ((None, (getOrCreateMutex d collection w).1.2), w') ∧
    cwd w' = cwd w ∧
    fs w' =
      <[(resources +:+ ".json") :: collection :: ld := File (b +:+ newline)]>
        (delete ((resources +:+ ".json.tmp") :: collection :: ld)
           (<[collection :: ld := Dir]> (fs w))).
Proof.
  intros Hd Hc Hr Hstore Hcoll Hfnl0 Htmp0 Hjs.
  destruct (Write_plain_steps d collection resources v w ld b)
    as (w3 & -> & Hcwd3 & Hfs3 & Hold & Hnew); [done..|].
  rewrite (Rename_file_succeeds _ _ w3 _ _ _ Hold Hnew).
  - eexists. split; [reflexivity|]. split; [done|]. simpl.
    by rewrite Hfs3, delete_insert_eq.
  - rewrite Hfs3.
    rewrite lookup_insert_ne by (intros [= Heq]; by apply string_app_inj_l in Heq).
    by rewrite lookup_insert_ne by (symmetry; apply cons_neq).
Qed.



(** What any [Write] can change: it creates directories, and it touches the
    entries named as its temporary and its final file, neither of which is
    or becomes a directory; the final one only when it returns [nil]. *)
Lemma Write_changes d collection resources v w :
  let out := Write d collection resources v w in
  let y := last_elem resources +:+ ".json" in
  cwd out.2 = cwd w ∧
  ∀ k,
    fs out.2 !! k = fs w !! k
    ∨ (fs w !! k = None ∧ fs out.2 !! k = Some Dir)
    ∨ (∃ cur, k = (y +:+ ".tmp") :: cur) ∧
       fs w !! k ≠ Some Dir ∧ fs out.2 !! k ≠ Some Dir
    ∨ out.1.1 = None ∧ (∃ cur, k = y :: cur) ∧
       os.resolve out.2 (fnlPath d collection resources) = inr k ∧
       fs w !! k ≠ Some Dir ∧ fs out.2 !! k ≠ Some Dir.
Proof.
  intros out y. subst out.
  destruct (decide (collection = "")) as [->|Hc].
  { split; [done|]. intros k. by left. }
  destruct (decide (resources = "")) as [->|Hr].
  { unfold Write. rewrite decide_False by done. simpl.
    split; [done|]. intros k. by left. }
  destruct (record_paths_named d collection resources)
    as (rt & outs & Hn & Hy & Hyt & Hfnl & Htmp). fold y in Hy, Hyt, Hfnl, Htmp.
  rewrite Write_unfold by done. cbv zeta.
  pose proof (getOrCreateMutex_world d collection w) as (Hfs & Hcwd & _ & _).
  set (g := getOrCreateMutex d collection w) in *.
  pose proof (MkdirAll_world (collection_dir d collection) 493 g.2) as (Hcwd2 & _).
  assert (Hadd : ∀ k,
    fs (os.MkdirAll (collection_dir d collection) 493 g.2).2 !! k = fs w !! k
    ∨ (fs w !! k = None ∧
       fs (os.MkdirAll (collection_dir d collection) 493 g.2).2 !! k = Some Dir)).
  { intros k. rewrite <- Hfs. apply MkdirAll_adds. }
  destruct (os.MkdirAll (collection_dir d collection) 493 g.2) as [[e|] w2];
    cbn [fst snd] in *.
  { split; [by rewrite Hcwd2|]. intros k. destruct (Hadd k); by eauto. }
  destruct (MarshalIndent v "" tab) as [b [e|]]; cbn [fst snd].
  { split; [by rewrite Hcwd2|]. intros k. destruct (Hadd k); by eauto. }
  assert (Hnd : ∀ k, fs w2 !! k ≠ Some Dir → fs w !! k ≠ Some Dir).
  { intros k Hk. destruct (Hadd k) as [<-|[-> _]]; done. }
  set (data := b +:+ newline).
  destruct (os.WriteFile (tmpPath d collection resources) data 420 w2)
    as [e w3] eqn:Hwf.
  apply WriteFile_inv in Hwf as [Hcwd3 [[[e' ->] Hfs3]|(-> & lt & Hrt & Hlt & Hfs3)]];
    cbn [fst snd].
  { split; [by rewrite Hcwd3, Hcwd2|]. intros k. rewrite Hfs3. destruct (Hadd k); by eauto. }
  assert (Hold : os.lookup_path w3 (tmpPath d collection resources)
                 = inr (lt, File data)).
  { apply lookup_path_inv. split.
    - apply (resolve_mono w2); [done| |done]. intros k Hk. rewrite Hfs3.
      rewrite lookup_insert_ne; [done|]. by intros ->.
    - by rewrite Hfs3, lookup_insert_eq. }
  assert (Hlt_shape : ∃ cur, lt = (y +:+ ".tmp") :: cur).
  { rewrite Htmp in Hrt.
    apply resolve_child_inv in Hrt as (cur & -> & _); [|done..]. by exists cur. }
  destruct (os.Rename (tmpPath d collection resources)
              (fnlPath d collection resources) w3) as [e w4] eqn:Hrn.
  apply (Rename_file_inv _ _ _ _ _ _ _ Hold) in Hrn
    as [Hcwd4 [[[e' ->] Hfs4]|(-> & lf & Hrf & Hlf & Hfs4)]]; cbn [fst snd].
  - split; [by rewrite Hcwd4, Hcwd3, Hcwd2|]. intros k. rewrite Hfs4, Hfs3.
    destruct (decide (k = lt)) as [->|Hne].
    + right. right. left. split; [done|].
      split; [by apply Hnd|]. by rewrite lookup_insert_eq.
    + rewrite lookup_insert_ne by done. destruct (Hadd k); by eauto.
  - assert (Hlf_shape : ∃ cur, lf = y :: cur).
    { rewrite Hfnl in Hrf. apply (resolve_child_inv w3) in Hrf as (cur & -> & _);
        [|done..]. by exists cur. }
    assert (Hne : lf ≠ lt).
    { destruct Hlt_shape as [c1 ->], Hlf_shape as [c2 ->].
      intros [= Heq _]. symmetry in Heq. by apply string_app_ne in Heq. }
    split; [by rewrite Hcwd4, Hcwd3, Hcwd2|]. intros k. rewrite Hfs4, Hfs3.
    destruct (decide (k = lf)) as [->|Hnf].
    + right. right. right. split; [done|]. split; [done|]. split.
      { apply (resolve_mono w3); [done| |done]. intros k' Hk'. rewrite Hfs4.
        rewrite lookup_insert_ne by (by intros ->).
        rewrite lookup_delete_ne; [done|]. intros ->.
        apply lookup_path_inv in Hold as [_ Hfile]. by rewrite Hfile in Hk'. }
      rewrite lookup_insert_eq. split; [|done].
      apply Hnd. rewrite Hfs3 in Hlf. by rewrite lookup_insert_ne in Hlf.
    + rewrite lookup_insert_ne by done.
      destruct (decide (k = lt)) as [->|Hnt].
      * right. right. left. split; [done|].
        split; [by apply Hnd|]. by rewrite lookup_delete_eq.
      * rewrite lookup_delete_ne, lookup_insert_ne by done.
        destruct (Hadd k); by eauto.
Qed.

(** X5.  Whatever it returns, [Write] removes or replaces no directory,
    and it changes, removes or creates no file but ones named
    [<name>.json] and [<name>.json.tmp], where [<name>] is the last element
    of the record name. *)
Theorem Write_frame d collection resources v w :
  let out := Write d collection resources v w in
  let y := last_elem resources +:+ ".json" in
  (∀ k, fs w !! k = Some Dir → fs out.2 !! k = Some Dir) ∧
  (∀ k data, fs w !! k = Some (File data) →
     fs out.2 !! k = Some (File data)
     ∨ ∃ cur, k = y :: cur ∨ k = (y +:+ ".tmp") :: cur) ∧
  (∀ k data, fs out.2 !! k = Some (File data) →
     fs w !! k = Some (File data)
     ∨ ∃ cur, k = y :: cur ∨ k = (y +:+ ".tmp") :: cur).
Proof.
  intros out y.
  destruct (Write_changes d collection resources v w) as [_ Hch].
  fold out y in Hch. split_and!.
  - intros k Hk.
    destruct (Hch k) as [->|[[Hn _]|[(_ & Hd & _)|(_ & _ & _ & Hd & _)]]];
      try done. by rewrite Hk in Hn.
  - intros k data Hk.
    destruct (Hch k) as [->|[[Hn _]|[([cur ->] & _)|(_ & [cur ->] & _)]]].
    + by left.
    + by rewrite Hk in Hn.
    + right. exists cur. by right.
    + right. exists cur. by left.
  - intros k data Hk.
    destruct (Hch k) as [<-|[[_ Hd]|[([cur ->] & _)|(_ & [cur ->] & _)]]].
    + by left.
    + by rewrite Hk in Hd.
    + right. exists cur. by right.
    + right. exists cur. by left.
Qed.

(** X6.  A [Write] that returns an error leaves the record as it was: the
    file that was at the final path is still there with the content it
    had, and for a non-empty collection name and a record name whose last
    element is plain, [Read] still decodes that content. *)
Theorem Write_error_keeps_record d collection resources v w e l data :
  (Write d collection resources v w).1.1 = Some e →
  os.lookup_path w (fnlPath d collection resources) = inr (l, File data) →
  os.lookup_path (Write d collection resources v w).2
    (fnlPath d collection resources) = inr (l, File data) ∧
  ∀ dst, collection ≠ "" → plain (last_elem resources) →
    (Read (Write d collection resources v w).1.2 collection resources dst
       (Write d collection resources v w).2).1 = Unmarshal data dst.
Proof.
  intros Herr Hl.
  destruct (Write_changes d collection resources v w) as [Hcwd Hch].
  cbv zeta in Hch.
  destruct (record_paths_named d collection resources)
    as (rt & outs & Hn & Hy & Hyt & Hfnl & _). cbv zeta in Hy, Hyt, Hfnl.
  assert (Hl' : os.lookup_path (Write d collection resources v w).2
                  (fnlPath d collection resources) = inr (l, File data)).
  { apply lookup_path_inv in Hl as [Hres Hfile]. apply lookup_path_inv. split.
    - apply (resolve_mono w); [done| |done]. intros k Hk.
      destruct (Hch k) as [->|[[Hnone _]|[(_ & Hd & _)|(_ & _ & _ & Hd & _)]]];
        try done. by rewrite Hk in Hnone.
    - destruct (Hch l) as [->|[[Hnone _]|[([cur ->] & _)|(Hok & _)]]].
      + done.
      + by rewrite Hfile in Hnone.
      + rewrite Hfnl in Hres.
        apply resolve_child_inv in Hres as (c2 & Heq & _); [|done..].
        injection Heq as Heq _. by apply string_app_ne in Heq.
      + by rewrite Herr in Hok. }
  split; [done|]. intros dst Hc Hr.
  destruct (Write d collection resources v w) as [[e' d'] w'] eqn:Hw.
  cbn [fst snd] in *.
  apply (Read_existing _ _ _ _ _ l); [done..|].
  pose proof (Write_dir _ _ _ _ _ _ _ _ Hw) as Hdir.
  unfold fnlPath, collection_dir in *. by rewrite Hdir.
Qed.

End write_more.



Lemma Write_error_keeps_record_witness :
  os.lookup_path (Write db "users" "John" Chan w_users).2
    (fnlPath db "users" "John")
    = inr (["John.json"; "users"; "db"; "home"], File (encoded "John")) ∧
  ∀ dst, "users" ≠ "" → plain (last_elem "John") →
    (Read (Write db "users" "John" Chan w_users).1.2 "users" "John" dst
       (Write db "users" "John" Chan w_users).2).1
    = Unmarshal (encoded "John") dst.
Proof.
  apply (Write_error_keeps_record db "users" "John" Chan w_users
           (JsonError "json: unsupported type: chan int")).
  - vm_compute. reflexivity.
  - vm_compute. reflexivity.
Defined.

(** ** [ReadAll] after [Write] *)


(** [ReadAll] of a collection that holds files only. *)
Lemma ReadAll_files d collection w l :
  collection ≠ "" → valid_fs (fs w) →
  os.lookup_path w (collection_dir d collection) = inr (l, Dir) →
  (∀ name n, fs w !! (name :: l) = Some n → ∃ data, n = File data) →
  (ReadAll d collection w).1 = (content (fs w) l <$> os.children (fs w) l, None).
Proof.
  intros Hc Hvalid Hl Hfiles.
  destruct (collection_dir_clean d collection Hc) as (rt & outs & Hn & Hcd & Hjoin).
  pose proof (proj1 (lookup_path_inv _ _ _ _) Hl) as [Hres Hdir].
  unfold ReadAll. rewrite decide_False by done.
  fold (collection_dir d collection). rewrite stat_spec, Hl. cbv zeta.
  unfold os.ReadDir. unlog. rewrite Hl.
  rewrite (read_files_all w (collection_dir d collection) l rt outs); try done.
  - by apply children_valid.
  - apply Forall_forall. intros e (n & Hen & _)%children_elem.
    destruct (Hfiles _ _ Hen) as [data ->]. by eexists.
Qed.

Section read_all_after.
Context {V : Type} `{Codec V}.

(** X7.  After a [Write] of a plain record name that returned [nil], in a
    file system with plain names, the collection directory exists and holds
    the record file; and when the directory holds files only, [ReadAll] of
    the collection returns the contents of all of them and no error, the
    bytes just written among them. *)
Theorem ReadAll_after_Write d collection resources v w d' w' :
  plain resources → valid_world w →
  Write d collection resources v w = ((None, d'), w') →
  ∃ l b,
    MarshalIndent v "" tab = (b, None) ∧
    os.lookup_path w' (collection_dir d collection) = inr (l, Dir) ∧
    fs w' !! ((resources +:+ ".json") :: l) = Some (File (b +:+ newline)) ∧
    ((∀ name n, fs w' !! (name :: l) = Some n → ∃ data, n = File data) →
       (ReadAll d' collection w').1
         = (content (fs w') l <$> os.children (fs w') l, None) ∧
       (b +:+ newline) ∈ (ReadAll d' collection w').1.1).
Proof.
  intros Hr Hvalid Hw.
  pose proof (Write_valid d collection resources v w Hvalid) as [Hvalid' _].
  rewrite Hw in Hvalid'. cbn [snd] in Hvalid'.
  pose proof (Write_dir _ _ _ _ _ _ _ _ Hw) as Hdir.
  pose proof (Write_ok_inv _ _ _ _ _ _ _ Hw) as (Hc & _).
  apply Write_ok_effect in Hw as (b & lf & Hjs & _ & Hfnl & _).
  destruct (collection_dir_clean d collection Hc) as (rt & outs & Hn & Hcd & Hjoin).
  assert (Hrj : plain (resources +:+ ".json")) by (by apply plain_suffix).
  unfold fnlPath in Hfnl. rewrite Hjoin in Hfnl by done.
  apply lookup_path_inv in Hfnl as [Hres Hfile].
  apply resolve_child_inv in Hres as (cur & -> & Hcur & Hwalk); [|done..].
  assert (Hl : os.lookup_path w' (collection_dir d collection) = inr (cur, Dir)).
  { apply lookup_path_inv. split; [|done]. rewrite Hcd. by apply resolve_render. }
  exists cur, b. split_and!; [done..|]. intros Hfiles.
  assert (Hcd' : collection_dir d' collection = collection_dir d collection).
  { unfold collection_dir. by rewrite Hdir. }
  assert (Hall : (ReadAll d' collection w').1
            = (content (fs w') cur <$> os.children (fs w') cur, None)).
  { apply ReadAll_files; [done..|by rewrite Hcd'|done]. }
  split; [done|]. rewrite Hall. simpl.
  apply children_complete in Hfile as Hin.
  apply list_elem_of_fmap in Hin as (e & Hname & Hin).
  apply list_elem_of_fmap. exists e. split; [|done].
  unfold content. by rewrite <- Hname, Hfile.
Qed.

(** X8.  [ReadAll] of a collection whose directory exists and is empty
    returns no record and no error. *)
Theorem ReadAll_empty_collection d collection w l :
  collection ≠ "" →
  os.lookup_path w (collection_dir d collection) = inr (l, Dir) →
  (∀ name, fs w !! (name :: l) = None) →
  (ReadAll d collection w).1 = (nil_records, None) ∧
  calls (ReadAll d collection w).2
    = calls w ++ [CallStat (collection_dir d collection);
                  CallReadDir (collection_dir d collection)].
Proof.
  intros Hc Hl Hempty.
  assert (Hch : os.children (fs w) l = []).
  { destruct (os.children (fs w) l) as [|e es] eqn:Hes; [done|].
    assert (Hin : e ∈ os.children (fs w) l) by (rewrite Hes; by left).
    apply children_elem in Hin as (n & Hn & _). by rewrite Hempty in Hn. }
  unfold ReadAll. rewrite decide_False by done.
  fold (collection_dir d collection). rewrite stat_spec, Hl. cbv zeta.
  unfold os.ReadDir. unlog. rewrite Hl, Hch. simpl.
  by rewrite <- app_assoc.
Qed.

End read_all_after.

Lemma ReadAll_empty_collection_witness :
  (ReadAll db "users" w_empty).1 = (nil_records, None) ∧
  calls (ReadAll db "users" w_empty).2
    = calls w_empty ++ [CallStat (collection_dir db "users");
                        CallReadDir (collection_dir db "users")].
Proof.
  apply (ReadAll_empty_collection db "users" w_empty ["users"; "db"; "home"]).
  - done.
  - vm_compute. reflexivity.
  - intros name. cbv [w_empty w_db w0 fs].
    rewrite !lookup_insert_ne by done. by apply lookup_singleton_ne.
Defined.

Lemma ReadAll_after_Write_witness :
  ∃ l b,
    MarshalIndent (Str "Paul") "" tab = (b, None) ∧
    os.lookup_path (Write db "users" "Paul" (Str "Paul") w_users).2
      (collection_dir db "users") = inr (l, Dir) ∧
    fs (Write db "users" "Paul" (Str "Paul") w_users).2
      !! (("Paul" +:+ ".json") :: l) = Some (File (b +:+ newline)) ∧
    ((∀ name n, fs (Write db "users" "Paul" (Str "Paul") w_users).2 !! (name :: l)
                = Some n → ∃ data, n = File data) →
       (ReadAll (Write db "users" "Paul" (Str "Paul") w_users).1.2 "users"
          (Write db "users" "Paul" (Str "Paul") w_users).2).1
         = (content (fs (Write db "users" "Paul" (Str "Paul") w_users).2) l
              <$> os.children (fs (Write db "users" "Paul" (Str "Paul") w_users).2) l,
            None) ∧
       (b +:+ newline)
         ∈ (ReadAll (Write db "users" "Paul" (Str "Paul") w_users).1.2 "users"
              (Write db "users" "Paul" (Str "Paul") w_users).2).1.1).
Proof.
  apply (ReadAll_after_Write db "users" "Paul" (Str "Paul") w_users).
  - by_compute.
  - by_compute.
  - vm_compute. reflexivity.
Defined.

(** ** More on [Delete] *)

(** For names that are relative paths of plain elements [Delete] and
    [Read] look at the same bare path. *)
Lemma delete_path_record d collection resources :
  plain_path collection → plain_path resources →
  delete_path d collection resources = record_path d collection resources.
Proof.
  intros Hc Hr. unfold delete_path, delete_name, record_path.
  rewrite (Join_two_plain_path collection resources) by done.
  assert (Hc0 : collection ≠ "").
  { apply last_elem_not_empty. by destruct (plain_path_last _ Hc) as (_ & ? & _). }
  destruct (decide (dir d = "")) as [->|Hd].
  - rewrite !Join_cons_empty.
    rewrite (Join_cons_ne collection) by done.
    rewrite Join_cons_ne by (by apply app_not_empty). done.
  - by rewrite !Join_cons_ne.
Qed.

(** [Delete] of a record whose file exists, when the bare path names no
    entry or a file. *)
Lemma Delete_record_file d collection resources w l data :
  let target := delete_path d collection resources in
  os.lookup_path w (target +:+ ".json") = inr (l, File data) →
  absent_at w target ∨ (∃ l' data', os.lookup_path w target = inr (l', File data')) →
  ∃ w', Delete d collection resources w
          = ((None, (getOrCreateMutex d collection w).1.2), w')
    ∧ cwd w' = cwd w ∧ fs w' = delete l (fs w).
Proof.
  intros target Hjson Hbare.
  pose proof (getOrCreateMutex_world d collection w) as (Hfs & Hcwd & _ & _).
  assert (Hlk : ∀ p, os.lookup_path (getOrCreateMutex d collection w).2 p
                     = os.lookup_path w p).
  { intros p. by apply lookup_path_ext. }
  assert (Hrm : ∀ w1, fs w1 = fs w → cwd w1 = cwd w →
            os.RemoveAll (target +:+ ".json") w1
              = (None, set_fs (log (CallRemoveAll (target +:+ ".json")) w1)
                         (delete l (fs w)))).
  { intros w1 Hfs1 Hcwd1. rewrite <- Hfs1. eapply RemoveAll_file.
    - by rewrite (lookup_path_ext w1 w).
    - by destruct target.
    - rewrite last_elem_suffix by done. apply json_not_dot. }
  rewrite Delete_spec. cbv zeta. fold target.
  rewrite stat_spec, !Hlk.
  set (g := getOrCreateMutex d collection w) in *.
  destruct Hbare as [Habs|(l' & data' & Hfile)].
  - unfold absent_at in Habs. rewrite Habs, Hjson. simpl.
    rewrite Hrm by done. by eexists.
  - rewrite Hfile. simpl. rewrite Hrm by done. by eexists.
Qed.

Section delete_more.
Context {V : Type} `{Codec V}.


(** X10.  For names that are relative paths of plain elements: when the
    record file exists and no directory sits at the bare path of the
    record, [Delete] returns [nil] and removes the file and nothing else,
    and [Read] of that record then returns an error that [os.IsNotExist]
    accepts and leaves the destination as it was. *)
Theorem Read_after_Delete d collection resources w l data :
  plain_path collection → plain_path resources →
  os.lookup_path w (fnlPath d collection resources) = inr (l, File data) →
  (∀ l', os.lookup_path w (record_path d collection resources) ≠ inr (l', Dir)) →
  let out := Delete d collection resources w in
  out.1.1 = None ∧ fs out.2 = delete l (fs w) ∧
  ∀ dst : V, ∃ e,
    (Read out.1.2 collection resources dst out.2).1 = (dst, Some e) ∧
    os.IsNotExist (Some e) = true.
Proof.
  intros Hc Hr Hjson Hbare out.
  pose proof (plain_path_last _ Hr) as Hy.
  assert (Hc0 : collection ≠ "").
  { apply last_elem_not_empty. by destruct (plain_path_last _ Hc) as (_ & ? & _). }
  assert (Hr0 : resources ≠ "").
  { apply last_elem_not_empty. by destruct Hy as (_ & ? & _). }
  destruct (record_shape d collection resources Hy)
    as (rt & outs & y & Hn & Hpy & Hpyj & Hrec & Hfnl).
  pose proof (proj1 (lookup_path_inv _ _ _ _) Hjson) as [Hres Hfile].
  pose proof Hres as Hres'. rewrite Hfnl in Hres'.
  apply resolve_child_inv in Hres' as (cur & -> & Hcur & Hwalk); [|done..].
  assert (Hrec_res : os.resolve w (record_path d collection resources)
                     = inr (y :: cur)).
  { rewrite Hrec, resolve_child by done. by rewrite Hwalk, Hcur. }
  assert (Hne : y :: cur ≠ (y +:+ ".json") :: cur).
  { intros [= Heq]. symmetry in Heq. by apply string_app_ne in Heq. }
  assert (Htarget : absent_at w (delete_path d collection resources)
            ∨ ∃ l' data', os.lookup_path w (delete_path d collection resources)
                          = inr (l', File data')).
  { rewrite delete_path_record by done.
    unfold absent_at, os.lookup_path. rewrite Hrec_res.
    destruct (fs w !! (y :: cur)) as [[data'|]|] eqn:Hb; [by eauto| |by left].
    destruct (Hbare (y :: cur)). apply lookup_path_inv. by split. }
  assert (Hjson' : os.lookup_path w (delete_path d collection resources +:+ ".json")
                   = inr ((y +:+ ".json") :: cur, File data)).
  { by rewrite delete_path_json. }
  destruct (Delete_record_file d collection resources w _ _ Hjson' Htarget)
    as (w' & Hdelete & Hcwd' & Hfs').
  pose proof (getOrCreateMutex_world d collection w) as (_ & _ & _ & Hdir).
  subst out. rewrite Hdelete. cbn [fst snd].
  set (d' := (getOrCreateMutex d collection w).1.2) in *.
  split_and!; [done..|]. intros dst.
  assert (Hrec' : record_path d' collection resources
                  = record_path d collection resources).
  { unfold record_path. by rewrite Hdir. }
  assert (Hdirs : ∀ k, fs w !! k = Some Dir → fs w' !! k = Some Dir).
  { intros k Hk. rewrite Hfs'. rewrite lookup_delete_ne; [done|].
    intros <-. by rewrite Hfile in Hk. }
  assert (Hgone : os.lookup_path w' (record_path d collection resources +:+ ".json")
                  = inl ENOENT).
  { rewrite record_path_json by done. unfold os.lookup_path.
    rewrite (resolve_mono w w' _ _ Hcwd' Hdirs Hres).
    by rewrite Hfs', lookup_delete_eq. }
  rewrite Read_spec by done. cbv zeta. rewrite Hrec'.
  unfold os.lookup_path at 1.
  rewrite (resolve_mono w w' _ _ Hcwd' Hdirs Hrec_res).
  rewrite Hfs', lookup_delete_ne by done.
  destruct (fs w !! (y :: cur)) as [[data'|]|] eqn:Hb.
  - unfold read_json, os.ReadFile. unlog. rewrite Hgone. by eexists.
  - destruct (Hbare (y :: cur)). apply lookup_path_inv. by split.
  - rewrite Hgone. by eexists.
Qed.

End delete_more.


Lemma Read_after_Delete_witness :
  let out := Delete db "users" "John" w_users in
  out.1.1 = None ∧
  fs out.2 = delete ["John.json"; "users"; "db"; "home"] (fs w_users) ∧
  ∀ dst : value, ∃ e,
    (Read out.1.2 "users" "John" dst out.2).1 = (dst, Some e) ∧
    os.IsNotExist (Some e) = true.
Proof.
  apply (Read_after_Delete db "users" "John" w_users
           ["John.json"; "users"; "db"; "home"] (encoded "John")).
  - by_compute.
  - by_compute.
  - vm_compute. reflexivity.
  - intros l'. vm_compute. discriminate.
Defined.

Section delete_edge.

(** X11.  When the bare path of the target is a regular file and there is
    no file with the [.json] suffix, [Delete] returns [nil] and removes
    nothing: it asks [RemoveAll] for the [.json] path, which does not
    exist.  The file at the bare path stays. *)
Theorem Delete_bare_file d collection resources w l data :
  let target := delete_path d collection resources in
  os.lookup_path w target = inr (l, File data) →
  absent_at w (target +:+ ".json") →
  let out := Delete d collection resources w in
  out.1.1 = None ∧ fs out.2 = fs w ∧
  calls out.2 = calls w ++ [CallStat target; CallRemoveAll (target +:+ ".json")] ∧
  os.lookup_path out.2 target = inr (l, File data).
Proof.
  intros target Hbare Hjson out. subst out.
  pose proof (getOrCreateMutex_world d collection w) as (Hfs & Hcwd & Hcalls & _).
  assert (Hlk : ∀ p, os.lookup_path (getOrCreateMutex d collection w).2 p
                     = os.lookup_path w p).
  { intros p. by apply lookup_path_ext. }
  rewrite Delete_spec. cbv zeta. fold target. rewrite stat_spec, Hlk, Hbare.
  set (g := getOrCreateMutex d collection w) in *. simpl.
  unfold os.RemoveAll. cbv zeta. unlog.
  rewrite decide_False by (by destruct target).
  rewrite decide_False by (rewrite last_elem_suffix by done; apply json_not_dot).
  rewrite Hlk. unfold absent_at in Hjson. rewrite Hjson. simpl.
  split_and!; [done|done| |].
  - by rewrite Hcalls, <- app_assoc.
  - rewrite <- Hbare. by apply lookup_path_ext.
Qed.

(** X12.  A [Delete] that returns an [fmt.Errorf] error returns its
    not-found error for the joined name, has made one or two [Stat] calls
    and no other call, and has changed nothing in the file system. *)
Theorem Delete_not_found_no_change d collection resources w msg :
  let target := delete_path d collection resources in
  let out := Delete d collection resources w in
  out.1.1 = Some (ErrorString msg) →
  msg = "unable to find file or directory named " +:+ delete_name collection resources ∧
  fs out.2 = fs w ∧
  (calls out.2 = calls w ++ [CallStat target]
   ∨ calls out.2 = calls w ++ [CallStat target; CallStat (target +:+ ".json")]).
Proof.
  intros target out. subst out.
  pose proof (getOrCreateMutex_world d collection w) as (Hfs & Hcwd & Hcalls & _).
  rewrite Delete_spec. cbv zeta. fold target.
  set (g := getOrCreateMutex d collection w) in *.
  pose proof (stat_world target g.2) as [Hsfs _].
  assert (Hscalls : calls (stat target g.2).2 = calls w ++ [CallStat target]
            ∨ calls (stat target g.2).2
              = calls w ++ [CallStat target; CallStat (target +:+ ".json")]).
  { rewrite stat_spec.
    destruct (os.lookup_path g.2 target) as [e|[l n]]; simpl;
      [|left; by rewrite Hcalls].
    destruct e; simpl; try (left; by rewrite Hcalls).
    right. destruct (os.lookup_path g.2 (target +:+ ".json")) as [e|[l n]];
      simpl; by rewrite Hcalls, <- app_assoc. }
  destruct (stat_result target g.2) as [[fi Hst]|[e Hst]]; rewrite Hst.
  - destruct (os.IsDir (os.Mode fi)); cbn [fst snd].
    { intros Hrm. by apply RemoveAll_error in Hrm. }
    destruct (os.IsRegular (os.Mode fi)); cbn [fst snd]; [|done].
    intros Hrm. by apply RemoveAll_error in Hrm.
  - cbn [fst snd]. intros [= <-]. split_and!; [done| |done].
    by rewrite Hsfs.
Qed.


End delete_edge.

Lemma Delete_bare_file_witness :
  let target := delete_path db "users" "John" in
  let out := Delete db "users" "John" w_bare in
  out.1.1 = None ∧ fs out.2 = fs w_bare ∧
  calls out.2 = calls w_bare ++ [CallStat target; CallRemoveAll (target +:+ ".json")] ∧
  os.lookup_path out.2 target = inr (["John"; "users"; "db"; "home"], File "x").
Proof.
  apply (Delete_bare_file db "users" "John" w_bare
           ["John"; "users"; "db"; "home"] "x").
  - vm_compute. reflexivity.
  - vm_compute. reflexivity.
Defined.

Lemma Delete_not_found_no_change_witness :
  let target := delete_path db "users" "Paul" in
  let out := Delete db "users" "Paul" w_bare in
  "unable to find file or directory named users/Paul"
    = "unable to find file or directory named " +:+ delete_name "users" "Paul" ∧
  fs out.2 = fs w_bare ∧
  (calls out.2 = calls w_bare ++ [CallStat target]
   ∨ calls out.2 = calls w_bare ++ [CallStat target; CallStat (target +:+ ".json")]).
Proof.
  apply (Delete_not_found_no_change db "users" "Paul" w_bare).
  vm_compute. reflexivity.
Defined.


(** ** Calls that only look *)

Lemma read_only_refl w : read_only_step w w.
Proof.
  split_and!; [done..|]. exists []. split; [by rewrite app_nil_r|done].
Qed.

Lemma read_only_trans w1 w2 w3 :
  read_only_step w1 w2 → read_only_step w2 w3 → read_only_step w1 w3.
Proof.
  intros (Hf1 & Hc1 & Ha1 & cs1 & Hcs1 & Hr1) (Hf2 & Hc2 & Ha2 & cs2 & Hcs2 & Hr2).
  split_and!; [congruence..|]. exists (cs1 ++ cs2). split.
  - by rewrite Hcs2, Hcs1, <- app_assoc.
  - by apply Forall_app.
Qed.

Lemma read_only_log c w : reads c → read_only_step w (log c w).
Proof.
  intros Hc. split_and!; [done..|]. exists [c]. split; [done|].
  by constructor.
Qed.

Lemma Stat_read_only name w : read_only_step w (os.Stat name w).2.
Proof. rewrite Stat_world. by apply read_only_log. Qed.

Lemma ReadFile_read_only name w : read_only_step w (os.ReadFile name w).2.
Proof. rewrite ReadFile_world. by apply read_only_log. Qed.

Lemma ReadDir_read_only name w : read_only_step w (os.ReadDir name w).2.
Proof.
  unfold os.ReadDir. unlog.
  destruct (os.lookup_path w name) as [e|[l [data|]]]; by apply read_only_log.
Qed.

Lemma stat_read_only path w : read_only_step w (stat path w).2.
Proof.
  unfold stat. pose proof (Stat_read_only path w) as H1.
  destruct (os.Stat path w) as [[fi err] w1]. cbn [snd] in H1.
  destruct (os.IsNotExist err); [|done].
  eapply read_only_trans; [done|]. apply Stat_read_only.
Qed.

Lemma read_files_read_only cdir files acc w :
  read_only_step w (read_files cdir files acc w).2.
Proof.
  revert acc w. induction files as [|e files IH]; intros acc w; simpl.
  - apply read_only_refl.
  - pose proof (ReadFile_read_only (filepath.Join [cdir; os.Name e]) w) as H1.
    destruct (os.ReadFile (filepath.Join [cdir; os.Name e]) w) as [[b [err|]] w1];
      cbn [snd] in H1; [done|].
    eapply read_only_trans; [done|]. apply IH.
Qed.

Lemma ReadAll_read_only d collection w :
  read_only_step w (ReadAll d collection w).2.
Proof.
  unfold ReadAll. case_decide; [apply read_only_refl|].
  pose proof (stat_read_only (filepath.Join [dir d; collection]) w) as H1.
  destruct (stat (filepath.Join [dir d; collection]) w) as [[fi [e|]] w1];
    cbn [snd] in H1; [done|].
  pose proof (ReadDir_read_only (filepath.Join [dir d; collection]) w1) as H2.
  destruct (os.ReadDir (filepath.Join [dir d; collection]) w1) as [[files [e|]] w2];
    cbn [snd] in H2.
  - by eapply read_only_trans.
  - eapply read_only_trans; [done|]. eapply read_only_trans; [done|].
    apply read_files_read_only.
Qed.

Section look.
Context {V : Type} `{Codec V}.

Lemma Read_read_only d collection resources v w :
  read_only_step w (Read d collection resources v w).2.
Proof.
  unfold Read. repeat case_decide; try apply read_only_refl.
  pose proof (stat_read_only (filepath.Join [dir d; collection; resources]) w) as Hs1.
  destruct (stat (filepath.Join [dir d; collection; resources]) w)
    as [[fi [e|]] w1]; cbn [snd] in Hs1; [done|].
  pose proof (ReadFile_read_only
    (filepath.Join [dir d; collection; resources] +:+ ".json") w1) as Hs2.
  destruct (os.ReadFile _ w1) as [[b [e|]] w2]; cbn [snd] in Hs2;
    by eapply read_only_trans.
Qed.

(** X14.  [Read] and [ReadAll] only look: whatever they return, the file
    system, the working directory and the allocated locks are as before,
    and every [os] call they have made is a [Stat], a [ReadDir] or a
    [ReadFile].  In a run of such calls the driver, its lock registry
    included, stays as it is. *)
Theorem reading_changes_nothing d collection resources v w :
  read_only_step w (Read d collection resources v w).2 ∧
  read_only_step w (ReadAll d collection w).2 ∧
  ∀ ops : list (Op V),
    Forall (λ o, match o with OpRead _ _ _ | OpReadAll _ => True | _ => False end) ops →
    (run ops d w).1 = d ∧ read_only_step w (run ops d w).2.
Proof.
  split_and!; [apply Read_read_only|apply ReadAll_read_only|].
  intros ops Hops. revert w.
  induction Hops as [|o ops Ho _ IH]; intros w'; simpl.
  - split; [done|apply read_only_refl].
  - destruct o as [c r x|c r x|c|c r]; try done; simpl.
    + pose proof (Read_read_only d c r x w') as H1.
      destruct (Read d c r x w') as [? w1]. cbn [snd] in H1.
      destruct (IH w1) as [-> H2]. split; [done|]. by eapply read_only_trans.
    + pose proof (ReadAll_read_only d c w') as H1.
      destruct (ReadAll d c w') as [? w1]. cbn [snd] in H1.
      destruct (IH w1) as [-> H2]. split; [done|]. by eapply read_only_trans.
Qed.

End look.

(** ** [stat] *)

(** X15.  [stat] finds an entry exactly when the path names one, or names
    none while the path with [.json] appended names one; the description
    it returns is the one of the bare path when that exists, and the one of
    the [.json] path otherwise. *)
Theorem stat_finds path w :
  ((stat path w).1.2 = None ↔
     exists_at w path ∨ (absent_at w path ∧ exists_at w (path +:+ ".json"))) ∧
  (∀ l n, os.lookup_path w path = inr (l, n) →
     (stat path w).1 = (Some (os.info_of n), None)) ∧
  (∀ l n, absent_at w path → os.lookup_path w (path +:+ ".json") = inr (l, n) →
     (stat path w).1 = (Some (os.info_of n), None)).
Proof.
  rewrite stat_spec. unfold exists_at, absent_at. split_and!.
  - destruct (os.lookup_path w path) as [e|[l n]] eqn:Hp.
    + destruct e; simpl;
        try (split; [done|]; intros [(?&?&[=])|[[=] _]]).
      destruct (os.lookup_path w (path +:+ ".json")) as [e|[l n]]; simpl.
      * split; [done|]. intros [(?&?&[=])|[_ (?&?&[=])]].
      * split; [|done]. intros _. right. split; [done|]. by eauto.
    + simpl. split; [|done]. intros _. left. by eauto.
  - by intros l n ->.
  - by intros l n -> ->.
Qed.

(** ** The lock registry *)

(** X16.  [getOrCreateMutex] gets or creates: after a call the name has
    the handle that was returned, a second call for the name returns that
    handle again and changes nothing, and the handles of all other names
    are as before. *)
Theorem getOrCreateMutex_twice d collection w :
  let g := getOrCreateMutex d collection w in
  mutexes g.1.2 !! collection = Some g.1.1 ∧
  getOrCreateMutex g.1.2 collection g.2 = g ∧
  (∀ c, c ≠ collection → mutexes g.1.2 !! c = mutexes d !! c).
Proof.
  intros g. subst g.
  destruct (mutexes d !! collection) as [m|] eqn:Hm.
  - rewrite (getOrCreateMutex_registered _ _ _ _ Hm). cbn [fst snd].
    split_and!; [done|by apply getOrCreateMutex_registered|done].
  - unfold getOrCreateMutex. rewrite Hm. simpl. rewrite lookup_insert_eq.
    split_and!; [done..|]. intros c Hc. by rewrite lookup_insert_ne.
Qed.

Lemma getOrCreateMutex_ok d collection w :
  registry_ok d w →
  registry_ok (getOrCreateMutex d collection w).1.2 (getOrCreateMutex d collection w).2.
Proof.
  intros [Hlt Hinj]. unfold getOrCreateMutex.
  destruct (mutexes d !! collection) as [m|] eqn:Hm; cbn [fst snd]; [done|].
  split; simpl.
  - intros c m. destruct (decide (c = collection)) as [->|Hne].
    + rewrite lookup_insert_eq. intros [= <-]. lia.
    + rewrite lookup_insert_ne by done. intros Hc. apply Hlt in Hc. lia.
  - intros c1 c2 m.
    destruct (decide (c1 = collection)) as [->|Hn1],
             (decide (c2 = collection)) as [->|Hn2];
      rewrite ?lookup_insert_eq, ?lookup_insert_ne by done; try done.
    + intros [= <-] Hc. apply Hlt in Hc. lia.
    + intros Hc [= <-]. apply Hlt in Hc. lia.
    + apply Hinj.
Qed.

Lemma registry_ok_allocated d w w' :
  allocated w' = allocated w → registry_ok d w → registry_ok d w'.
Proof. intros Ha [Hlt Hinj]. split; [|done]. intros c m Hc. rewrite Ha. eauto. Qed.

Lemma WriteFile_allocated name data perm w :
  allocated (os.WriteFile name data perm w).2 = allocated w.
Proof.
  unfold os.WriteFile. unlog. destruct (os.resolve w name) as [e|l]; [done|].
  by destruct (fs w !! l) as [[|]|].
Qed.

Lemma Rename_allocated old new w :
  allocated (os.Rename old new w).2 = allocated w.
Proof.
  unfold os.Rename. cbv zeta. unlog.
  destruct (os.lookup_path w old) as [e|[lo [data|]]]; [done| |];
    destruct (os.resolve w new) as [e|ln]; try done;
    destruct (fs w !! ln) as [[|]|]; try done.
  destruct (decide (lo = [])); [done|]. by destruct (decide (os.below lo ln)).
Qed.

Lemma RemoveAll_allocated path w :
  allocated (os.RemoveAll path w).2 = allocated w.
Proof.
  unfold os.RemoveAll. cbv zeta. unlog.
  destruct (decide (path = "")); [done|].
  destruct (decide (last_elem path = ".")); [done|].
  destruct (os.lookup_path w path) as [[]|[l [|]]]; try done.
  destruct (decide (last_elem path = "..")); [done|].
  by destruct (decide (l = [])).
Qed.

Section registry_more.
Context {V : Type} `{Codec V}.

Lemma Write_registry_ok d collection resources v w :
  registry_ok d w →
  registry_ok (Write d collection resources v w).1.2 (Write d collection resources v w).2.
Proof.
  intros Hok.
  destruct (decide (collection = "")) as [->|Hc]; [done|].
  destruct (decide (resources = "")) as [->|Hr].
  { unfold Write. by rewrite decide_False. }
  rewrite Write_unfold by done. cbv zeta.
  pose proof (getOrCreateMutex_ok d collection w Hok) as Hg.
  set (g := getOrCreateMutex d collection w) in *.
  pose proof (MkdirAll_world (collection_dir d collection) 493 g.2) as (_ & _ & Ha2).
  destruct (os.MkdirAll (collection_dir d collection) 493 g.2) as [[e|] w2];
    cbn [fst snd] in *.
  { by apply (registry_ok_allocated _ g.2). }
  destruct (MarshalIndent v "" tab) as [b [e|]]; cbn [fst snd].
  { by apply (registry_ok_allocated _ g.2). }
  pose proof (WriteFile_allocated (tmpPath d collection resources)
                (b +:+ newline) 420 w2) as Ha3.
  destruct (os.WriteFile _ _ 420 w2) as [[e|] w3]; cbn [fst snd] in *.
  { apply (registry_ok_allocated _ g.2); [congruence|done]. }
  pose proof (Rename_allocated (tmpPath d collection resources)
                (fnlPath d collection resources) w3) as Ha4.
  apply (registry_ok_allocated _ g.2); [congruence|done].
Qed.

Lemma Delete_registry_ok d collection resources w :
  registry_ok d w →
  registry_ok (Delete d collection resources w).1.2 (Delete d collection resources w).2.
Proof.
  intros Hok. rewrite Delete_spec. cbv zeta.
  pose proof (getOrCreateMutex_ok d collection w Hok) as Hg.
  set (g := getOrCreateMutex d collection w) in *.
  set (target := delete_path d collection resources).
  pose proof (stat_read_only target g.2) as (_ & _ & Ha & _).
  pose proof (RemoveAll_allocated target (stat target g.2).2) as Hr1.
  pose proof (RemoveAll_allocated (target +:+ ".json") (stat target g.2).2) as Hr2.
  destruct (stat target g.2).1 as [[fi|] [e|]]; cbn [fst snd];
    try (by apply (registry_ok_allocated _ g.2)).
  destruct (os.IsDir (os.Mode fi)); cbn [fst snd].
  { apply (registry_ok_allocated _ g.2); [congruence|done]. }
  destruct (os.IsRegular (os.Mode fi)); cbn [fst snd].
  { apply (registry_ok_allocated _ g.2); [congruence|done]. }
  by apply (registry_ok_allocated _ g.2).
Qed.

(** X17.  Over every run of driver calls the lock registry stays in good
    order: every handle in it has been allocated and no two collection
    names share a lock.  The registry of a new driver is empty and so in
    good order. *)
Theorem locks_distinct (ops : list (Op V)) d w :
  registry_ok d w →
  registry_ok (run ops d w).1 (run ops d w).2 ∧
  ∀ dir0 w0, registry_ok (New dir0 w0).1.1 (New dir0 w0).2.
Proof.
  intros Hok. split.
  - revert d w Hok. induction ops as [|o ops IH]; intros d w Hok; simpl; [done|].
    assert (Ho : registry_ok (run_op o d w).1 (run_op o d w).2).
    { destruct o as [c r v|c r v|c|c r]; simpl.
      - pose proof (Write_registry_ok d c r v w Hok).
        by destruct (Write d c r v w) as [[? ?] ?].
      - pose proof (Read_read_only d c r v w) as (_ & _ & Ha & _).
        destruct (Read d c r v w) as [? w1]. by apply (registry_ok_allocated _ w).
      - pose proof (ReadAll_read_only d c w) as (_ & _ & Ha & _).
        destruct (ReadAll d c w) as [? w1]. by apply (registry_ok_allocated _ w).
      - pose proof (Delete_registry_ok d c r w Hok).
        by destruct (Delete d c r w) as [[? ?] ?]. }
    destruct (run_op o d w) as [d1 w1]. by apply IH.
  - intros dir0 w0.
    rewrite New_driver. by split.
Qed.

(** X18.  [Write] and [Read] with an empty collection name return the
    error about the collection, whatever the record name; with a
    collection name and an empty record name they return the error about
    the record name; [ReadAll] with an empty collection name returns its
    error and no list.  In all these cases no lock is registered and no
    [os] call is made: the driver and the world are as before. *)
Theorem empty_names_rejected d collection resources v w :
  (collection = "" →
     Write d collection resources v w
       = ((Some (ErrorString "missing collection - no place to save records"), d), w) ∧
     Read d collection resources v w
       = ((v, Some (ErrorString "missing collection - no place to read record")), w) ∧
     ReadAll d collection w
       = ((nil_records,
           Some (ErrorString "missing collection - no place to read records")), w)) ∧
  (collection ≠ "" → resources = "" →
     Write d collection resources v w
       = ((Some (ErrorString "missing resources - unable to save record (no name)"), d), w) ∧
     Read d collection resources v w
       = ((v, Some (ErrorString "missing resources - no place to read record")), w)).
Proof.
  split.
  - by intros ->.
  - intros Hc ->. unfold Write, Read.
    by destruct (decide (collection = "")).
Qed.

End registry_more.

Lemma locks_distinct_witness :
  let ops := [OpWrite "users" "John" (Str "John"); OpDelete "admins" "";
              OpReadAll "users"; OpWrite "admins" "root" (Str "root")] in
  registry_ok (run ops db w_db).1 (run ops db w_db).2 ∧
  ∀ dir0 w0, registry_ok (New dir0 w0).1.1 (New dir0 w0).2.
Proof.
  apply (locks_distinct
           [OpWrite "users" "John" (Str "John"); OpDelete "admins" "";
            OpReadAll "users"; OpWrite "admins" "root" (Str "root")] db w_db).
  split; [intros c m Hc|intros c1 c2 m Hc]; cbv [db mutexes] in Hc;
    by rewrite lookup_empty in Hc.
Defined.

(** ** Many records *)

Lemma string_length_app (a b : string) :
  String.length (a +:+ b) = String.length a + String.length b.
Proof. induction a as [|x a IH]; [done|]. rewrite string_app_cons. simpl. by rewrite IH. Qed.

#[global] Instance string_app_inj_r (s : string) : Inj (=) (=) (λ a, a +:+ s).
Proof.
  intros a. induction a as [|x a IH]; intros [|y b]; rewrite ?string_app_cons.
  - done.
  - change ("" +:+ s) with s. intros Heq. apply (f_equal String.length) in Heq.
    simpl in Heq. rewrite string_length_app in Heq. lia.
  - change ("" +:+ s) with s. intros Heq. apply (f_equal String.length) in Heq.
    simpl in Heq. rewrite string_length_app in Heq. lia.
  - intros [= -> Hab]. f_equal. by apply IH.
Qed.

(** [ReadDir] lists every name once. *)
Lemma children_names_NoDup m l : NoDup (os.Name <$> os.children m l).
Proof.
  unfold os.children. rewrite merge_sort_Permutation.
  pose proof (NoDup_fst_map_to_list m) as Hnd.
  induction (map_to_list m) as [|[k n] L IH]; [constructor|].
  apply NoDup_cons in Hnd as [Hk Hnd]. specialize (IH Hnd).
  change (omap (os.child_of l) ((k, n) :: L))
    with (match os.child_of l (k, n) with
          | Some e => e :: omap (os.child_of l) L
          | None => omap (os.child_of l) L
          end).
  destruct (os.child_of l (k, n)) as [e|] eqn:He; [|done].
  rewrite fmap_cons. apply NoDup_cons. split; [|done].
  intros Hin. apply list_elem_of_fmap in Hin as (e' & Hname & Hin').
  apply list_elem_of_omap in Hin' as ([k' n'] & Hkn & He').
  apply Hk. apply list_elem_of_fmap. exists (k', n'). split; [|done]. simpl.
  destruct k as [|x k0]; [done|]. destruct k' as [|x' k0']; [done|].
  simpl in He, He'. repeat case_decide; simplify_eq. simpl in Hname. by subst.
Qed.

(** [ReadAll] of a collection that holds the files [files] and nothing
    else returns their contents, each once. *)
Lemma ReadAll_perm d collection w l (files : list (string * bytes)) :
  collection ≠ "" → valid_fs (fs w) →
  os.lookup_path w (collection_dir d collection) = inr (l, Dir) →
  NoDup files.*1 →
  (∀ name n, fs w !! (name :: l) = Some n ↔
     ∃ data, (name, data) ∈ files ∧ n = File data) →
  (ReadAll d collection w).1.2 = None ∧
  (ReadAll d collection w).1.1 ≡ₚ files.*2.
Proof.
  intros Hc Hv Hl Hnd Hfiles.
  rewrite (ReadAll_files d collection w l); [|done..|].
  2:{ intros name n Hn. apply Hfiles in Hn as (data & _ & ->). by eexists. }
  split; [done|]. cbn [fst snd].
  set (g := λ name, match fs w !! (name :: l) with
                    | Some (File data) => data
                    | _ => ""
                    end).
  assert (Hg : content (fs w) l <$> os.children (fs w) l
               = g <$> (os.Name <$> os.children (fs w) l)).
  { by rewrite <- list_fmap_compose. }
  rewrite Hg.
  assert (Hperm : os.Name <$> os.children (fs w) l ≡ₚ files.*1).
  { apply NoDup_Permutation; [apply children_names_NoDup|done|].
    intros name. split.
    - intros (e & -> & (n & Hn & _)%children_elem)%list_elem_of_fmap.
      apply Hfiles in Hn as (data & Hin & _).
      apply list_elem_of_fmap. by exists (os.Name e, data).
    - intros ([name' data] & -> & Hin)%list_elem_of_fmap. simpl.
      apply (children_complete _ _ _ (File data)). apply Hfiles. by eauto. }
  rewrite Hperm. rewrite <- list_fmap_compose.
  replace (g ∘ fst <$> files) with (snd <$> files); [done|].
  apply Forall_fmap_ext_1. apply Forall_forall. intros [name data] Hin. simpl.
  unfold g.
  assert (fs w !! (name :: l) = Some (File data)) as -> by (apply Hfiles; eauto).
  done.
Qed.

Section many_writes.
Context {V : Type} `{Codec V}.
Variables (dir0 collection : string) (wi : World) (ld : list string).
Hypothesis Hclean : dir0 = filepath.Clean dir0.
Hypothesis Hcoll : plain collection.
Hypothesis Hstore : os.lookup_path wi dir0 = inr (ld, Dir).

Local Abbreviation lc := (collection :: ld).

(** One more record in the collection. *)
Lemma Write_holds d r v w files b :
  dir d = dir0 → holds wi lc files w →
  plain r → MarshalIndent v "" tab = (b, None) →
  (r +:+ ".json") ∉ files.*1 →
  Forall (λ nd, ∃ r', nd.1 = r' +:+ ".json") files →
  ∃ d' w', Write d collection r v w = ((None, d'), w') ∧ dir d' = dir0 ∧
    holds wi lc (files ++ [(r +:+ ".json", b +:+ newline)]) w'.
Proof.
  intros Hd (Hcwd & Hdirs & Hnf & Hlc & Hch) Hr Hjs Hnew Hjson.
  set (rj := r +:+ ".json") in *. set (rt := r +:+ ".json.tmp").
  set (data := b +:+ newline).
  assert (Hstore_w : os.lookup_path w (dir d) = inr (ld, Dir)).
  { rewrite Hd. apply lookup_path_inv in Hstore as [Hres Hl].
    apply lookup_path_inv. split; [|by apply Hdirs].
    by apply (resolve_mono wi). }
  assert (Hlf : fs w !! (rj :: lc) ≠ Some Dir).
  { intros Hdir. by apply Hch in Hdir as (? & _ & [=]). }
  assert (Hlt : fs w !! (rt :: lc) ≠ Some Dir).
  { intros Hdir. by apply Hch in Hdir as (? & _ & [=]). }
  destruct (Write_plain d collection r v w ld b) as (w' & Hw & Hcwd' & Hfs');
    [by rewrite Hd|done..|].
  fold rj rt data in Hfs'.
  pose proof (getOrCreateMutex_world d collection w) as (_ & _ & _ & Hdir').
  exists (getOrCreateMutex d collection w).1.2, w'.
  split; [done|]. split; [by rewrite Hdir'|].
  assert (Hrj_rt : rj ≠ rt).
  { intros Heq. by apply string_app_inj_l in Heq. }
  assert (Hlc' : fs w' !! lc = Some Dir).
  { rewrite Hfs'. rewrite lookup_insert_ne by apply cons_neq.
    rewrite lookup_delete_ne by apply cons_neq. by rewrite lookup_insert_eq. }
  split_and!.
  - by rewrite Hcwd'.
  - intros k Hk. apply Hdirs in Hk. rewrite Hfs'.
    rewrite lookup_insert_ne by (intros <-; by rewrite Hk in Hlf).
    rewrite lookup_delete_ne by (intros <-; by rewrite Hk in Hlt).
    destruct (decide (k = lc)) as [->|Hne].
    + by rewrite lookup_insert_eq.
    + by rewrite lookup_insert_ne.
  - intros data'. by rewrite Hlc'.
  - done.
  - intros name n. rewrite Hfs'.
    destruct (decide (name = rj)) as [->|Hnj].
    { rewrite lookup_insert_eq. split.
      - intros [= <-]. exists data. split; [|done].
        apply elem_of_app. right. by apply list_elem_of_singleton.
      - intros (data0 & Hin & ->). apply elem_of_app in Hin as [Hin|Hin].
        + destruct Hnew. apply list_elem_of_fmap. by exists (rj, data0).
        + apply list_elem_of_singleton in Hin. by injection Hin as <-. }
    rewrite lookup_insert_ne by (by intros [= ?]).
    destruct (decide (name = rt)) as [->|Hnt].
    { rewrite lookup_delete_eq. split; [done|].
      intros (data0 & Hin & ->). apply elem_of_app in Hin as [Hin|Hin].
      - rewrite Forall_forall in Hjson. destruct (Hjson _ Hin) as [r' Hr'].
        simpl in Hr'. symmetry in Hr'. by apply json_not_tmp in Hr'.
      - apply list_elem_of_singleton in Hin. by injection Hin as ? _. }
    rewrite lookup_delete_ne by (by intros [= ?]).
    rewrite lookup_insert_ne by (symmetry; apply cons_neq).
    rewrite Hch. split; intros (data0 & Hin & ->); exists data0; (split; [|done]).
    + apply elem_of_app. by left.
    + apply elem_of_app in Hin as [Hin|Hin]; [done|].
      apply list_elem_of_singleton in Hin. by injection Hin as ? _.
Qed.

(** A run of writes of records under names that are new and distinct. *)
Lemma run_writes_holds (records : list (string * V)) d w files :
  dir d = dir0 → holds wi lc files w →
  Forall (λ rv, plain rv.1 ∧ (MarshalIndent rv.2 "" tab).2 = None) records →
  NoDup (files.*1 ++ ((λ r, r +:+ ".json") <$> records.*1)) →
  Forall (λ nd, ∃ r', nd.1 = r' +:+ ".json") files →
  dir (run (writes collection records) d w).1 = dir0 ∧
  holds wi lc (files ++ (stored <$> records)) (run (writes collection records) d w).2.
Proof.
  revert d w files.
  induction records as [|[r v] records IH]; intros d w files Hd Hholds Hall Hnd Hjson.
  - simpl. by rewrite app_nil_r.
  - apply Forall_cons in Hall as [[Hr Hjs] Hall]. simpl in Hr, Hjs.
    destruct (MarshalIndent v "" tab) as [b e] eqn:Hm. simpl in Hjs. subst e.
    rewrite !fmap_cons in Hnd. simpl in Hnd.
    assert (Hnew : (r +:+ ".json") ∉ files.*1).
    { apply NoDup_app in Hnd as (_ & Hdisj & _). intros Hin.
      apply (Hdisj _ Hin). by left. }
    destruct (Write_holds d r v w files b Hd Hholds Hr Hm Hnew Hjson)
      as (d' & w' & Hw & Hd' & Hholds').
    simpl. rewrite Hw.
    assert (Hst : stored (r, v) = (r +:+ ".json", b +:+ newline)).
    { unfold stored. simpl. by rewrite Hm. }
    rewrite Hst. rewrite (cons_middle _ files), app_assoc.
    apply IH; [done..| |].
    + rewrite fmap_app. simpl. by rewrite <- app_assoc.
    + apply Forall_app. split; [done|]. constructor; [by exists r|done].
Qed.

End many_writes.

Section many_writes_read.
Context {V : Type} `{Codec V}.

(** [ReadAll] after a run of writes to a new collection. *)
Lemma run_writes_ReadAll d collection (records : list (string * V)) w ld :
  dir d = filepath.Clean (dir d) → plain collection → valid_world w →
  os.lookup_path w (dir d) = inr (ld, Dir) →
  (∀ data, fs w !! (collection :: ld) ≠ Some (File data)) →
  (∀ name, fs w !! (name :: collection :: ld) = None) →
  records ≠ [] → NoDup records.*1 →
  Forall (λ rv, plain rv.1 ∧ (MarshalIndent rv.2 "" tab).2 = None) records →
  let out := run (writes collection records) d w in
  (ReadAll out.1 collection out.2).1.2 = None ∧
  (ReadAll out.1 collection out.2).1.1 ≡ₚ (stored <$> records).*2.
Proof.
  intros Hd Hc Hvalid Hstore Hnofile Hfresh Hne Hnd Hall out.
  assert (Hinit : holds w (collection :: ld) [] w).
  { split_and!; try done. intros name n. rewrite Hfresh. split; [done|].
    intros (data & Hin & _). by apply elem_of_nil in Hin. }
  destruct (run_writes_holds (dir d) collection w ld Hd Hc Hstore records d w [])
    as [Hdir Hholds]; [done..| |done|].
  { simpl. by apply (NoDup_fmap_2 (λ r, r +:+ ".json")). }
  fold out in Hdir, Hholds. simpl in Hholds.
  destruct Hholds as (Hcwd & Hdirs & _ & Hlc & Hch).
  assert (Hst : stored <$> records ≠ []) by (by destruct records).
  specialize (Hlc Hst).
  pose proof Hc as (_ & Hc0 & _).
  assert (Hd' : dir out.1 = filepath.Clean (dir out.1)) by (by rewrite Hdir).
  destruct (layout out.1 collection collection Hd' Hc Hc)
    as (rt & outs & Hn & HD & Hcd & _).
  rewrite Hdir in HD. rewrite HD in Hstore.
  apply (ReadAll_perm _ _ _ (collection :: ld)); [done| | | |done].
  - apply (run_valid (writes collection records) d w Hvalid).
  - apply lookup_path_inv. split; [|done]. rewrite Hcd.
    by apply (resolve_collection w rt outs ld Hn Hstore).
  - replace ((stored <$> records).*1) with ((λ r, r +:+ ".json") <$> records.*1).
    + by apply (NoDup_fmap_2 (λ r, r +:+ ".json")).
    + rewrite <- !list_fmap_compose. done.
Qed.


End many_writes_read.


(** ** Records do not disturb each other *)


Section records.
Context {V : Type} `{Codec V}.





End records.




(** ** The demonstration program *)

Section demo_run.
Context `{Codec User}.

(** The first loop of [main] is a run of writes. *)
Lemma write_all_run db values w :
  write_all db values w
    = run (writes "users" ((λ u, (Name u, u)) <$> values)) db w.
Proof.
  revert db w. induction values as [|[n a c co ad] values IH]; intros db w; [done|].
  simpl. destruct (Write db "users" n _ w) as [[e db1] w1]. apply IH.
Qed.

(** The second loop of [main] on records that all decode. *)
Lemma decode_all_ok records allUsers out :
  Forall (λ f, (Unmarshal f zero_user).2 = None) records →
  decode_all records allUsers out
    = (allUsers ++ ((λ f, (Unmarshal f zero_user).1) <$> records), out).
Proof.
  intros Hall. revert allUsers.
  induction Hall as [|f records Hf _ IH]; intros allUsers; simpl.
  - by rewrite app_nil_r.
  - destruct (Unmarshal f zero_user) as [u e]. simpl in Hf. subst e.
    rewrite IH. by rewrite <- app_assoc.
Qed.

(** X23.  [main], started in a working directory that exists and holds no
    entry [users], in a file system with plain names, and with a codec that
    encodes each of the five employees and decodes the stored bytes back:
    it prints no error; it prints the records [ReadAll] returns, which are
    the stored contents of the five employees, each once; and it prints
    the decoded users, which are the five employees, each once. *)
Theorem main_prints_employees w :
  valid_world w → fs w !! cwd w = Some Dir →
  (∀ data, fs w !! ("users" :: cwd w) ≠ Some (File data)) →
  (∀ name, fs w !! (name :: "users" :: cwd w) = None) →
  Forall (λ u, ∃ b, MarshalIndent u "" tab = (b, None) ∧
                    Unmarshal (b +:+ newline) zero_user = (u, None)) employees →
  ∃ records users,
    (main w).1 = [PrintRecords records; PrintUsers users] ∧
    records ≡ₚ (λ u, (MarshalIndent u "" tab).1 +:+ newline) <$> employees ∧
    users ≡ₚ employees.
Proof.
  intros Hvalid Hcwd Hnofile Hfresh Hcodec.
  assert (Hdot : os.lookup_path w "." = inr (cwd w, Dir)).
  { unfold os.lookup_path, os.resolve, os.start. simpl. unfold os.step.
    rewrite Hcwd. change (os.move (cwd w) ".") with (cwd w). by rewrite Hcwd. }
  assert (Hclean : filepath.Clean "./" = ".") by by_compute.
  unfold main. cbv zeta.
  rewrite (New_found "./" w (cwd w) Dir) by (by rewrite Hclean).
  rewrite Hclean.
  set (d1 := {| mutexes := ∅; dir := "." |}).
  set (w1 := log (CallStat ".") w).
  rewrite write_all_run.
  set (records0 := (λ u, (Name u, u)) <$> employees).
  destruct (run_writes_ReadAll d1 "users" records0 w1 (cwd w)) as [Herr Hperm].
  - by_compute.
  - by_compute.
  - done.
  - done.
  - done.
  - done.
  - done.
  - by_compute.
  - assert (Hplain : Forall (λ u, plain (Name u)) employees).
    { repeat constructor; by_compute. }
    subst records0. apply Forall_fmap. apply Forall_forall. intros u Hin.
    rewrite Forall_forall in Hplain, Hcodec.
    destruct (Hcodec u Hin) as (b & Hm & _). simpl. rewrite Hm.
    split; [by apply Hplain|done].
  - destruct (run (writes "users" records0) d1 w1) as [d2 w2].
    cbn [fst snd] in *.
    destruct (ReadAll d2 "users" w2) as [[records err] w3].
    cbn [fst snd] in *. subst err.
    assert (Henc : (stored <$> records0).*2
              = (λ u, (MarshalIndent u "" tab).1 +:+ newline) <$> employees).
    { subst records0. by rewrite <- !list_fmap_compose. }
    rewrite Henc in Hperm.
    assert (Hdec : Forall (λ f, (Unmarshal f zero_user).2 = None) records).
    { rewrite Hperm. apply Forall_fmap. eapply Forall_impl; [exact Hcodec|].
      intros u (b & Hm & Hu). simpl. rewrite Hm. cbn [fst]. by rewrite Hu. }
    rewrite (decode_all_ok _ _ _ Hdec).
    assert (Hback : (λ f, (Unmarshal f zero_user).1)
                      <$> ((λ u, (MarshalIndent u "" tab).1 +:+ newline) <$> employees)
                    = employees).
    { rewrite <- list_fmap_compose. rewrite <- (list_fmap_id employees) at 2.
      apply Forall_fmap_ext_1. eapply Forall_impl; [exact Hcodec|].
      intros u (b & Hm & Hu). simpl. rewrite Hm. cbn [fst]. by rewrite Hu. }
    eexists _, _. split; [reflexivity|]. split; [done|].
    by rewrite Hperm, Hback.
Qed.

(** X24.  Whatever the file system and the codec, [main] prints one user
    for every record that [ReadAll] returned, also for a record that does
    not decode; the last thing it prints is the list of users, and the
    records come right before the errors of decoding. *)
Theorem main_prints_one_user_per_record w :
  ∃ before records errors users,
    (main w).1 = before ++ [PrintRecords records] ++ errors ++ [PrintUsers users] ∧
    length users = length records ∧
    Forall (λ o, ∃ e, o = PrintError e) (before ++ errors) ∧
    (length errors ≤ length records)%nat.
Proof.
  unfold main. cbv zeta.
  destruct (New "./" w) as [[db err0] w1].
  destruct (write_all db employees w1) as [db2 w2].
  destruct (ReadAll db2 "users" w2) as [[records err] w3].
  set (before := (match err with
                  | Some e => (match err0 with Some e0 => [PrintError e0] | None => [] end)
                              ++ [PrintError e]
                  | None => match err0 with Some e0 => [PrintError e0] | None => [] end
                  end)).
  assert (Hbefore : Forall (λ o, ∃ e, o = PrintError e) before).
  { subst before. destruct err, err0; repeat constructor; by eexists. }
  assert (Hloop : ∀ records acc out,
    ∃ errors,
      decode_all records acc out
        = (acc ++ ((λ f, (Unmarshal f zero_user).1) <$> records), out ++ errors) ∧
      Forall (λ o, ∃ e, o = PrintError e) errors ∧
      (length errors ≤ length records)%nat).
  { clear. induction records as [|f records IH]; intros acc out; simpl.
    - exists []. by rewrite !app_nil_r.
    - destruct (Unmarshal f zero_user) as [u [e|]]; simpl.
      + destruct (IH (acc ++ [u]) (out ++ [PrintError e])) as (errors & -> & Hall & Hlen).
        exists (PrintError e :: errors). split_and!.
        * by rewrite <- !app_assoc.
        * constructor; [by eexists|done].
        * simpl. lia.
      + destruct (IH (acc ++ [u]) out) as (errors & -> & Hall & Hlen).
        exists errors. split_and!; [by rewrite <- !app_assoc|done|lia]. }
  destruct (Hloop records [] (before ++ [PrintRecords records]))
    as (errors & -> & Herrors & Hlen).
  exists before, records, errors, ((λ f, (Unmarshal f zero_user).1) <$> records).
  split_and!.
  - simpl. by rewrite <- !app_assoc.
  - by rewrite length_fmap.
  - by apply Forall_app.
  - done.
Qed.

End demo_run.

Lemma main_prints_employees_witness :
  ∃ records users,
    (main (H := user_codec) w0).1 = [PrintRecords records; PrintUsers users] ∧
    records ≡ₚ (λ u, (MarshalIndent (Codec := user_codec) u "" tab).1 +:+ newline)
                 <$> employees ∧
    users ≡ₚ employees.
Proof.
  apply (main_prints_employees (H := user_codec) w0).
  - by_compute.
  - by_compute.
  - intros data. by_compute.
  - intros name. by_compute.
  - repeat constructor; eexists; split; reflexivity.
Defined.
